(** * AgileRL: replay memory and the Rainbow-DQN learning core

    A shallow embedding of [agilerl/components/replay_buffer.py] and of the
    learning core of [agilerl/algorithms/dqn_rainbow.py], with the properties
    of the specification stated and proved over it.

    Conventions of the embedding.
    - Python [float]s and the entries of torch tensors are exact rationals
      ([Q]); equality of computed values is [Qeq] ([==]).  Rounding, NaN and
      infinities are outside the model, and so is a support of width zero
      (a division by the float [0.0] inside a tensor).
    - Python [int]s are [Z] where a sign matters and [nat] for lengths and
      positions.
    - A raised exception is a value: functions that can raise return
      [res A].
    - A tensor of rank one is the list of its entries, a tensor of rank two
      the list of its rows; [view(-1)] is [concat]. *)

From Stdlib Require Import List ZArith QArith Qround Qminmax Qpower Lia Lqa
  Bool Arith PeanoNat Setoid Morphisms Permutation.
Import ListNotations.

Set Implicit Arguments.

(** ** Exceptions and results *)

Inductive exn : Set :=
| AssertionError
| ValueError
| IndexError
| ZeroDivisionError
| RuntimeError
| MaskError.

Inductive res (A : Type) : Type :=
| Ok (a : A)
| Raise (e : exn).

Arguments Ok {A} a.
Arguments Raise {A} e.

Definition bind {A B : Type} (m : res A) (k : A -> res B) : res B :=
  match m with
  | Ok a => k a
  | Raise e => Raise e
  end.

Notation "x <- m ;; k" := (bind m (fun x => k))
  (at level 61, m at next level, right associativity).

(** [assert cond] *)
Definition py_assert (cond : bool) : res unit :=
  if cond then Ok tt else Raise AssertionError.

Fixpoint mapM {A B : Type} (f : A -> res B) (l : list A) : res (list B) :=
  match l with
  | [] => Ok []
  | x :: t => y <- f x ;; ys <- mapM f t ;; Ok (y :: ys)
  end.

(** The last [n] entries of a list (all of it when it is shorter). *)
Definition lastn {A : Type} (n : nat) (l : list A) : list A :=
  skipn (length l - n) l.

(** ** replay_buffer.py *)

Module replay_buffer.

Section Buffer.

(** Observations and actions are whatever the environment produces. *)
Variables State Action : Type.

(** [namedtuple("Experience", field_names)], built positionally by [_add]
    from [(state, action, reward, next_state, done)]. *)
Record Experience : Type := experience {
  state : State;
  action : Action;
  reward : Q;
  next_state : State;
  done : bool
}.

(** [collections.deque(maxlen=m).append(x)]: the item is put at the right
    end, then the deque is trimmed from the left if it got longer than
    [maxlen]. *)
Definition deque_append (maxlen : nat) (d : list Experience)
    (x : Experience) : list Experience :=
  let d' := d ++ [x] in
  if maxlen <? length d' then tl d' else d'.

Record ReplayBuffer : Type := {
  n_actions : Z;
  maxlen : nat;
  memory : list Experience;
  counter : nat
}.

(** [ReplayBuffer.__init__]; [deque(maxlen=memory_size)] raises
    [ValueError] on a negative [maxlen]. *)
Definition __init__ (action_dim memory_size : Z) : res ReplayBuffer :=
  if (memory_size <? 0)%Z then Raise ValueError
  else Ok {| n_actions := action_dim;
             maxlen := Z.to_nat memory_size;
             memory := [];
             counter := 0 |}.

Definition __len__ (self : ReplayBuffer) : nat := length (memory self).

Definition _add (self : ReplayBuffer) (s : State) (a : Action) (r : Q)
    (s' : State) (d : bool) : ReplayBuffer :=
  let e := experience s a r s' d in
  {| n_actions := n_actions self;
     maxlen := maxlen self;
     memory := deque_append (maxlen self) (memory self) e;
     counter := counter self |}.

Definition save2memorySingleEnv (self : ReplayBuffer) (s : State)
    (a : Action) (r : Q) (s' : State) (d : bool) : ReplayBuffer :=
  let self := _add self s a r s' d in
  {| n_actions := n_actions self;
     maxlen := maxlen self;
     memory := memory self;
     counter := counter self + 1 |}.

(** [zip(states, actions, rewards, next_states, dones)] stops at the
    shortest argument. *)
Fixpoint zip5 (ss : list State) (acts : list Action) (rs : list Q)
    (ss' : list State) (ds : list bool) : list Experience :=
  match ss, acts, rs, ss', ds with
  | s :: ss, a :: acts, r :: rs, s' :: ss', d :: ds =>
      experience s a r s' d :: zip5 ss acts rs ss' ds
  | _, _, _, _, _ => []
  end.

Definition save2memoryVectEnvs (self : ReplayBuffer) (ss : list State)
    (acts : list Action) (rs : list Q) (ss' : list State)
    (ds : list bool) : ReplayBuffer :=
  fold_left
    (fun self e =>
       save2memorySingleEnv self (state e) (action e) (reward e)
         (next_state e) (done e))
    (zip5 ss acts rs ss' ds) self.

(** *** Sampling *)

(** [random.sample(population, k)] of the Python standard library, by
    its contract: [ValueError] unless [0 <= k <= len(population)];
    otherwise a list of [k] entries of the population, taken at [k]
    distinct positions.  Which positions are taken is the business of
    the library and of its generator (a partial shuffle of a copy for a
    small population, rejection of repeated positions for a large one)
    and is not represented: [draw] is one rule that honours the contract,
    [rnd] standing for the generator, and the properties below use the
    contract only. *)
Fixpoint pop_nth {X : Type} (j : nat) (l : list X) {struct l}
  : option (X * list X) :=
  match l with
  | [] => None
  | x :: t =>
      match j with
      | O => Some (x, t)
      | S j' =>
          match pop_nth j' t with
          | Some (y, r) => Some (y, x :: r)
          | None => None
          end
      end
  end.

Fixpoint draw {X : Type} (rnd : nat -> nat) (i : nat) (pool : list X)
    (k : nat) : list X :=
  match k with
  | O => []
  | S k' =>
      match pop_nth (rnd i mod length pool) pool with
      | Some (x, rest) => x :: draw rnd (S i) rest k'
      | None => []
      end
  end.

Definition random_sample {X : Type} (rnd : nat -> nat)
    (population : list X) (k : Z) : res (list X) :=
  if ((0 <=? k) && (k <=? Z.of_nat (length population)))%Z
  then Ok (draw rnd 0 population (Z.to_nat k))
  else Raise ValueError.

(** [np.stack] and [np.vstack] refuse an empty list of arrays
    ("need at least one array") with a [ValueError]. *)
Definition np_stack {X : Type} (arrays : list X) : res (list X) :=
  match arrays with
  | [] => Raise ValueError
  | _ => Ok arrays
  end.

(** The tuple [(states, actions, rewards, next_states, dones)]. *)
Record Batch : Type := {
  states : list State;
  actions : list Action;
  rewards : list Q;
  next_states : list State;
  dones : list Q
}.

(** [.astype(np.uint8)).float()] of a Python [bool]. *)
Definition float_of_bool (d : bool) : Q := if d then 1 else 0.

(** The columns [sample] builds from a list of experiences. *)
Definition columns (experiences : list Experience) : Batch :=
  {| states := map state experiences;
     actions := map action experiences;
     rewards := map reward experiences;
     next_states := map next_state experiences;
     dones := map (fun e => float_of_bool (done e)) experiences |}.

(** [ReplayBuffer.sample].  No stored experience is [None], so the
    filters [if e is not None] keep every entry.  The buffer is read
    only. *)
Definition sample (rnd : nat -> nat) (self : ReplayBuffer)
    (batch_size : Z) : res Batch :=
  experiences <- random_sample rnd (memory self) batch_size ;;
  states <- np_stack (map state experiences) ;;
  actions <- np_stack (map action experiences) ;;
  rewards <- np_stack (map reward experiences) ;;
  next_states <- np_stack (map next_state experiences) ;;
  dones <- np_stack (map (fun e => float_of_bool (done e)) experiences) ;;
  Ok {| states := states;
        actions := actions;
        rewards := rewards;
        next_states := next_states;
        dones := dones |}.

(** *** Runs of the buffer *)

(** The calls a client can make on a buffer. *)
Inductive call : Type :=
| CallSingle (s : State) (a : Action) (r : Q) (s' : State) (d : bool)
| CallVect (ss : list State) (acts : list Action) (rs : list Q)
    (ss' : list State) (ds : list bool)
| CallSample (rnd : nat -> nat) (batch_size : Z).

Definition step (self : ReplayBuffer) (c : call) : ReplayBuffer :=
  match c with
  | CallSingle s a r s' d => save2memorySingleEnv self s a r s' d
  | CallVect ss acts rs ss' ds => save2memoryVectEnvs self ss acts rs ss' ds
  | CallSample _ _ => self
  end.

Definition run (self : ReplayBuffer) (cs : list call) : ReplayBuffer :=
  fold_left step cs self.

(** The experiences a run hands to [_add], in order. *)
Definition inserted_by (c : call) : list Experience :=
  match c with
  | CallSingle s a r s' d => [experience s a r s' d]
  | CallVect ss acts rs ss' ds => zip5 ss acts rs ss' ds
  | CallSample _ _ => []
  end.

Definition inserted (cs : list call) : list Experience :=
  flat_map inserted_by cs.

(** *** Vocabulary of the properties *)

(** One more experience through [save2memorySingleEnv]. *)
Definition push (self : ReplayBuffer) (e : Experience) : ReplayBuffer :=
  save2memorySingleEnv self (state e) (action e) (reward e)
    (next_state e) (done e).

End Buffer.

Arguments __init__ {State Action} action_dim memory_size.

(** The positions of a list paired with its entries. *)
Definition indexed (X : Type) (l : list X) : list (nat * X) :=
  combine (seq 0 (length l)) l.


(** The scenario of the specification: transitions tagged A, B, C, D. *)
Inductive tag : Set := tag_A | tag_B | tag_C | tag_D.

Definition tagged (t : tag) : Experience tag nat :=
  experience t 0%nat 0 t false.

Definition insert_tagged (t : tag) : call tag nat :=
  CallSingle t 0%nat 0 t false.

(** A buffer of capacity 3 after the insertions A, B, C. *)
Definition buffer_ABC : ReplayBuffer tag nat :=
  {| n_actions := 1; maxlen := 3;
     memory := map tagged [tag_A; tag_B; tag_C]; counter := 3 |}.

End replay_buffer.

(** ** torch and numpy operations used by dqn_rainbow.py *)

Module torch.

Definition map2 {A B C : Type} (f : A -> B -> C) (a : list A)
    (b : list B) : list C :=
  map (fun p => f (fst p) (snd p)) (combine a b).

Definition Qlt_bool (x y : Q) : bool := negb (Qle_bool y x).

Fixpoint Qsum (l : list Q) : Q :=
  match l with
  | [] => 0
  | x :: t => x + Qsum t
  end.

(** [torch.linspace(start, end, steps)] in exact arithmetic: [steps]
    points from [start] in steps of [(end - start) / (steps - 1)]; one
    point is [start] alone. *)
Definition linspace (start stop : Q) (steps : nat) : list Q :=
  match steps with
  | O => []
  | S O => [start]
  | _ =>
      map (fun i =>
             start + inject_Z (Z.of_nat i)
                     * ((stop - start) / inject_Z (Z.of_nat steps - 1)))
          (seq 0 steps)
  end.

(** [.long()]: truncation toward zero. *)
Definition long (x : Q) : Z := Z.quot (Qnum x) (Zpos (Qden x)).

(** [x.clamp(min=lo, max=hi)] *)
Definition clamp (x lo hi : Q) : Q := Qmin (Qmax x lo) hi.

(** [argmax] along the last dimension: the position of the first
    maximal entry ([0] stands for the error on an empty row, which the
    approximator contract excludes). *)
Fixpoint argmax_from {X : Type} (ltb : X -> X -> bool) (best_i : nat)
    (best : X) (i : nat) (l : list X) : nat :=
  match l with
  | [] => best_i
  | x :: t =>
      if ltb best x then argmax_from ltb i x (S i) t
      else argmax_from ltb best_i best (S i) t
  end.

Definition argmax_by {X : Type} (ltb : X -> X -> bool) (l : list X) : nat :=
  match l with
  | [] => O
  | x :: t => argmax_from ltb 0 x 1 t
  end.

Definition argmax (l : list Q) : nat := argmax_by Qlt_bool l.

(** Order on the entries of a filled masked array: a masked entry is
    filled with minus infinity ([None]). *)
Definition filled_ltb (x y : option Q) : bool :=
  match x, y with
  | None, Some _ => true
  | Some a, Some b => Qlt_bool a b
  | _, None => false
  end.

(** [np.argmax(np.ma.array(values, mask=mask), axis=-1)]: a non-zero
    mask entry hides the value. *)
Definition masked_argmax (values : list Q) (mask : list Z) : nat :=
  argmax_by filled_ltb
    (map2 (fun v m => if (m =? 0)%Z then Some v else None) values mask).

(** Two tensors of rank two, given by their rows, have the same shape. *)
Fixpoint same_shape {X Y : Type} (a : list (list X)) (b : list (list Y))
    : bool :=
  match a, b with
  | [], [] => true
  | r :: a', q :: b' => (length r =? length q) && same_shape a' b'
  | _, _ => false
  end.

(** [flat.reshape(shape)] for the shape of a tensor of rank two. *)
Fixpoint reshape_like {X Y : Type} (shape : list (list X)) (flat : list Y)
    : list (list Y) :=
  match shape with
  | [] => []
  | r :: rs =>
      firstn (length r) flat :: reshape_like rs (skipn (length r) flat)
  end.

(** The mask [np.ma.array(data, mask=mask)] ends up with
    ([MaskedArray.__new__]): a mask of the shape of the data is taken as
    it is; a mask of another shape is repeated over the data when it has
    one entry, reshaped when it has as many entries as the data, and
    refused with [MaskError] otherwise. *)
Definition ma_mask (data : list (list Q)) (mask : list (list Z))
    : res (list (list Z)) :=
  if same_shape data mask then Ok mask
  else
    let nd := length (concat data) in
    let nm := length (concat mask) in
    if nm =? 1 then Ok (map (map (fun _ => hd 0%Z (concat mask))) data)
    else if nm =? nd then Ok (reshape_like data (concat mask))
    else Raise MaskError.

(** Broadcasting of two index tensors of rank one. *)
Definition broadcast_index {X Y : Type} (xs : list X) (ys : list Y)
    : res (list (X * Y)) :=
  if length xs =? length ys then Ok (combine xs ys)
  else
    match xs, ys with
    | [x], _ => Ok (map (fun y => (x, y)) ys)
    | _, [y] => Ok (map (fun x => (x, y)) xs)
    | _, _ => Raise IndexError
    end.

Definition getitem2 {X : Type} (t : list (list X)) (rc : nat * nat)
    : res X :=
  match nth_error t (fst rc) with
  | Some row =>
      match nth_error row (snd rc) with
      | Some v => Ok v
      | None => Raise IndexError
      end
  | None => Raise IndexError
  end.

(** [t[rows, cols]] with two index sequences (advanced indexing): the
    indices are broadcast against each other, then looked up pairwise;
    a shape mismatch and an index out of bounds both raise
    [IndexError]. *)
Definition adv_index {X : Type} (t : list (list X)) (rows cols : list nat)
    : res (list X) :=
  pairs <- broadcast_index rows cols ;;
  mapM (getitem2 t) pairs.

(** [a + b] for integer tensors of shapes [(m, k)] and [(n, k)]:
    dimension 0 is broadcast. *)
Definition add_broadcast (a b : list (list Z)) : res (list (list Z)) :=
  if length a =? length b then Ok (map2 (map2 Z.add) a b)
  else
    match a, b with
    | _, [r] => Ok (map (fun x => map2 Z.add x r) a)
    | [r], _ => Ok (map (fun y => map2 Z.add r y) b)
    | _, _ => Raise RuntimeError
    end.

(** [l[n] += x] *)
Fixpoint add_at (l : list Q) (n : nat) (x : Q) : list Q :=
  match l, n with
  | [], _ => []
  | y :: t, O => (y + x) :: t
  | y :: t, S n' => y :: add_at t n' x
  end.

Fixpoint index_add_loop (self : list Q) (index : list Z) (source : list Q)
    : res (list Q) :=
  match index, source with
  | i :: index', x :: source' =>
      if ((0 <=? i) && (i <? Z.of_nat (length self)))%Z
      then index_add_loop (add_at self (Z.to_nat i) x) index' source'
      else Raise IndexError
  | _, _ => Ok self
  end.

(** [self.index_add_(0, index, source)] on rank-one tensors:
    [self[index[t]] += source[t]] for every [t]. *)
Definition index_add_ (self : list Q) (index : list Z) (source : list Q)
    : res (list Q) :=
  if length index =? length source then index_add_loop self index source
  else Raise RuntimeError.

(** [flat.view(shape)] for the shape of a rank-two tensor. *)
Fixpoint view_like {X : Type} (shape : list (list X)) (flat : list Q)
    : list (list Q) :=
  match shape with
  | [] => []
  | r :: rs =>
      firstn (length r) flat :: view_like rs (skipn (length r) flat)
  end.

(** Python's [a / b] on numbers. *)
Definition truediv (a b : Q) : res Q :=
  if Qeq_bool b 0 then Raise ZeroDivisionError else Ok (a / b).

(** [torch.mean] of a tensor that is not empty (on an empty one torch
    answers NaN, which the model does not have). *)
Definition mean (l : list Q) : Q :=
  Qsum l / inject_Z (Z.of_nat (length l)).

(** *** Vocabulary of the properties *)

(** The mass [index_add_] brings to position [j]. *)
Definition sum_where (index : list Z) (source : list Q) (j : Z) : Q :=
  Qsum (map (fun p => if (fst p =? j)%Z then snd p else 0)
          (combine index source)).

(** [L + offset] when row [i] of the offset grid is [i * n] everywhere;
    the first row has number [s]. *)
Definition shifted_rows (n : nat) (rows : list (list Z)) (s : nat)
    : list (list Z) :=
  map2 (map2 Z.add) rows
    (map (fun i => repeat (Z.of_nat i * Z.of_nat n)%Z n)
       (seq s (length rows))).

Definition block_ok (n : nat) (a : list Z) (b : list Q) : Prop :=
  length a = n /\ length b = n
  /\ Forall (fun j => 0 <= j < Z.of_nat n)%Z a.

End torch.

(** ** dqn_rainbow.py *)

Module dqn_rainbow.

Import torch.

(** A parameter tensor is the list of its entries. *)
Definition tensor : Type := list Q.

(** An approximator ([EvolvableModule]): its ordered parameters and its
    train/eval mode.  The noise of its noisy layers is fixed while
    [_dqn_loss] and [get_action] run and is not represented. *)
Record Net : Type := {
  parameters : list tensor;
  training : bool
}.

(** [net.train(mode)] *)
Definition train (net : Net) (mode : bool) : Net :=
  {| parameters := parameters net; training := mode |}.

Record RainbowDQN : Type := {
  batch_size : Z;
  lr : Q;
  gamma : Q;
  tau : Q;
  prior_eps : Q;
  num_atoms : Z;
  v_min : Q;
  v_max : Q;
  n_step : Z;
  combined_reward : bool;
  support : list Q;
  delta_z : Q;
  actor : Net;
  actor_target : Net
}.

Definition set_actor (self : RainbowDQN) (net : Net) : RainbowDQN :=
  {| batch_size := batch_size self; lr := lr self; gamma := gamma self;
     tau := tau self; prior_eps := prior_eps self;
     num_atoms := num_atoms self; v_min := v_min self; v_max := v_max self;
     n_step := n_step self; combined_reward := combined_reward self;
     support := support self; delta_z := delta_z self;
     actor := net; actor_target := actor_target self |}.

Definition set_actor_target (self : RainbowDQN) (net : Net) : RainbowDQN :=
  {| batch_size := batch_size self; lr := lr self; gamma := gamma self;
     tau := tau self; prior_eps := prior_eps self;
     num_atoms := num_atoms self; v_min := v_min self; v_max := v_max self;
     n_step := n_step self; combined_reward := combined_reward self;
     support := support self; delta_z := delta_z self;
     actor := actor self; actor_target := net |}.

(** [RainbowDQN.__init__], lines 114-169 and 287-308: the assertions on
    the values of the hyperparameters, the support, [delta_z], the target
    network as a deep copy of the actor, both put in train mode.
    The hyperparameters arrive with the Python types the constructor
    asserts ([int] for [batch_size], [num_atoms] and [n_step], [float]
    for [lr], [tau] and [prior_eps]), which is what their types here
    say, so the [isinstance] assertions are not repeated; [actor_network]
    is the network the constructor receives or builds from [net_config],
    and the assertions on [wrap], on [net_config] and on the class of
    [actor_network] (lines 138-152 and 176-285) are taken to have
    passed.  A call that violates one of those raises [AssertionError]
    in the code and is outside this definition. *)
Definition __init__ (batch_size : Z) (lr gamma tau prior_eps : Q)
    (num_atoms : Z) (v_min v_max : Q) (n_step : Z) (combined_reward : bool)
    (actor_network : Net) : res RainbowDQN :=
  _ <- py_assert (1 <=? batch_size)%Z ;;
  _ <- py_assert (Qlt_bool 0 lr) ;;
  _ <- py_assert (Qlt_bool 0 tau) ;;
  _ <- py_assert (Qlt_bool 0 prior_eps) ;;
  _ <- py_assert (1 <=? num_atoms)%Z ;;
  _ <- py_assert (Qle_bool v_min v_max) ;;
  _ <- py_assert (1 <=? n_step)%Z ;;
  let support := linspace v_min v_max (Z.to_nat num_atoms) in
  delta_z <- truediv (v_max - v_min) (inject_Z (num_atoms - 1)) ;;
  Ok {| batch_size := batch_size; lr := lr; gamma := gamma; tau := tau;
        prior_eps := prior_eps; num_atoms := num_atoms; v_min := v_min;
        v_max := v_max; n_step := n_step;
        combined_reward := combined_reward;
        support := support; delta_z := delta_z;
        actor := train actor_network true;
        actor_target := train actor_network true |}.

(** [for eval_param, target_param in zip(...)]:
    [target_param.data.copy_(tau * eval_param.data
                             + (1.0 - tau) * target_param.data)].
    Target parameters beyond the end of the zip are left alone. *)
Fixpoint soft_update_params (tau : Q) (eval_params target_params : list tensor)
    : list tensor :=
  match eval_params, target_params with
  | eval_param :: es, target_param :: ts =>
      map2 (fun e t => tau * e + (1 - tau) * t) eval_param target_param
      :: soft_update_params tau es ts
  | _, _ => target_params
  end.

(** [RainbowDQN.soft_update] *)
Definition soft_update (self : RainbowDQN) : RainbowDQN :=
  set_actor_target self
    {| parameters :=
         soft_update_params (tau self) (parameters (actor self))
           (parameters (actor_target self));
       training := training (actor_target self) |}.

(** *** Vocabulary of the properties: agents *)

Definition strictly_increasing (l : list Q) : Prop :=
  forall i j x y,
    nth_error l i = Some x -> nth_error l j = Some y -> (i < j)%nat -> x < y.

Definition same_shapes (a b : list tensor) : Prop :=
  Forall2 (fun p q => length p = length q) a b.

(** The hyperparameters as a successful constructor leaves them, with a
    support of positive width. *)
Definition well_formed (self : RainbowDQN) : Prop :=
  (1 <= batch_size self)%Z
  /\ (2 <= num_atoms self)%Z
  /\ v_min self < v_max self
  /\ support self
     = linspace (v_min self) (v_max self) (Z.to_nat (num_atoms self))
  /\ delta_z self
     == (v_max self - v_min self) / inject_Z (num_atoms self - 1).

(** An actor of two parameter tensors, and the constructor called with
    its default hyperparameters but for the support. *)
Definition example_net : Net :=
  {| parameters := [[1; 2]; [3]]; training := false |}.

Definition default_agent (num_atoms : Z) (v_min v_max : Q) : res RainbowDQN :=
  __init__ 64 (1 # 10000) (99 # 100) (1 # 1000) (1 # 1000000) num_atoms
    v_min v_max 3 false example_net.

Section Approximator.

(** Observations, and the approximator's three kinds of output for one
    observation (rows of a batch are evaluated independently):
    - [forward_q net s]: the expected value of every action, [net(s)];
    - [forward_dist net s]: the categorical distribution of every
      action, [net(s, q=False)];
    - [forward_log_dist net s]: its logarithm,
      [net(s, q=False, log=True)]. *)
Variable State : Type.
Variable forward_q : Net -> State -> list Q.
Variable forward_dist : Net -> State -> list (list Q).
Variable forward_log_dist : Net -> State -> list (list Q).
(** [RLAlgorithm.preprocess_observation], per observation. *)
Variable preprocess_observation : State -> State.

(** One row of a batch of experiences.  The five tensors of a batch are
    aligned row by row; a batch is the list of its rows and
    [states], [actions], ... are its columns. *)
Record Transition : Type := {
  state : State;
  action : nat;
  reward : Q;
  next_state : State;
  done : Q
}.

(** [RainbowDQN.get_action] on a batch of observations; [action_mask],
    when given, is an array of 0/1 entries.  The result is what the call
    returns or raises, with the agent as the call leaves it: an
    exception ([MaskError] from [np.ma.array]) leaves the method after
    [self.actor.train(mode=training)] and before [self.actor.train()].
    The actor gives every observation at least one action value (see
    [argmax] for a row without entries). *)
Definition get_action (self : RainbowDQN) (state : list State)
    (action_mask : option (list (list Z))) (training : bool)
    : res (list nat) * RainbowDQN :=
  let state := map preprocess_observation state in
  let self := set_actor self (train (actor self) training) in
  let action_values := map (forward_q (actor self)) state in
  let action :=
    match action_mask with
    | None => Ok (map argmax action_values)
    | Some action_mask =>
        let inv_mask := map (map (fun m => 1 - m)%Z) action_mask in
        mask <- ma_mask action_values inv_mask ;;
        Ok (map2 masked_argmax action_values mask)
    end in
  match action with
  | Ok action => (Ok action, set_actor self (train (actor self) true))
  | Raise e => (Raise e, self)
  end.

(** *** [_dqn_loss], stage by stage *)

(** [next_actions = self.actor(next_states).argmax(1)] *)
Definition next_actions (self : RainbowDQN) (batch : list Transition)
    : list nat :=
  map (fun tr =>
         argmax (forward_q (actor self)
                   (preprocess_observation (next_state tr))))
      batch.

(** [target_q_dist = self.actor_target(next_states, q=False)], then
    [target_q_dist[range(self.batch_size), next_actions]]. *)
Definition target_q_dist (self : RainbowDQN) (batch : list Transition)
    : res (list (list Q)) :=
  let target_q_dist :=
    map (fun tr =>
           forward_dist (actor_target self)
             (preprocess_observation (next_state tr)))
        batch in
  adv_index target_q_dist (seq 0 (Z.to_nat (batch_size self)))
    (next_actions self batch).

(** [t_z = rewards + (1 - dones) * gamma * self.support], clamped. *)
Definition t_z (self : RainbowDQN) (batch : list Transition) (gamma : Q)
    : list (list Q) :=
  map (fun tr =>
         map (fun z =>
                clamp (reward tr + (1 - done tr) * gamma * z)
                  (v_min self) (v_max self))
             (support self))
      batch.

(** [b = (t_z - self.v_min) / self.delta_z] *)
Definition bin (self : RainbowDQN) (t : Q) : Q :=
  (t - v_min self) / delta_z self.

(** The neighbouring indices of [b] after the two in-place corrections.
    Both masks are elementwise, so the corrections are per entry:
    [L[(u > 0) * (L == u)] -= 1], then, with the corrected [L],
    [u[(L < (self.num_atoms - 1)) * (L == u)] += 1]. *)
Definition lower (b : Q) : Z :=
  let L := Qfloor b in
  let u := Qceiling b in
  if ((0 <? u) && (L =? u))%Z then (L - 1)%Z else L.

Definition upper (self : RainbowDQN) (b : Q) : Z :=
  let L := lower b in
  let u := Qceiling b in
  if ((L <? num_atoms self - 1) && (L =? u))%Z then (u + 1)%Z else u.

(** [torch.linspace(0, (batch_size - 1) * num_atoms, batch_size).long()
      .unsqueeze(1).expand(batch_size, num_atoms)] *)
Definition offset (self : RainbowDQN) : list (list Z) :=
  map (fun o => repeat (long o) (Z.to_nat (num_atoms self)))
      (linspace 0 (inject_Z ((batch_size self - 1) * num_atoms self))
         (Z.to_nat (batch_size self))).

(** Lines 349-395: the projected distribution. *)
Definition proj_dist (self : RainbowDQN) (batch : list Transition)
    (gamma : Q) : res (list (list Q)) :=
  target_q_dist <- target_q_dist self batch ;;
  let b := map (map (bin self)) (t_z self batch gamma) in
  let L := map (map lower) b in
  let u := map (map (upper self)) b in
  let offset := offset self in
  let proj_dist := repeat 0 (length (concat target_q_dist)) in
  L_offset <- add_broadcast L offset ;;
  proj_dist <-
    index_add_ proj_dist (concat L_offset)
      (concat
         (map2 (map2 Qmult) target_q_dist
            (map (map (fun b => inject_Z (upper self b) - b)) b))) ;;
  u_offset <- add_broadcast u offset ;;
  proj_dist <-
    index_add_ proj_dist (concat u_offset)
      (concat
         (map2 (map2 Qmult) target_q_dist
            (map (map (fun b => b - inject_Z (lower b))) b))) ;;
  Ok (view_like target_q_dist proj_dist).

(** [RainbowDQN._dqn_loss] *)
Definition _dqn_loss (self : RainbowDQN) (batch : list Transition)
    (gamma : Q) : res (list Q) :=
  proj_dist <- proj_dist self batch gamma ;;
  let log_q_dist :=
    map (fun tr =>
           forward_log_dist (actor self)
             (preprocess_observation (state tr)))
        batch in
  log_p <-
    adv_index log_q_dist (seq 0 (Z.to_nat (batch_size self)))
      (map action batch) ;;
  Ok (map (fun row => - Qsum row) (map2 (map2 Qmult) proj_dist log_p)).

(** *** [learn] *)

(** The tuple [experiences], by the number of its components. *)
Inductive Experiences : Type :=
| Exp5 (one_step : list Transition)
| Exp7 (one_step : list Transition) (weights : list Q) (idxs : list Z)
| Exp11 (one_step : list Transition) (idxs : list Z)
    (n_step_batch : list Transition)
| Exp12 (one_step : list Transition) (weights : list Q) (idxs : list Z)
    (n_step_batch : list Transition).

(** [elementwise_loss += n_step_elementwise_loss] *)
Definition iadd (a b : list Q) : res (list Q) :=
  if length a =? length b then Ok (map2 Qplus a b)
  else
    match b with
    | [y] => Ok (map (fun x => x + y) a)
    | _ => Raise RuntimeError
    end.

(** Lines 460-472 and 518-531 (the same text in both branches of
    [if per]): [n_step_batch] is present exactly when [n_step] is
    true. *)
Definition elementwise_loss (self : RainbowDQN)
    (one_step : list Transition) (n_step_batch : option (list Transition))
    : res (list Q) :=
  match n_step_batch with
  | None => _dqn_loss self one_step (gamma self)
  | Some n_batch =>
      let n_gamma := gamma self ^ n_step self in
      if combined_reward self then
        elementwise_loss <- _dqn_loss self one_step (gamma self) ;;
        n_step_elementwise_loss <- _dqn_loss self n_batch n_gamma ;;
        iadd elementwise_loss n_step_elementwise_loss
      else _dqn_loss self n_batch n_gamma
  end.

(** [RainbowDQN.learn]: the values it returns,
    [(loss.item(), idxs, new_priorities)].  Unpacking a tuple of the
    wrong length raises [ValueError]; [weights] has one entry per
    transition.  The gradient step, [soft_update] and [reset_noise] that
    follow the loss change the networks and not the returned values. *)
Definition learn (self : RainbowDQN) (experiences : Experiences)
    (n_step per : bool)
    : res (Q * option (list Z) * option (list Q)) :=
  match per, n_step, experiences with
  | true, true, Exp12 one_step weights idxs n_batch =>
      l <- elementwise_loss self one_step (Some n_batch) ;;
      Ok (mean (map2 Qmult l weights), Some idxs,
          Some (map (fun x => x + prior_eps self) l))
  | true, false, Exp7 one_step weights idxs =>
      l <- elementwise_loss self one_step None ;;
      Ok (mean (map2 Qmult l weights), Some idxs,
          Some (map (fun x => x + prior_eps self) l))
  | false, true, Exp11 one_step idxs n_batch =>
      l <- elementwise_loss self one_step (Some n_batch) ;;
      Ok (mean l, Some idxs, None)
  | false, false, Exp5 one_step =>
      l <- elementwise_loss self one_step None ;;
      Ok (mean l, None, None)
  | _, _, _ => Raise ValueError
  end.

(** *** Vocabulary of the properties: the loss *)

(** The approximator contract of the specification (section 6) for the
    networks of an agent: [n_act] actions; one categorical distribution
    over the atoms per action, of total mass 1; one row of
    log-probabilities per action. *)
Definition approximator_contract (self : RainbowDQN) (n_act : nat) : Prop :=
  (1 <= n_act)%nat
  /\ forall s : State,
       length (forward_q (actor self) s) = n_act
       /\ length (forward_dist (actor_target self) s) = n_act
       /\ Forall (fun d => length d = Z.to_nat (num_atoms self)
                           /\ Qsum d == 1)
            (forward_dist (actor_target self) s)
       /\ length (forward_log_dist (actor self) s) = n_act
       /\ Forall (fun d => length d = Z.to_nat (num_atoms self))
            (forward_log_dist (actor self) s).

(** The next action the online network prefers. *)
Definition online_choice (self : RainbowDQN) (tr : Transition) : nat :=
  argmax (forward_q (actor self) (preprocess_observation (next_state tr))).

(** The next action the target network would prefer itself. *)
Definition target_choice (self : RainbowDQN) (tr : Transition) : nat :=
  argmax (forward_q (actor_target self)
            (preprocess_observation (next_state tr))).

(** The target network's distribution for the online network's choice. *)
Definition selected_dist (self : RainbowDQN) (tr : Transition)
    : list Q :=
  nth (online_choice self tr)
    (forward_dist (actor_target self)
       (preprocess_observation (next_state tr))) [].

(** The online network's log-probabilities for the action taken. *)
Definition selected_log_p (self : RainbowDQN) (tr : Transition)
    : list Q :=
  nth (action tr)
    (forward_log_dist (actor self) (preprocess_observation (state tr))) [].

(** The continuous bin index of every atom for one transition. *)
Definition atom_bins (self : RainbowDQN) (gamma_ : Q) (tr : Transition)
    : list Q :=
  map (fun z =>
         bin self
           (clamp (reward tr + (1 - done tr) * gamma_ * z)
              (v_min self) (v_max self)))
      (support self).

(** Following the words of the specification (4.3, step 6): each source
    mass [dist[k]] goes to the atoms [L] and [U] of its bin [b], in
    proportion [U - b] to [L] and [b - L] to [U], accumulated into a row
    that starts at zero.  Entry [m] of the projected row: *)
Definition spec_proj_row (self : RainbowDQN) (dist bs : list Q) : list Q :=
  map (fun m =>
         sum_where (map lower bs)
           (map2 Qmult dist (map (fun b => inject_Z (upper self b) - b) bs))
           (Z.of_nat m)
         + sum_where (map (upper self) bs)
             (map2 Qmult dist (map (fun b => b - inject_Z (lower b)) bs))
             (Z.of_nat m))
      (seq 0 (Z.to_nat (num_atoms self))).

(** Following the specification (4.3, steps 7 and 8): the cross-entropy
    of one transition. *)
Definition spec_loss_row (self : RainbowDQN) (gamma_ : Q)
    (tr : Transition) : Q :=
  - Qsum (map2 Qmult
            (spec_proj_row self (selected_dist self tr)
               (atom_bins self gamma_ tr))
            (selected_log_p self tr)).

End Approximator.

Fixpoint Qeq_list_bool (a b : list Q) : bool :=
  match a, b with
  | [], [] => true
  | x :: a', y :: b' => Qeq_bool x y && Qeq_list_bool a' b'
  | _, _ => false
  end.

(** *** The projection scenario of the specification *)

(** One action; the target network answers with all the mass on the
    atom of index 25. *)
Definition scenario_q (net : Net) (s : unit) : list Q := [0].

Definition scenario_dist (net : Net) (s : unit) : list (list Q) :=
  [map (fun k => if (k =? 25)%nat then 1 else 0) (seq 0 51)].

Definition scenario_agent : res RainbowDQN :=
  __init__ 1 (1 # 10000) (99 # 100) (1 # 1000) (1 # 1000000) 51 (-10) 10 3
    false example_net.

Definition scenario_batch : list (Transition unit) :=
  [{| state := tt; action := 0; reward := 1; next_state := tt; done := 0 |}].

(** *** A small agent: three atoms on [-1, 1], two actions *)

(** The expected values are read off the first parameter tensor; the
    distributions depend on the observation (a number). *)
Definition toy_q (net : Net) (s : nat) : list Q := nth 0 (parameters net) [].

Definition toy_dist (net : Net) (s : nat) : list (list Q) :=
  match s with
  | O => [[1 # 2; 1 # 4; 1 # 4]; [1 # 4; 1 # 4; 1 # 2]]
  | S _ => [[1; 0; 0]; [0; 1 # 3; 2 # 3]]
  end.

Definition toy_log_dist (net : Net) (s : nat) : list (list Q) :=
  match s with
  | O => [[-1; -2; -2]; [-2; -2; -1]]
  | S _ => [[-3; -1; -1]; [-1; -1; -3]]
  end.

(** The online network prefers action 1, the target network action 0. *)
Definition toy_online : Net :=
  {| parameters := [[0; 1]]; training := true |}.

Definition toy_target : Net :=
  {| parameters := [[1; 0]]; training := true |}.

Definition toy_agent (batch_size : Z) (tau : Q) (combined_reward : bool)
    : RainbowDQN :=
  {| batch_size := batch_size; lr := 1 # 10000; gamma := 99 # 100;
     tau := tau; prior_eps := 1 # 1000000; num_atoms := 3;
     v_min := - (1); v_max := 1; n_step := 3;
     combined_reward := combined_reward;
     support := linspace (- (1)) 1 3;
     delta_z := (1 - - (1)) / inject_Z (3 - 1);
     actor := toy_online; actor_target := toy_target |}.

(** A fractional bin, then bins that land exactly on an atom: an interior
    one ([t_z = 0]), the first ([t_z] clamped to [v_min]) and the last
    ([t_z] clamped to [v_max]). *)
Definition tr_fraction : Transition nat :=
  {| state := 0%nat; action := 0%nat; reward := 1 # 2; next_state := 1%nat;
     done := 0 |}.

Definition tr_interior : Transition nat :=
  {| state := 1%nat; action := 1%nat; reward := 0; next_state := 0%nat;
     done := 1 |}.

Definition tr_first : Transition nat :=
  {| state := 0%nat; action := 1%nat; reward := - (5); next_state := 1%nat;
     done := 1 |}.

Definition tr_last : Transition nat :=
  {| state := 1%nat; action := 0%nat; reward := 5; next_state := 0%nat;
     done := 1 |}.

End dqn_rainbow.

(** * Properties *)

(** ** Generic facts on lists and results *)

Lemma bind_ok (A B : Type) (a : A) (k : A -> res B) : bind (Ok a) k = k a.
Proof. reflexivity. Qed.

Lemma lastn_app_lastn (A : Type) (m : nat) (l r : list A) :
  lastn m (lastn m l ++ r) = lastn m (l ++ r).
Proof.
  unfold lastn.
  destruct (Nat.le_gt_cases (length l) m) as [Hle | Hgt].
  - replace (length l - m)%nat with 0%nat by lia. reflexivity.
  - rewrite !length_app, length_skipn.
    replace (length l - (length l - m) + length r - m)%nat
      with (length r) by lia.
    replace (length l + length r - m)%nat
      with (length r + (length l - m))%nat by lia.
    rewrite <- skipn_skipn. f_equal.
    rewrite skipn_app.
    replace (length l - m - length l)%nat with 0%nat by lia.
    reflexivity.
Qed.

Lemma lastn_length (A : Type) (m : nat) (l : list A) :
  (length (lastn m l) <= m)%nat.
Proof. unfold lastn. rewrite length_skipn. lia. Qed.

Lemma lastn_all (A : Type) (m : nat) (l : list A) :
  (length l <= m)%nat -> lastn m l = l.
Proof.
  intros H. unfold lastn.
  replace (length l - m)%nat with 0%nat by lia. reflexivity.
Qed.

Lemma lastn_cons_full (A : Type) (x : A) (l : list A) :
  lastn (length l) (x :: l) = l.
Proof.
  unfold lastn. simpl length.
  replace (S (length l) - length l)%nat with 1%nat by lia. reflexivity.
Qed.

(** ** The replay memory *)

Module replay_buffer_facts.

Import replay_buffer.

Section Facts.

Variables State Action : Type.

Local Abbreviation Experience := (Experience State Action).
Local Abbreviation ReplayBuffer := (ReplayBuffer State Action).
Local Abbreviation push := (@replay_buffer.push State Action).

(** *** Insertion *)

Lemma deque_append_lastn (m : nat) (d : list Experience) (x : Experience) :
  (length d <= m)%nat ->
  deque_append m d x = lastn m (d ++ [x]).
Proof.
  intros Hd. unfold deque_append, lastn. cbv zeta.
  rewrite length_app. simpl length.
  destruct (Nat.ltb_spec m (length d + 1)) as [Hlt | Hge].
  - replace (length d + 1 - m)%nat with 1%nat by lia.
    destruct (d ++ [x]); reflexivity.
  - replace (length d + 1 - m)%nat with 0%nat by lia. reflexivity.
Qed.

Lemma push_all_memory (es : list Experience) (self : ReplayBuffer) :
  (length (memory self) <= maxlen self)%nat ->
  maxlen (fold_left push es self) = maxlen self
  /\ memory (fold_left push es self)
     = lastn (maxlen self) (memory self ++ es)
  /\ counter (fold_left push es self) = (counter self + length es)%nat.
Proof.
  revert self. induction es as [| e es IH]; intros self Hlen.
  - simpl. rewrite app_nil_r, Nat.add_0_r.
    now rewrite (lastn_all _ Hlen).
  - simpl fold_left.
    assert (Hm : memory (push self e)
                 = lastn (maxlen self) (memory self ++ [e])).
    { unfold push, save2memorySingleEnv, _add. simpl.
      destruct e; simpl. now apply deque_append_lastn. }
    assert (Hx : maxlen (push self e) = maxlen self) by reflexivity.
    assert (Hc : counter (push self e) = (counter self + 1)%nat)
      by reflexivity.
    destruct (IH (push self e)) as (IHm & IHc & IHn).
    { rewrite Hm, Hx. apply lastn_length. }
    rewrite IHm, IHc, IHn, Hm, Hx, Hc. repeat split.
    + rewrite lastn_app_lastn, <- app_assoc. reflexivity.
    + simpl. lia.
Qed.

Lemma step_push (self : ReplayBuffer) (c : call State Action) :
  step self c = fold_left push (inserted_by c) self.
Proof.
  destruct c; simpl; try reflexivity.
Qed.

Lemma run_push (cs : list (call State Action)) (self : ReplayBuffer) :
  run self cs = fold_left push (inserted cs) self.
Proof.
  revert self. induction cs as [| c cs IH]; intros self.
  - reflexivity.
  - unfold run, inserted in *. simpl.
    rewrite fold_left_app, <- step_push. apply IH.
Qed.

Lemma run_memory (cs : list (call State Action)) (self : ReplayBuffer) :
  (length (memory self) <= maxlen self)%nat ->
  maxlen (run self cs) = maxlen self
  /\ memory (run self cs)
     = lastn (maxlen self) (memory self ++ inserted cs).
Proof.
  intros H. rewrite run_push.
  destruct (push_all_memory (inserted cs) self H) as (A & B & _).
  now split.
Qed.

(** *** Sampling *)

Lemma pop_nth_some (X : Type) (l : list X) (j : nat) :
  (j < length l)%nat ->
  exists x r, pop_nth j l = Some (x, r) /\ Permutation l (x :: r).
Proof.
  revert j. induction l as [| y t IH]; intros j Hj; simpl in Hj.
  - lia.
  - destruct j as [| j'].
    + exists y, t. split; [reflexivity | apply Permutation_refl].
    + destruct (IH j') as (x & r & Hp & Hperm); [lia |].
      exists x, (y :: r). simpl. rewrite Hp. split; [reflexivity |].
      eapply Permutation_trans.
      * apply perm_skip. exact Hperm.
      * apply perm_swap.
Qed.

Lemma pop_nth_map (X Y : Type) (f : X -> Y) (l : list X) (j : nat) :
  pop_nth j (map f l)
  = option_map (fun p => (f (fst p), map f (snd p))) (pop_nth j l).
Proof.
  revert j. induction l as [| y t IH]; intros j.
  - reflexivity.
  - destruct j as [| j']; simpl.
    + reflexivity.
    + rewrite IH. destruct (pop_nth j' t) as [[x r] |]; reflexivity.
Qed.

Lemma draw_map (X Y : Type) (f : X -> Y) (rnd : nat -> nat) (k i : nat)
    (pool : list X) :
  draw rnd i (map f pool) k = map f (draw rnd i pool k).
Proof.
  revert i pool. induction k as [| k IH]; intros i pool.
  - reflexivity.
  - simpl. rewrite length_map, pop_nth_map.
    destruct (pop_nth (rnd i mod length pool) pool) as [[x r] |]; simpl.
    + now rewrite IH.
    + reflexivity.
Qed.

Lemma draw_spec (X : Type) (rnd : nat -> nat) (k i : nat) (pool : list X) :
  NoDup pool -> (k <= length pool)%nat ->
  length (draw rnd i pool k) = k
  /\ NoDup (draw rnd i pool k)
  /\ incl (draw rnd i pool k) pool.
Proof.
  revert i pool. induction k as [| k IH]; intros i pool Hnd Hk.
  - simpl. repeat split; [constructor | intros x []].
  - simpl.
    destruct (pop_nth_some pool (j := rnd i mod length pool))
      as (x & r & Hp & Hperm).
    { apply Nat.mod_upper_bound. lia. }
    rewrite Hp.
    pose proof (Permutation_NoDup Hperm Hnd) as Hnd'.
    inversion Hnd' as [| ? ? Hx Hr]; subst.
    pose proof (Permutation_length Hperm) as Hlen. simpl in Hlen.
    destruct (IH (S i) r Hr) as (Hl & Hd & Hi); [lia |].
    repeat split.
    + simpl. now rewrite Hl.
    + constructor; [| exact Hd]. intros Hin. apply Hx. now apply Hi.
    + intros y [Hy | Hy].
      * subst y. apply (Permutation_in _ (Permutation_sym Hperm)).
        now left.
      * apply (Permutation_in _ (Permutation_sym Hperm)).
        right. now apply Hi.
Qed.

Lemma indexed_snd (X : Type) (l : list X) : map snd (indexed l) = l.
Proof.
  unfold indexed. generalize 0%nat.
  induction l as [| x t IH]; intros n; simpl; [reflexivity |].
  now rewrite IH.
Qed.

Lemma indexed_fst (X : Type) (l : list X) :
  map fst (indexed l) = seq 0 (length l).
Proof.
  unfold indexed. generalize 0%nat.
  induction l as [| x t IH]; intros n; simpl; [reflexivity |].
  now rewrite IH.
Qed.


Lemma indexed_NoDup (X : Type) (l : list X) : NoDup (map fst (indexed l)).
Proof. rewrite indexed_fst. apply seq_NoDup. Qed.


Lemma sample_unfold (rnd : nat -> nat) (self : ReplayBuffer) (k : Z) :
  sample rnd self k
  = (experiences <- random_sample rnd (memory self) k ;;
     match experiences with
     | [] => Raise ValueError
     | _ => Ok (columns experiences)
     end).
Proof.
  unfold sample.
  destruct (random_sample rnd (memory self) k) as [es | e]; simpl;
    [| reflexivity].
  destruct es; reflexivity.
Qed.

(** C4 (FIFO law of the replay memory).  For a buffer built with capacity
    [memory_size] and any sequence of calls on it: its size never exceeds
    [memory_size]; its contents are the last [memory_size] experiences
    inserted, in insertion order; so after [memory_size + 1] insertions
    the oldest one is gone and the [memory_size] most recent remain. *)
Theorem fifo_law (action_dim memory_size : Z) (rb : ReplayBuffer)
    (cs : list (call State Action)) :
  __init__ action_dim memory_size = Ok rb ->
  (Z.of_nat (__len__ (run rb cs)) <= memory_size)%Z
  /\ memory (run rb cs) = lastn (Z.to_nat memory_size) (inserted cs)
  /\ (forall oldest recent,
        inserted cs = oldest :: recent ->
        Z.of_nat (length recent) = memory_size ->
        memory (run rb cs) = recent).
Proof.
  unfold __init__.
  destruct (Z.ltb_spec memory_size 0) as [Hneg | Hpos]; [discriminate |].
  intros Hrb. injection Hrb as <-.
  match goal with |- context [run ?b cs] => set (rb := b) end.
  destruct (@run_memory cs rb) as (Hmax & Hmem); [simpl; lia |].
  simpl in Hmax, Hmem.
  assert (Hlast : memory (run rb cs)
                  = lastn (Z.to_nat memory_size) (inserted cs)) by exact Hmem.
  repeat split.
  - unfold __len__. rewrite Hlast.
    pose proof (lastn_length (Z.to_nat memory_size) (inserted cs)). lia.
  - exact Hlast.
  - intros oldest recent Hins Hlen. rewrite Hlast, Hins.
    replace (Z.to_nat memory_size) with (length recent) by lia.
    apply lastn_cons_full.
Qed.

Lemma draw_length (X : Type) (rnd : nat -> nat) (k : nat) (pool : list X) :
  (k <= length pool)%nat -> length (draw rnd 0 pool k) = k.
Proof.
  intros Hk.
  destruct (@draw_spec _ rnd k 0%nat (indexed pool)) as (Hl & _ & _).
  { eapply NoDup_map_inv. apply indexed_NoDup. }
  { rewrite <- (length_map snd), indexed_snd. lia. }
  rewrite <- (indexed_snd pool) at 1.
  now rewrite draw_map, length_map.
Qed.



End Facts.

(** *** The scenario of the specification: capacity 3, insertions tagged
    A, B, C, D *)

Lemma fifo_law_ABCD :
  exists rb : ReplayBuffer tag nat,
    __init__ 1 3 = Ok rb
    /\ memory (run rb (map insert_tagged [tag_A; tag_B; tag_C; tag_D]))
       = map tagged [tag_B; tag_C; tag_D].
Proof.
  eexists. split; [reflexivity |].
  eapply (proj2 (proj2 (@fifo_law tag nat 1 3 _
                          (map insert_tagged [tag_A; tag_B; tag_C; tag_D])
                          eq_refl)));
    reflexivity.
Defined.

Lemma buffer_ABC_reached :
  exists rb : ReplayBuffer tag nat,
    __init__ 1 3 = Ok rb
    /\ run rb (map insert_tagged [tag_A; tag_B; tag_C]) = buffer_ABC.
Proof. eexists. split; reflexivity. Qed.


(** A request for more experiences than the buffer holds. *)
Lemma sample_example :
  sample (fun i => i) buffer_ABC 4 = Raise ValueError.
Proof. reflexivity. Qed.


End replay_buffer_facts.

(** ** Sums, scatter-add and views *)

Module torch_facts.

Import torch.

Lemma Qsum_Forall2 (a b : list Q) : Forall2 Qeq a b -> Qsum a == Qsum b.
Proof.
  induction 1 as [| x y a b Hxy _ IH]; simpl.
  - reflexivity.
  - now rewrite Hxy, IH.
Qed.

Lemma Qsum_map_ext (X : Type) (f g : X -> Q) (l : list X) :
  (forall x, In x l -> f x == g x) ->
  Qsum (map f l) == Qsum (map g l).
Proof.
  induction l as [| x l IH]; intros H; simpl.
  - reflexivity.
  - rewrite (H x) by now left. rewrite IH; [reflexivity |].
    intros y Hy. apply H. now right.
Qed.

Lemma Qsum_map_zero (X : Type) (f : X -> Q) (l : list X) :
  (forall x, In x l -> f x == 0) -> Qsum (map f l) == 0.
Proof.
  induction l as [| x l IH]; intros H; simpl.
  - reflexivity.
  - rewrite (H x) by now left. rewrite IH; [ring |].
    intros y Hy. apply H. now right.
Qed.

Lemma Qsum_map_plus (X : Type) (f g : X -> Q) (l : list X) :
  Qsum (map (fun x => f x + g x) l) == Qsum (map f l) + Qsum (map g l).
Proof.
  induction l as [| x l IH]; simpl.
  - ring.
  - rewrite IH. ring.
Qed.

(** A sum with a single non-zero term. *)
Lemma Qsum_map_single (f : nat -> Q) (l : list nat) (i0 : nat) :
  NoDup l -> In i0 l ->
  (forall i, In i l -> i <> i0 -> f i == 0) ->
  Qsum (map f l) == f i0.
Proof.
  induction l as [| i l IH]; intros Hnd Hin Hz; simpl.
  - contradiction.
  - inversion Hnd as [| ? ? Hi Hl]; subst.
    destruct Hin as [-> | Hin].
    + rewrite Qsum_map_zero; [ring |].
      intros j Hj. apply Hz; [now right |].
      intros ->. contradiction.
    + rewrite (Hz i); [| now left | intros ->; contradiction].
      rewrite IH; [ring | assumption | assumption |].
      intros j Hj Hne. apply Hz; [now right | assumption].
Qed.

Lemma sum_placescons (i : Z) (index : list Z) (x : Q) (source : list Q)
    (j : Z) :
  sum_where (i :: index) (x :: source) j
  = (if (i =? j)%Z then x else 0) + sum_where index source j.
Proof. reflexivity. Qed.

Lemma sum_placesapp (i1 i2 : list Z) (s1 s2 : list Q) (j : Z) :
  length i1 = length s1 ->
  sum_where (i1 ++ i2) (s1 ++ s2) j
  == sum_where i1 s1 j + sum_where i2 s2 j.
Proof.
  revert s1. induction i1 as [| i i1 IH]; intros [| x s1] Hlen;
    simpl in Hlen; try discriminate.
  - unfold sum_where at 2. simpl. ring.
  - simpl app. rewrite !sum_placescons, IH by lia. ring.
Qed.

Lemma sum_placesmiss (index : list Z) (source : list Q) (j : Z) :
  (forall i, In i index -> i <> j) -> sum_where index source j == 0.
Proof.
  intros H. unfold sum_where. apply Qsum_map_zero.
  intros [i x] Hin. simpl.
  destruct (Z.eqb_spec i j) as [-> |]; [| reflexivity].
  exfalso. apply (H j); [| reflexivity].
  eapply in_combine_l. exact Hin.
Qed.

Lemma sum_placesshift (index : list Z) (source : list Q) (o j : Z) :
  sum_where (map (fun i => i + o)%Z index) source (j + o)
  = sum_where index source j.
Proof.
  unfold sum_where. revert source.
  induction index as [| i index IH]; intros [| x source]; simpl;
    try reflexivity.
  rewrite IH.
  replace (i + o =? j + o)%Z with (i =? j)%Z; [reflexivity |].
  destruct (Z.eqb_spec i j), (Z.eqb_spec (i + o) (j + o)); lia || reflexivity.
Qed.

(** Summed over all destinations, the scattered mass is the source mass. *)
Lemma sum_placestotal (index : list Z) (source : list Q) (n : nat) :
  length index = length source ->
  Forall (fun i => 0 <= i < Z.of_nat n)%Z index ->
  Qsum (map (fun m => sum_where index source (Z.of_nat m)) (seq 0 n))
  == Qsum source.
Proof.
  revert source. induction index as [| i index IH];
    intros [| x source] Hlen Hall; simpl in Hlen; try discriminate.
  - apply Qsum_map_zero. reflexivity.
  - inversion Hall as [| ? ? Hi Hrest]; subst.
    transitivity
      (Qsum (map (fun m => if (i =? Z.of_nat m)%Z then x else 0) (seq 0 n))
       + Qsum (map (fun m => sum_where index source (Z.of_nat m)) (seq 0 n))).
    { rewrite <- Qsum_map_plus. apply Qsum_map_ext. intros m _.
      rewrite sum_placescons. reflexivity. }
    rewrite IH by (assumption || lia). simpl.
    apply Qplus_inj_r.
    rewrite (@Qsum_map_single _ _ (Z.to_nat i)).
    + replace (i =? Z.of_nat (Z.to_nat i))%Z with true; [reflexivity |].
      symmetry. apply Z.eqb_eq. lia.
    + apply seq_NoDup.
    + apply in_seq. lia.
    + intros m _ Hne.
      destruct (Z.eqb_spec i (Z.of_nat m)); [| reflexivity].
      exfalso. apply Hne. lia.
Qed.

Lemma add_at_length (l : list Q) (n : nat) (x : Q) :
  length (add_at l n x) = length l.
Proof.
  revert n. induction l as [| y l IH]; intros [| n]; simpl; auto.
Qed.

Lemma add_at_nth (l : list Q) (n : nat) (x : Q) (j : nat) :
  (n < length l)%nat ->
  nth j (add_at l n x) 0
  == nth j l 0 + (if (Z.of_nat n =? Z.of_nat j)%Z then x else 0).
Proof.
  revert n j. induction l as [| y l IH]; intros n j Hn; simpl in Hn.
  - lia.
  - destruct n as [| n]; destruct j as [| j]; simpl nth.
    + simpl. reflexivity.
    + replace (Z.of_nat 0 =? Z.of_nat (S j))%Z with false; [ring |].
      symmetry. apply Z.eqb_neq. lia.
    + replace (Z.of_nat (S n) =? Z.of_nat 0)%Z with false; [ring |].
      symmetry. apply Z.eqb_neq. lia.
    + rewrite IH by lia.
      replace (Z.of_nat (S n) =? Z.of_nat (S j))%Z
        with (Z.of_nat n =? Z.of_nat j)%Z; [reflexivity |].
      destruct (Z.eqb_spec (Z.of_nat n) (Z.of_nat j)),
               (Z.eqb_spec (Z.of_nat (S n)) (Z.of_nat (S j)));
        lia || reflexivity.
Qed.

(** [index_add_] with every index in range succeeds, and adds to each
    position the mass sent there. *)
Lemma index_add_loop_spec (index : list Z) (source self : list Q) :
  Forall (fun i => 0 <= i < Z.of_nat (length self))%Z index ->
  exists out,
    index_add_loop self index source = Ok out
    /\ length out = length self
    /\ forall n, nth n out 0
                 == nth n self 0 + sum_where index source (Z.of_nat n).
Proof.
  revert source self. induction index as [| i index IH];
    intros source self Hall.
  - exists self. repeat split. intros n. unfold sum_where. simpl. ring.
  - destruct source as [| x source].
    + exists self. repeat split. intros n. unfold sum_where. simpl. ring.
    + inversion Hall as [| ? ? Hi Hrest]; subst. simpl.
      replace ((0 <=? i) && (i <? Z.of_nat (length self)))%Z with true
        by (symmetry; apply andb_true_iff; split; lia).
      destruct (IH source (add_at self (Z.to_nat i) x)) as (out & Ho & Hl & Hn).
      { rewrite add_at_length. exact Hrest. }
      exists out. split; [exact Ho |]. split.
      { now rewrite Hl, add_at_length. }
      intros n. rewrite Hn, add_at_nth by lia.
      rewrite sum_placescons, Z2Nat.id by lia. ring.
Qed.

Lemma index_add_spec (index : list Z) (source self : list Q) :
  length index = length source ->
  Forall (fun i => 0 <= i < Z.of_nat (length self))%Z index ->
  exists out,
    index_add_ self index source = Ok out
    /\ length out = length self
    /\ forall n, nth n out 0
                 == nth n self 0 + sum_where index source (Z.of_nat n).
Proof.
  intros Hlen Hall. unfold index_add_.
  rewrite Hlen, Nat.eqb_refl. now apply index_add_loop_spec.
Qed.

(** *** [argmax] *)

Lemma argmax_from_bound (X : Type) (ltb : X -> X -> bool) (l : list X)
    (best_i : nat) (best : X) (i : nat) :
  (best_i < i)%nat ->
  (argmax_from ltb best_i best i l < i + length l)%nat.
Proof.
  revert best_i best i. induction l as [| x l IH]; intros best_i best i Hi;
    simpl.
  - lia.
  - destruct (ltb best x).
    + specialize (IH i x (S i)). lia.
    + specialize (IH best_i best (S i)). lia.
Qed.

Lemma argmax_bound (l : list Q) :
  l <> [] -> (argmax l < length l)%nat.
Proof.
  destruct l as [| x l]; [congruence |]. intros _.
  unfold argmax, argmax_by.
  pose proof (@argmax_from_bound _ Qlt_bool l 0%nat x 1%nat). simpl. lia.
Qed.

(** *** Advanced indexing *)

Lemma mapM_getitem2_rows (X Y : Type) (f : X -> list Y) (g : X -> nat)
    (d : Y) (l : list X) (pre : list (list Y)) :
  (forall x, In x l -> (g x < length (f x))%nat) ->
  mapM (getitem2 (pre ++ map f l))
    (combine (seq (length pre) (length l)) (map g l))
  = Ok (map (fun x => nth (g x) (f x) d) l).
Proof.
  revert pre. induction l as [| x l IH]; intros pre H.
  - reflexivity.
  - simpl length. simpl seq. simpl map. simpl combine. simpl mapM.
    unfold getitem2 at 1. simpl fst. simpl snd.
    rewrite nth_error_app2 by lia. rewrite Nat.sub_diag.
    change (nth_error (f x :: map f l) 0) with (Some (f x)). cbv iota.
    rewrite (nth_error_nth' _ d (H x (or_introl eq_refl))). simpl bind.
    change (pre ++ f x :: map f l) with (pre ++ [f x] ++ map f l).
    rewrite app_assoc.
    replace (S (length pre)) with (length (pre ++ [f x]))
      by (rewrite length_app; simpl; lia).
    rewrite IH; [reflexivity |]. intros y Hy. apply H. now right.
Qed.

(** As many row indices as rows: row [i] is read at column [g] of row
    [i]. *)
Lemma adv_index_aligned (X Y : Type) (f : X -> list Y) (g : X -> nat)
    (d : Y) (l : list X) :
  (forall x, In x l -> (g x < length (f x))%nat) ->
  adv_index (map f l) (seq 0 (length l)) (map g l)
  = Ok (map (fun x => nth (g x) (f x) d) l).
Proof.
  intros H. unfold adv_index, broadcast_index.
  rewrite length_seq, length_map, Nat.eqb_refl. simpl bind.
  apply (mapM_getitem2_rows f g d l [] H).
Qed.

Lemma mapM_getitem2_row0 (X Y : Type) (g : X -> nat) (d : Y)
    (t : list (list Y)) (r : list Y) (l : list X) :
  nth_error t 0 = Some r ->
  (forall x, In x l -> (g x < length r)%nat) ->
  mapM (getitem2 t) (map (fun y => (0%nat, y)) (map g l))
  = Ok (map (fun x => nth (g x) r d) l).
Proof.
  intros Ht. induction l as [| x l IH]; intros H.
  - reflexivity.
  - simpl map. simpl mapM. unfold getitem2 at 1. simpl fst. simpl snd.
    rewrite Ht.
    rewrite (nth_error_nth' _ d (H x (or_introl eq_refl))). simpl bind.
    rewrite IH; [reflexivity |]. intros y Hy. apply H. now right.
Qed.

(** The single row index [0] is broadcast: every entry is read in row 0
    of the tensor, whatever the number of rows. *)
Lemma adv_index_row0 (X Y : Type) (f : X -> list Y) (g : X -> nat) (d : Y)
    (x0 : X) (l : list X) :
  (forall x, In x (x0 :: l) -> (g x < length (f x0))%nat) ->
  adv_index (map f (x0 :: l)) [0%nat] (map g (x0 :: l))
  = Ok (map (fun x => nth (g x) (f x0) d) (x0 :: l)).
Proof.
  intros H. unfold adv_index.
  assert (Hb : broadcast_index [0%nat] (map g (x0 :: l))
               = Ok (map (fun y => (0%nat, y)) (map g (x0 :: l)))).
  { unfold broadcast_index. destruct l as [| x1 l]; reflexivity. }
  rewrite Hb. simpl bind.
  apply (@mapM_getitem2_row0 _ _ g d (map f (x0 :: l)) (f x0) (x0 :: l));
    [reflexivity | exact H].
Qed.

(** Two or more row indices against a different number of rows: the
    indices cannot be broadcast, or run past the last row. *)
Lemma adv_index_mismatch (X Y : Type) (f : X -> list Y) (g : X -> nat)
    (n : nat) (l : list X) :
  (2 <= n)%nat -> length l <> n ->
  adv_index (map f l) (seq 0 n) (map g l) = Raise IndexError.
Proof.
  intros Hn Hne. unfold adv_index, broadcast_index.
  rewrite length_seq, length_map.
  destruct (Nat.eqb_spec n (length l)) as [E | _]; [lia |].
  destruct n as [| [| n]]; try lia. simpl seq.
  destruct l as [| x [| x' l]].
  - reflexivity.
  - simpl map. simpl bind. simpl mapM. unfold getitem2. simpl.
    destruct (nth_error (f x) (g x)); reflexivity.
  - reflexivity.
Qed.

(** *** [.long()], offsets and blocks of a flat tensor *)

Lemma long_Qeq (x : Q) (z : Z) : x == inject_Z z -> long x = z.
Proof.
  unfold Qeq, long, inject_Z. simpl. intros H.
  rewrite Z.mul_1_r in H. rewrite H. apply Z.quot_mul. discriminate.
Qed.

Lemma map2_add_repeat (row : list Z) (c : Z) (n : nat) :
  length row = n -> map2 Z.add row (repeat c n) = map (fun i => i + c)%Z row.
Proof.
  unfold map2. revert n. induction row as [| i row IH]; intros n Hn;
    simpl in Hn; subst n; simpl.
  - reflexivity.
  - now rewrite IH.
Qed.

Lemma shifted_rows_cons (n : nat) (a : list Z) (rows : list (list Z))
    (s : nat) :
  length a = n ->
  shifted_rows n (a :: rows) s
  = map (fun i => i + Z.of_nat s * Z.of_nat n)%Z a
    :: shifted_rows n rows (S s).
Proof.
  intros Ha. unfold shifted_rows. simpl length. simpl seq. simpl map.
  unfold map2 at 1. simpl combine. simpl map.
  fold (map2 Z.add a (repeat (Z.of_nat s * Z.of_nat n)%Z n)).
  rewrite map2_add_repeat by exact Ha. reflexivity.
Qed.

Lemma scatter_rows_length (n : nat) (idx : list (list Z))
    (src : list (list Q)) (s : nat) :
  Forall2 (block_ok n) idx src ->
  length (concat (shifted_rows n idx s)) = (length idx * n)%nat
  /\ length (concat src) = (length idx * n)%nat.
Proof.
  intros H. revert s. induction H as [| a b idx src (Ha & Hb & _) _ IH];
    intros s.
  - split; reflexivity.
  - rewrite shifted_rows_cons by exact Ha. simpl concat.
    rewrite !length_app, length_map.
    destruct (IH (S s)) as [-> ->]. simpl. lia.
Qed.

Lemma scatter_rows_range (n : nat) (idx : list (list Z))
    (src : list (list Q)) (s : nat) :
  Forall2 (block_ok n) idx src ->
  Forall (fun j => 0 <= j < Z.of_nat ((s + length idx) * n))%Z
    (concat (shifted_rows n idx s)).
Proof.
  intros H. revert s. induction H as [| a b idx src (Ha & Hb & Hr) _ IH];
    intros s.
  - constructor.
  - rewrite shifted_rows_cons by exact Ha. simpl concat.
    apply Forall_app. split.
    + apply Forall_map. eapply Forall_impl; [| exact Hr].
      intros j Hj. cbv beta in Hj |- *. simpl length.
      rewrite Nat2Z.inj_mul, Nat2Z.inj_add, Nat2Z.inj_succ. nia.
    + specialize (IH (S s)). eapply Forall_impl; [| exact IH].
      intros j Hj. cbv beta in *. simpl length.
      replace (s + S (length idx))%nat with (S s + length idx)%nat by lia.
      exact Hj.
Qed.

(** Position [m] of block [i] of the flat tensor receives what row [i]
    sends to [m], and nothing from the other rows. *)
Lemma scatter_rows_sum (n : nat) (idx : list (list Z)) (src : list (list Q))
    (s i m : nat) :
  Forall2 (block_ok n) idx src ->
  (m < n)%nat ->
  sum_where (concat (shifted_rows n idx s)) (concat src)
    (Z.of_nat (i * n + m))
  == if (s <=? i)%nat
     then match nth_error idx (i - s), nth_error src (i - s) with
          | Some a, Some b => sum_where a b (Z.of_nat m)
          | _, _ => 0
          end
     else 0.
Proof.
  intros H Hm. revert s. induction H as [| a b idx src (Ha & Hb & Hr) _ IH];
    intros s.
  - unfold shifted_rows. simpl.
    destruct (s <=? i)%nat; [| reflexivity].
    destruct (i - s)%nat; reflexivity.
  - rewrite shifted_rows_cons by exact Ha. simpl concat.
    rewrite sum_placesapp by (rewrite length_map; lia).
    rewrite (IH (S s)).
    destruct (Nat.leb_spec s i) as [Hsi | Hsi].
    + destruct (Nat.eq_dec i s) as [-> | Hne].
      * rewrite Nat.sub_diag. simpl nth_error.
        replace (Z.of_nat (s * n + m))
          with (Z.of_nat m + Z.of_nat s * Z.of_nat n)%Z by lia.
        rewrite sum_placesshift.
        destruct (Nat.leb_spec (S s) s); [lia |]. ring.
      * destruct (Nat.leb_spec (S s) i); [| lia].
        replace (i - s)%nat with (S (i - S s)) by lia. simpl nth_error.
        rewrite sum_placesmiss; [ring |].
        intros j Hj. apply in_map_iff in Hj. destruct Hj as (k & <- & Hk).
        rewrite Forall_forall in Hr. specialize (Hr k Hk).
        assert ((s + 1) * n <= i * n)%nat
          by (apply Nat.mul_le_mono_r; lia).
        lia.
    + destruct (Nat.leb_spec (S s) i); [lia |].
      rewrite sum_placesmiss; [ring |].
      intros j Hj. apply in_map_iff in Hj. destruct Hj as (k & <- & Hk).
      rewrite Forall_forall in Hr. specialize (Hr k Hk).
      assert ((i + 1) * n <= s * n)%nat by (apply Nat.mul_le_mono_r; lia).
      lia.
Qed.

(** *** Views *)

Lemma view_like_rows (X : Type) (n : nat) (shape : list (list X))
    (flat : list Q) :
  (forall r, In r shape -> length r = n) ->
  view_like shape flat
  = map (fun i => firstn n (skipn (i * n) flat)) (seq 0 (length shape)).
Proof.
  revert flat. induction shape as [| r shape IH]; intros flat H.
  - reflexivity.
  - simpl view_like. simpl length. simpl seq. simpl map.
    rewrite (H r) by now left. f_equal.
    rewrite IH by (intros r' Hr'; apply H; now right).
    rewrite <- seq_shift, map_map. apply map_ext. intros i.
    rewrite skipn_skipn. do 2 f_equal. lia.
Qed.

Lemma Forall2_Qeq_nth (a b : list Q) :
  length a = length b ->
  (forall m, (m < length a)%nat -> nth m a 0 == nth m b 0) ->
  Forall2 Qeq a b.
Proof.
  revert b. induction a as [| x a IH]; intros [| y b] Hlen H;
    simpl in Hlen; try discriminate; constructor.
  - apply (H 0%nat). simpl. lia.
  - apply IH; [lia |]. intros m Hm. apply (H (S m)). simpl. lia.
Qed.

Lemma Forall2_map_seq (X Y : Type) (R : Y -> X -> Prop) (F : nat -> Y)
    (l : list X) (s : nat) :
  (forall i x, nth_error l i = Some x -> R (F (s + i)%nat) x) ->
  Forall2 R (map F (seq s (length l))) l.
Proof.
  revert s. induction l as [| x l IH]; intros s H; simpl; constructor.
  - rewrite <- (Nat.add_0_r s). apply H. reflexivity.
  - apply IH. intros i y Hy.
    replace (S s + i)%nat with (s + S i)%nat by lia. apply H. exact Hy.
Qed.

(** Block [i] of a flat tensor, entry by entry. *)
Lemma block_Forall2 (n i : nat) (flat : list Q) (g : nat -> Q) :
  (i * n + n <= length flat)%nat ->
  (forall m, (m < n)%nat -> nth (i * n + m) flat 0 == g m) ->
  Forall2 Qeq (firstn n (skipn (i * n) flat)) (map g (seq 0 n)).
Proof.
  intros Hlen H. apply Forall2_Qeq_nth.
  - rewrite length_firstn, length_skipn, length_map, length_seq. lia.
  - intros m Hm.
    rewrite length_firstn, length_skipn in Hm.
    assert (Hmn : (m < n)%nat) by lia.
    rewrite nth_firstn, nth_skipn.
    destruct (Nat.ltb_spec m n); [| lia].
    rewrite H by exact Hmn.
    rewrite (nth_indep _ 0 (g 0%nat))
      by (rewrite length_map, length_seq; exact Hmn).
    rewrite map_nth, seq_nth by exact Hmn. reflexivity.
Qed.

End torch_facts.

(** ** The Rainbow-DQN agent *)

Module dqn_rainbow_facts.

Import torch torch_facts dqn_rainbow.

(** *** Construction of the support *)

Lemma Qlt_bool_iff (x y : Q) : Qlt_bool x y = true <-> x < y.
Proof.
  unfold Qlt_bool. rewrite negb_true_iff.
  split; intros H.
  - apply Qnot_le_lt. intros Hle. apply Qle_bool_iff in Hle. congruence.
  - destruct (Qle_bool y x) eqn:E; [| reflexivity].
    apply Qle_bool_iff in E. exfalso. exact (Qlt_not_le _ _ H E).
Qed.

Lemma linspace_length (a b : Q) (n : nat) : length (linspace a b n) = n.
Proof.
  destruct n as [| [| n]]; simpl; try reflexivity.
  rewrite length_map, length_seq. reflexivity.
Qed.

Lemma linspace_nth (a b : Q) (n k : nat) :
  (2 <= n)%nat -> (k < n)%nat ->
  nth_error (linspace a b n) k
  = Some (a + inject_Z (Z.of_nat k)
              * ((b - a) / inject_Z (Z.of_nat n - 1))).
Proof.
  intros Hn Hk. destruct n as [| [| n]]; try lia.
  unfold linspace.
  rewrite nth_error_map, nth_error_seq.
  destruct (Nat.ltb_spec k (S (S n))); [reflexivity | lia].
Qed.

Lemma inject_Z_pos (z : Z) : (0 < z)%Z -> 0 < inject_Z z.
Proof. intros H. unfold Qlt, inject_Z. simpl. lia. Qed.

Lemma inject_Z_nonzero (z : Z) : (z <> 0)%Z -> ~ inject_Z z == 0.
Proof. intros H E. unfold Qeq, inject_Z in E. simpl in E. lia. Qed.

(** C2, as amended.  With at least two atoms and [v_min <= v_max] (and the
    other hyperparameters accepted) the constructor succeeds; the support
    has [num_atoms] entries, entry [k] is [v_min + k * delta_z] with
    [delta_z = (v_max - v_min) / (num_atoms - 1)], it runs from [v_min]
    to [v_max], it is strictly increasing when [v_min < v_max] and
    constant when [v_min = v_max].  With [num_atoms < 1] or
    [v_max < v_min] the constructor raises [AssertionError]. *)
Theorem support_vector_construction (batch_size : Z)
    (lr gamma tau prior_eps : Q) (num_atoms : Z) (v_min v_max : Q)
    (n_step : Z) (combined_reward : bool) (actor_network : Net) :
  ((1 <= batch_size)%Z -> 0 < lr -> 0 < tau -> 0 < prior_eps ->
   (1 <= n_step)%Z -> (2 <= num_atoms)%Z -> v_min <= v_max ->
   exists self,
     __init__ batch_size lr gamma tau prior_eps num_atoms v_min v_max
       n_step combined_reward actor_network = Ok self
     /\ length (support self) = Z.to_nat num_atoms
     /\ delta_z self == (v_max - v_min) / inject_Z (num_atoms - 1)
     /\ (forall k z,
           nth_error (support self) k = Some z ->
           z == v_min + inject_Z (Z.of_nat k) * delta_z self)
     /\ (exists z0 zN,
           nth_error (support self) 0 = Some z0 /\ z0 == v_min
           /\ nth_error (support self) (Z.to_nat num_atoms - 1) = Some zN
           /\ zN == v_max)
     /\ (v_min < v_max -> strictly_increasing (support self))
     /\ (v_min == v_max -> Forall (Qeq v_min) (support self)))
  /\ ((num_atoms < 1)%Z \/ v_max < v_min ->
      __init__ batch_size lr gamma tau prior_eps num_atoms v_min v_max
        n_step combined_reward actor_network = Raise AssertionError).
Proof.
  split.
  - intros Hb Hlr Htau Heps Hn Hatoms Hv.
    unfold __init__.
    replace (1 <=? batch_size)%Z with true by (symmetry; now apply Z.leb_le).
    rewrite (proj2 (Qlt_bool_iff 0 lr) Hlr).
    rewrite (proj2 (Qlt_bool_iff 0 tau) Htau).
    rewrite (proj2 (Qlt_bool_iff 0 prior_eps) Heps).
    replace (1 <=? num_atoms)%Z with true by (symmetry; apply Z.leb_le; lia).
    rewrite (proj2 (Qle_bool_iff v_min v_max) Hv).
    replace (1 <=? n_step)%Z with true by (symmetry; now apply Z.leb_le).
    simpl bind. unfold truediv.
    assert (Hnz : ~ inject_Z (num_atoms - 1) == 0)
      by (apply inject_Z_nonzero; lia).
    destruct (Qeq_bool (inject_Z (num_atoms - 1)) 0) eqn:E.
    { apply Qeq_bool_iff in E. contradiction. }
    simpl bind. eexists. split; [reflexivity |]. cbn [support delta_z].
    assert (HN : (Z.of_nat (Z.to_nat num_atoms) - 1 = num_atoms - 1)%Z) by lia.
    assert (Hnth : forall k z,
               nth_error (linspace v_min v_max (Z.to_nat num_atoms)) k
               = Some z ->
               (k < Z.to_nat num_atoms)%nat
               /\ z = v_min + inject_Z (Z.of_nat k)
                              * ((v_max - v_min) / inject_Z (num_atoms - 1))).
    { intros k z Hk.
      assert (Hlt : (k < Z.to_nat num_atoms)%nat).
      { rewrite <- (linspace_length v_min v_max (Z.to_nat num_atoms)).
        apply nth_error_Some. congruence. }
      split; [exact Hlt |].
      rewrite linspace_nth in Hk by lia. rewrite HN in Hk. congruence. }
    assert (Hd : 0 < inject_Z (num_atoms - 1)) by (apply inject_Z_pos; lia).
    split; [apply linspace_length |].
    split; [reflexivity |].
    split.
    { intros k z Hk. destruct (Hnth k z Hk) as (_ & ->). reflexivity. }
    split.
    { exists (v_min + inject_Z (Z.of_nat 0)
                      * ((v_max - v_min) / inject_Z (num_atoms - 1))),
             (v_min + inject_Z (Z.of_nat (Z.to_nat num_atoms - 1))
                      * ((v_max - v_min) / inject_Z (num_atoms - 1))).
      rewrite !linspace_nth by lia. rewrite HN.
      split; [reflexivity |]. split; [simpl; ring |].
      split; [reflexivity |].
      replace (Z.of_nat (Z.to_nat num_atoms - 1)) with (num_atoms - 1)%Z
        by lia.
      field. exact Hnz. }
    split.
    { intros Hlt i j x y Hi Hj Hij.
      destruct (Hnth i x Hi) as (_ & ->).
      destruct (Hnth j y Hj) as (_ & ->).
      apply Qplus_lt_r. apply Qmult_lt_compat_r.
      * apply Qlt_shift_div_l; [exact Hd |].
        setoid_replace (0 * inject_Z (num_atoms - 1)) with 0 by ring.
        unfold Qminus. rewrite <- Qlt_minus_iff. exact Hlt.
      * unfold Qlt, inject_Z. simpl. lia. }
    intros Heq. apply Forall_forall. intros z Hz.
    apply In_nth_error in Hz. destruct Hz as (k & Hk).
    destruct (Hnth k z Hk) as (_ & ->).
    setoid_replace (v_max - v_min) with 0 by (rewrite Heq; ring).
    field. exact Hnz.
  - intros Hbad. unfold __init__.
    destruct (1 <=? batch_size)%Z; [| reflexivity].
    destruct (Qlt_bool 0 lr); [| reflexivity].
    destruct (Qlt_bool 0 tau); [| reflexivity].
    destruct (Qlt_bool 0 prior_eps); [| reflexivity].
    simpl bind.
    destruct (Z.leb_spec 1 num_atoms) as [Hok | Hlow]; [| reflexivity].
    simpl bind.
    destruct (Qle_bool v_min v_max) eqn:E; [| reflexivity].
    apply Qle_bool_iff in E. exfalso.
    destruct Hbad as [Hbad | Hbad]; [lia |].
    exact (Qlt_not_le _ _ Hbad E).
Qed.

Lemma support_vector_construction_witness :
  exists self,
    default_agent 51 (-10) 10 = Ok self
    /\ length (support self) = 51%nat
    /\ delta_z self == 2 # 5
    /\ strictly_increasing (support self).
Proof.
  destruct (proj1 (@support_vector_construction 64 (1 # 10000) (99 # 100)
                     (1 # 1000) (1 # 1000000) 51 (-10) 10 3 false
                     example_net))
    as (self & Hs & Hlen & Hd & _ & _ & Hinc & _);
    try reflexivity; try lia; try discriminate.
  exists self. repeat split.
  - exact Hs.
  - exact Hlen.
  - rewrite Hd. reflexivity.
  - apply Hinc. reflexivity.
Defined.

(** C2 as stated fails where the support has width zero: the constructor
    accepts [v_max = v_min] (its assertion is [v_max >= v_min]), and the
    atoms are then all equal, not strictly increasing. *)
Lemma support_of_zero_width_not_increasing :
  exists self,
    default_agent 2 0 0 = Ok self
    /\ 0 <= 0 /\ (1 <= 2)%Z
    /\ ~ strictly_increasing (support self).
Proof.
  eexists. split; [reflexivity |].
  split; [discriminate |]. split; [lia |].
  intros H.
  specialize (H 0%nat 1%nat _ _ eq_refl eq_refl (Nat.lt_0_1)).
  revert H. vm_compute. intros H. discriminate H.
Qed.

(** A single atom passes the assertion [num_atoms >= 1] and then divides
    by [num_atoms - 1]. *)
Lemma single_atom_raises_ZeroDivisionError :
  default_agent 1 (-10) 10 = Raise ZeroDivisionError.
Proof. reflexivity. Qed.

(** *** Soft update *)

Lemma map2_nth_error (A B C : Type) (f : A -> B -> C) (a : list A)
    (b : list B) (i : nat) (x : A) (y : B) :
  nth_error a i = Some x -> nth_error b i = Some y ->
  nth_error (map2 f a b) i = Some (f x y).
Proof.
  unfold map2. revert b i.
  induction a as [| x' a IH]; intros [| y' b] [| i] Ha Hb; simpl in *;
    try discriminate.
  - congruence.
  - now apply IH.
Qed.

Lemma soft_update_params_length (tau : Q) (es ts : list tensor) :
  length (soft_update_params tau es ts) = length ts.
Proof.
  revert ts. induction es as [| e es IH]; intros [| t ts]; simpl; auto.
Qed.

Lemma soft_update_params_nth (tau : Q) (es ts : list tensor) (i : nat)
    (e t : tensor) :
  nth_error es i = Some e -> nth_error ts i = Some t ->
  nth_error (soft_update_params tau es ts) i
  = Some (map2 (fun x y => tau * x + (1 - tau) * y) e t).
Proof.
  revert ts i. induction es as [| e' es IH]; intros [| t' ts] [| i] He Ht;
    simpl in He, Ht; try discriminate.
  - injection He as ->. injection Ht as ->. reflexivity.
  - simpl. now apply IH.
Qed.

Lemma map2_Qeq_l (f : Q -> Q -> Q) (a b : list Q) :
  length a = length b -> (forall x y, f x y == x) ->
  Forall2 Qeq (map2 f a b) a.
Proof.
  unfold map2. revert b.
  induction a as [| x a IH]; intros [| y b] Hlen Hf; simpl in *;
    try discriminate; constructor.
  - apply Hf.
  - apply IH; [lia | exact Hf].
Qed.

Lemma map2_Qeq_r (f : Q -> Q -> Q) (a b : list Q) :
  length a = length b -> (forall x y, f x y == y) ->
  Forall2 Qeq (map2 f a b) b.
Proof.
  unfold map2. revert b.
  induction a as [| x a IH]; intros [| y b] Hlen Hf; simpl in *;
    try discriminate; constructor.
  - apply Hf.
  - apply IH; [lia | exact Hf].
Qed.

(** C7 (soft update).  [soft_update] leaves the online parameters alone
    and replaces every entry of every target parameter by
    [tau * online + (1 - tau) * target]; for networks of the same shape,
    [tau = 1] makes the target a copy of the online parameters and
    [tau = 0] leaves the target as it was. *)
Theorem soft_update_law (self : RainbowDQN) :
  actor (soft_update self) = actor self
  /\ length (parameters (actor_target (soft_update self)))
     = length (parameters (actor_target self))
  /\ (forall i online_p target_p j e t,
        nth_error (parameters (actor self)) i = Some online_p ->
        nth_error (parameters (actor_target self)) i = Some target_p ->
        nth_error online_p j = Some e ->
        nth_error target_p j = Some t ->
        exists new_p,
          nth_error (parameters (actor_target (soft_update self))) i
          = Some new_p
          /\ nth_error new_p j = Some (tau self * e + (1 - tau self) * t))
  /\ (same_shapes (parameters (actor self))
        (parameters (actor_target self)) ->
      (tau self == 1 ->
       Forall2 (Forall2 Qeq)
         (parameters (actor_target (soft_update self)))
         (parameters (actor self)))
      /\ (tau self == 0 ->
          Forall2 (Forall2 Qeq)
            (parameters (actor_target (soft_update self)))
            (parameters (actor_target self)))).
Proof.
  split; [reflexivity |]. split.
  { simpl. apply soft_update_params_length. }
  split.
  { intros i online_p target_p j e t Hi Ht He Htj. simpl.
    eexists. split.
    - apply soft_update_params_nth; eassumption.
    - apply (map2_nth_error (fun x y => tau self * x + (1 - tau self) * y));
        assumption. }
  intros Hshape. simpl.
  split; intros Htau.
  - induction Hshape as [| p q es ts Hpq _ IH]; simpl; constructor.
    + apply map2_Qeq_l; [exact Hpq |]. intros x y. rewrite Htau. ring.
    + exact IH.
  - induction Hshape as [| p q es ts Hpq _ IH]; simpl; constructor.
    + apply map2_Qeq_r; [exact Hpq |]. intros x y. rewrite Htau. ring.
    + exact IH.
Qed.

(** *** Action selection *)

Lemma same_shape_map (X Y Z' : Type) (f : Y -> Z') (a : list (list X)) :
  forall b : list (list Y), same_shape a (map (map f) b) = same_shape a b.
Proof.
  induction a as [| r a IH]; intros [| q b]; simpl; try reflexivity.
  rewrite length_map, IH. reflexivity.
Qed.

Lemma concat_map_map_length (Y Z' : Type) (f : Y -> Z') (b : list (list Y)) :
  length (concat (map (map f) b)) = length (concat b).
Proof.
  induction b as [| q b IH]; simpl; [reflexivity |].
  rewrite !length_app, length_map, IH. reflexivity.
Qed.

(** C10, as amended (side effect of action selection).  A call of
    [get_action] that returns leaves the actor in train mode, whatever
    the mode of the actor before the call and whatever [training] is;
    [training] only sets the mode of the forward pass that produces the
    action values.  A call that raises leaves the method before the mode
    is restored, and the actor stays in the mode [training] asked for.
    That happens when a mask is given that numpy refuses with
    [MaskError]: one whose shape is not that of the action values and
    whose number of entries is neither 1 nor theirs; with any other mask,
    and without one, the call returns (the actor valuing at least one
    action for every observation, as [np.argmax] needs).  Parameters and
    target network are untouched either way. *)
Theorem get_action_leaves_train_mode (State : Type)
    (forward_q : Net -> State -> list Q)
    (preprocess_observation : State -> State) (self : RainbowDQN)
    (state : list State) (action_mask : option (list (list Z)))
    (training_flag : bool) :
  let result :=
    get_action forward_q preprocess_observation self state action_mask
      training_flag in
  let action_values :=
    map (fun s =>
           forward_q (train (actor self) training_flag)
             (preprocess_observation s)) state in
  let refused :=
    match action_mask with
    | None => false
    | Some mask =>
        negb (same_shape action_values mask)
        && negb (length (concat mask) =? 1)
        && negb (length (concat mask) =? length (concat action_values))
    end in
  parameters (actor (snd result)) = parameters (actor self)
  /\ actor_target (snd result) = actor_target self
  /\ (forall action,
        fst result = Ok action -> training (actor (snd result)) = true)
  /\ (forall e,
        fst result = Raise e ->
        training (actor (snd result)) = training_flag)
  /\ (refused = true -> fst result = Raise MaskError)
  /\ (refused = false ->
      Forall (fun row => row <> []) action_values ->
      exists action, fst result = Ok action)
  /\ (action_mask = None ->
      Forall (fun row => row <> []) action_values ->
      fst result = Ok (map argmax action_values))
  /\ (forall mask,
        action_mask = Some mask -> same_shape action_values mask = true ->
        Forall (fun row => row <> []) action_values ->
        fst result
        = Ok (map2 masked_argmax action_values
                (map (map (fun m => 1 - m)%Z) mask))).
Proof.
  intros result action_values refused.
  assert (Hvalues : map (forward_q (train (actor self) training_flag))
                      (map preprocess_observation state) = action_values).
  { unfold action_values. rewrite map_map. reflexivity. }
  subst result refused. unfold get_action.
  cbn [set_actor actor]. rewrite Hvalues.
  destruct action_mask as [mask |].
  - unfold ma_mask.
    rewrite same_shape_map, concat_map_map_length.
    destruct (same_shape action_values mask) eqn:Hshape.
    + rewrite bind_ok. cbn [fst snd set_actor actor actor_target train
                            parameters training negb andb].
      split; [reflexivity |]. split; [reflexivity |].
      split; [intros action _; reflexivity |].
      split; [discriminate |]. split; [discriminate |].
      split; [intros _ _; eexists; reflexivity |].
      split; [discriminate |].
      intros mask' E _ _. injection E as <-. reflexivity.
    + destruct (length (concat mask) =? 1) eqn:H1.
      * rewrite bind_ok. cbn [fst snd set_actor actor actor_target train
                              parameters training negb andb].
        split; [reflexivity |]. split; [reflexivity |].
        split; [intros action _; reflexivity |].
        split; [discriminate |]. split; [discriminate |].
        split; [intros _ _; eexists; reflexivity |].
        split; [discriminate |].
        intros mask' E Hs. injection E as <-. congruence.
      * destruct (length (concat mask) =? length (concat action_values))
          eqn:H2.
        -- rewrite bind_ok. cbn [fst snd set_actor actor actor_target train
                                 parameters training negb andb].
           split; [reflexivity |]. split; [reflexivity |].
           split; [intros action _; reflexivity |].
           split; [discriminate |]. split; [discriminate |].
           split; [intros _ _; eexists; reflexivity |].
           split; [discriminate |].
           intros mask' E Hs. injection E as <-. congruence.
        -- cbn [bind fst snd set_actor actor actor_target train
                parameters training negb andb].
           split; [reflexivity |]. split; [reflexivity |].
           split; [discriminate |].
           split; [intros e _; reflexivity |].
           split; [intros _; reflexivity |].
           split; [discriminate |].
           split; [discriminate |].
           intros mask' E Hs. injection E as <-. congruence.
  - cbn [fst snd set_actor actor actor_target train parameters training].
    split; [reflexivity |]. split; [reflexivity |].
    split; [intros action _; reflexivity |].
    split; [discriminate |]. split; [discriminate |].
    split; [intros _ _; eexists; reflexivity |].
    split; [intros _ _; reflexivity |].
    discriminate.
Qed.

(** *** Well-formed agents *)

Lemma init_well_formed (batch_size : Z) (lr gamma tau prior_eps : Q)
    (num_atoms : Z) (v_min v_max : Q) (n_step : Z) (combined_reward : bool)
    (actor_network : Net) (self : RainbowDQN) :
  __init__ batch_size lr gamma tau prior_eps num_atoms v_min v_max n_step
    combined_reward actor_network = Ok self ->
  v_min < v_max ->
  well_formed self.
Proof.
  unfold __init__, well_formed. intros H Hv.
  destruct (Z.leb_spec 1 batch_size); [| discriminate].
  destruct (Qlt_bool 0 lr); [| discriminate].
  destruct (Qlt_bool 0 tau); [| discriminate].
  destruct (Qlt_bool 0 prior_eps); [| discriminate].
  simpl bind in H.
  destruct (Z.leb_spec 1 num_atoms); [| discriminate].
  destruct (Qle_bool v_min v_max); [| discriminate].
  destruct (Z.leb_spec 1 n_step); [| discriminate].
  simpl bind in H. unfold truediv in H.
  destruct (Qeq_bool (inject_Z (num_atoms - 1)) 0) eqn:E; [discriminate |].
  simpl bind in H. injection H as <-. cbn.
  assert (num_atoms <> 1)%Z.
  { intros ->. discriminate E. }
  repeat split; try lia; try assumption; reflexivity.
Qed.

Lemma delta_z_pos (self : RainbowDQN) :
  well_formed self -> 0 < delta_z self.
Proof.
  intros (_ & HN & Hv & _ & Hd). rewrite Hd.
  apply Qlt_shift_div_l.
  - apply inject_Z_pos. lia.
  - setoid_replace (0 * inject_Z (num_atoms self - 1)) with 0 by ring.
    unfold Qminus. rewrite <- Qlt_minus_iff. exact Hv.
Qed.

Lemma clamp_range (x lo hi : Q) :
  lo <= hi -> lo <= clamp x lo hi /\ clamp x lo hi <= hi.
Proof.
  intros H. unfold clamp. split.
  - apply Q.min_glb; [apply Q.le_max_r | exact H].
  - apply Q.le_min_r.
Qed.

(** A clamped target value falls between bin 0 and bin [num_atoms - 1]. *)
Lemma bin_range (self : RainbowDQN) (t : Q) :
  well_formed self ->
  v_min self <= t <= v_max self ->
  0 <= bin self t /\ bin self t <= inject_Z (num_atoms self - 1).
Proof.
  intros Hwf [Hlo Hhi]. pose proof (delta_z_pos Hwf) as Hd.
  destruct Hwf as (_ & HN & Hv & _ & Hdz).
  assert (Hn1 : 0 < inject_Z (num_atoms self - 1))
    by (apply inject_Z_pos; lia).
  unfold bin. split.
  - apply Qle_shift_div_l; [exact Hd |].
    setoid_replace (0 * delta_z self) with 0 by ring.
    unfold Qminus. rewrite <- Qle_minus_iff. exact Hlo.
  - apply Qle_shift_div_r; [exact Hd |].
    rewrite Hdz.
    setoid_replace (inject_Z (num_atoms self - 1)
                    * ((v_max self - v_min self)
                       / inject_Z (num_atoms self - 1)))
      with (v_max self - v_min self)
      by (field; intros E; rewrite E in Hn1; discriminate Hn1).
    unfold Qminus. apply Qplus_le_l. exact Hhi.
Qed.

Lemma Qceiling_le_floor_succ (b : Q) : (Qceiling b <= Qfloor b + 1)%Z.
Proof.
  pose proof (Qceiling_lt b) as H1. pose proof (Qlt_floor b) as H2.
  pose proof (Qlt_trans _ _ _ H1 H2) as H.
  rewrite <- Zlt_Qlt in H. lia.
Qed.

(** The two corrections leave [L] and [u] one apart and inside the
    support. *)
Lemma lower_upper_spec (self : RainbowDQN) (b : Q) :
  (2 <= num_atoms self)%Z ->
  0 <= b -> b <= inject_Z (num_atoms self - 1) ->
  (0 <= lower b)%Z
  /\ (upper self b <= num_atoms self - 1)%Z
  /\ upper self b = (lower b + 1)%Z.
Proof.
  intros HN H0 H1.
  assert (Hf : (0 <= Qfloor b)%Z).
  { change 0%Z with (Qfloor 0). now apply Qfloor_resp_le. }
  assert (Hc : (Qceiling b <= num_atoms self - 1)%Z).
  { rewrite <- (Qceiling_Z (num_atoms self - 1)). now apply Qceiling_resp_le. }
  pose proof (Qle_floor_ceiling b) as Hfc.
  pose proof (Qceiling_le_floor_succ b) as Hcf.
  rewrite <- Zle_Qle in Hfc.
  unfold upper, lower.
  set (L0 := Qfloor b) in *. set (u0 := Qceiling b) in *.
  destruct (Z.ltb_spec 0 u0); destruct (Z.eqb_spec L0 u0);
    simpl andb; cbv iota;
    match goal with
    | |- context [(?a <? ?b)%Z] => destruct (Z.ltb_spec a b)
    end;
    match goal with
    | |- context [(?a =? ?b)%Z] => destruct (Z.eqb_spec a b)
    end; simpl andb; cbv iota; lia.
Qed.

(** *** The loss of a batch *)

Lemma map2_map_map (X A B C : Type) (f : A -> B -> C) (g : X -> A)
    (h : X -> B) (l : list X) :
  map2 f (map g l) (map h l) = map (fun x => f (g x) (h x)) l.
Proof.
  unfold map2. induction l as [| x l IH]; simpl; [reflexivity |].
  now rewrite IH.
Qed.

Lemma map2_length (A B C : Type) (f : A -> B -> C) (a : list A)
    (b : list B) :
  length (map2 f a b) = Nat.min (length a) (length b).
Proof. unfold map2. now rewrite length_map, length_combine. Qed.

Lemma Forall2_map_same (X A B : Type) (R : A -> B -> Prop) (f : X -> A)
    (g : X -> B) (l : list X) :
  (forall x, In x l -> R (f x) (g x)) -> Forall2 R (map f l) (map g l).
Proof.
  induction l as [| x l IH]; intros H; simpl; constructor.
  - apply H. now left.
  - apply IH. intros y Hy. apply H. now right.
Qed.

(** Two scatter-adds into a zero tensor of [rows] blocks of [n]
    entries. *)
Lemma two_scatters (n rows : nat) (idx1 idx2 : list (list Z))
    (src1 src2 : list (list Q)) :
  Forall2 (block_ok n) idx1 src1 -> Forall2 (block_ok n) idx2 src2 ->
  length idx1 = rows -> length idx2 = rows ->
  exists flat1 flat2,
    index_add_ (repeat 0 (rows * n)) (concat (shifted_rows n idx1 0))
      (concat src1) = Ok flat1
    /\ index_add_ flat1 (concat (shifted_rows n idx2 0)) (concat src2)
       = Ok flat2
    /\ length flat2 = (rows * n)%nat
    /\ forall i m, (m < n)%nat ->
         nth (i * n + m) flat2 0
         == match nth_error idx1 i, nth_error src1 i with
            | Some a, Some b => sum_where a b (Z.of_nat m)
            | _, _ => 0
            end
            + match nth_error idx2 i, nth_error src2 i with
              | Some a, Some b => sum_where a b (Z.of_nat m)
              | _, _ => 0
              end.
Proof.
  intros H1 H2 Hl1 Hl2.
  destruct (scatter_rows_length 0 H1) as (Hi1 & Hs1).
  destruct (scatter_rows_length 0 H2) as (Hi2 & Hs2).
  pose proof (scatter_rows_range 0 H1) as Hr1.
  pose proof (scatter_rows_range 0 H2) as Hr2.
  simpl in Hr1, Hr2. rewrite Hl1 in Hr1. rewrite Hl2 in Hr2.
  destruct (@index_add_spec (concat (shifted_rows n idx1 0)) (concat src1)
              (repeat 0 (rows * n)))
    as (flat1 & Hf1 & Hlen1 & Hn1).
  { congruence. }
  { now rewrite repeat_length. }
  destruct (@index_add_spec (concat (shifted_rows n idx2 0)) (concat src2)
              flat1)
    as (flat2 & Hf2 & Hlen2 & Hn2).
  { congruence. }
  { now rewrite Hlen1, repeat_length. }
  exists flat1, flat2. split; [exact Hf1 |]. split; [exact Hf2 |]. split.
  { now rewrite Hlen2, Hlen1, repeat_length. }
  intros i m Hm. rewrite Hn2, Hn1.
  rewrite !scatter_rows_sum by assumption.
  rewrite nth_repeat. simpl Nat.leb. cbv iota. rewrite Nat.sub_0_r. ring.
Qed.

Section Loss.

Variable State : Type.
Variable forward_q : Net -> State -> list Q.
Variables forward_dist forward_log_dist : Net -> State -> list (list Q).
Variable preprocess_observation : State -> State.

Local Abbreviation approximator_contract :=
  (dqn_rainbow.approximator_contract forward_q forward_dist forward_log_dist).
Local Abbreviation online_choice :=
  (dqn_rainbow.online_choice forward_q preprocess_observation).
Local Abbreviation target_choice :=
  (dqn_rainbow.target_choice forward_q preprocess_observation).
Local Abbreviation selected_dist :=
  (dqn_rainbow.selected_dist forward_q forward_dist preprocess_observation).
Local Abbreviation selected_log_p :=
  (dqn_rainbow.selected_log_p forward_log_dist preprocess_observation).
Local Abbreviation spec_loss_row :=
  (dqn_rainbow.spec_loss_row forward_q forward_dist forward_log_dist
     preprocess_observation).

Lemma atom_bins_length (self : RainbowDQN) (gamma_ : Q)
    (tr : Transition State) :
  well_formed self ->
  length (atom_bins self gamma_ tr) = Z.to_nat (num_atoms self).
Proof.
  intros (_ & _ & _ & Hs & _). unfold atom_bins.
  rewrite length_map, Hs. apply linspace_length.
Qed.

Lemma atom_bins_range (self : RainbowDQN) (gamma_ : Q)
    (tr : Transition State) (b : Q) :
  well_formed self ->
  In b (atom_bins self gamma_ tr) ->
  0 <= b /\ b <= inject_Z (num_atoms self - 1).
Proof.
  intros Hwf Hin. unfold atom_bins in Hin.
  apply in_map_iff in Hin. destruct Hin as (z & <- & _).
  apply bin_range; [exact Hwf |].
  apply clamp_range. destruct Hwf as (_ & _ & Hv & _).
  now apply Qlt_le_weak.
Qed.

Lemma bins_of_t_z (self : RainbowDQN) (batch : list (Transition State))
    (gamma_ : Q) :
  map (map (bin self)) (t_z self batch gamma_)
  = map (atom_bins self gamma_) batch.
Proof.
  unfold t_z, atom_bins. rewrite map_map. apply map_ext. intros tr.
  now rewrite map_map.
Qed.

Lemma online_choice_bound (self : RainbowDQN) (n_act : nat)
    (tr : Transition State) :
  approximator_contract self n_act ->
  (online_choice self tr
   < length (forward_dist (actor_target self)
               (preprocess_observation (next_state tr))))%nat.
Proof.
  intros (Hn & Hc).
  destruct (Hc (preprocess_observation (next_state tr)))
    as (Hq & Hd & _).
  unfold online_choice. rewrite Hd, <- Hq. apply argmax_bound.
  intros E. rewrite E in Hq. simpl in Hq. lia.
Qed.

Lemma selected_dist_ok (self : RainbowDQN) (n_act : nat)
    (tr : Transition State) :
  approximator_contract self n_act ->
  length (selected_dist self tr) = Z.to_nat (num_atoms self)
  /\ Qsum (selected_dist self tr) == 1.
Proof.
  intros Hc. pose proof (online_choice_bound tr Hc) as Hb.
  destruct Hc as (_ & Hc).
  destruct (Hc (preprocess_observation (next_state tr)))
    as (_ & _ & Hall & _).
  rewrite Forall_forall in Hall. apply Hall.
  unfold selected_dist. now apply nth_In.
Qed.

Lemma offset_rows (self : RainbowDQN) :
  well_formed self ->
  offset self
  = map (fun i =>
           repeat (Z.of_nat i * Z.of_nat (Z.to_nat (num_atoms self)))%Z
             (Z.to_nat (num_atoms self)))
        (seq 0 (Z.to_nat (batch_size self))).
Proof.
  intros (Hb & HN & _). unfold offset.
  rewrite Z2Nat.id by lia.
  destruct (Z.to_nat (batch_size self)) as [| [| n]] eqn:En.
  - reflexivity.
  - simpl. f_equal.
  - unfold linspace. rewrite map_map. apply map_ext. intros i.
    f_equal. apply long_Qeq.
    replace (batch_size self - 1)%Z with (Z.of_nat (S (S n)) - 1)%Z by lia.
    rewrite !inject_Z_mult.
    assert (Hnz : ~ inject_Z (Z.of_nat (S (S n)) - 1) == 0)
      by (apply inject_Z_nonzero; lia).
    field. exact Hnz.
Qed.

Lemma lower_block_ok (self : RainbowDQN) (gamma_ : Q)
    (tr : Transition State) (dist : list Q) :
  well_formed self -> length dist = Z.to_nat (num_atoms self) ->
  block_ok (Z.to_nat (num_atoms self))
    (map lower (atom_bins self gamma_ tr))
    (map2 Qmult dist
       (map (fun b => inject_Z (upper self b) - b)
          (atom_bins self gamma_ tr))).
Proof.
  intros Hwf Hd.
  pose proof (atom_bins_length gamma_ tr Hwf) as Hb.
  unfold block_ok. rewrite map2_length, !length_map, Hd, Hb.
  split; [reflexivity |]. split; [apply Nat.min_id |].
  apply Forall_map, Forall_forall. intros b Hin.
  destruct (atom_bins_range _ _ _ Hwf Hin) as (H0 & H1).
  destruct Hwf as (_ & HN & _).
  destruct (lower_upper_spec self HN H0 H1) as (A & B & C). lia.
Qed.

Lemma upper_block_ok (self : RainbowDQN) (gamma_ : Q)
    (tr : Transition State) (dist : list Q) :
  well_formed self -> length dist = Z.to_nat (num_atoms self) ->
  block_ok (Z.to_nat (num_atoms self))
    (map (upper self) (atom_bins self gamma_ tr))
    (map2 Qmult dist
       (map (fun b => b - inject_Z (lower b)) (atom_bins self gamma_ tr))).
Proof.
  intros Hwf Hd.
  pose proof (atom_bins_length gamma_ tr Hwf) as Hb.
  unfold block_ok. rewrite map2_length, !length_map, Hd, Hb.
  split; [reflexivity |]. split; [apply Nat.min_id |].
  apply Forall_map, Forall_forall. intros b Hin.
  destruct (atom_bins_range _ _ _ Hwf Hin) as (H0 & H1).
  destruct Hwf as (_ & HN & _).
  destruct (lower_upper_spec self HN H0 H1) as (A & B & C). lia.
Qed.

(** With as many rows as [batch_size], every row of the target
    distribution is the one of its own next state, at the action the
    online network prefers there. *)
Lemma target_q_dist_aligned (self : RainbowDQN) (n_act : nat)
    (batch : list (Transition State)) :
  approximator_contract self n_act ->
  length batch = Z.to_nat (batch_size self) ->
  target_q_dist forward_q forward_dist preprocess_observation self batch
  = Ok (map (selected_dist self) batch).
Proof.
  intros Hc Hlen. unfold target_q_dist, next_actions. rewrite <- Hlen.
  apply (adv_index_aligned
           (fun tr => forward_dist (actor_target self)
                        (preprocess_observation (next_state tr)))
           (online_choice self) []).
  intros tr _. exact (online_choice_bound tr Hc).
Qed.

(** With as many rows as [batch_size], the code computes, row by row,
    the projection of the specification. *)
Lemma proj_dist_aligned (self : RainbowDQN) (n_act : nat)
    (batch : list (Transition State)) (gamma_ : Q) :
  well_formed self -> approximator_contract self n_act ->
  length batch = Z.to_nat (batch_size self) ->
  exists p,
    proj_dist forward_q forward_dist preprocess_observation self batch gamma_
    = Ok p
    /\ Forall2
         (fun row tr =>
            Forall2 Qeq row
              (spec_proj_row self (selected_dist self tr)
                 (atom_bins self gamma_ tr)))
         p batch.
Proof.
  intros Hwf Hc Hlen. unfold proj_dist.
  rewrite (target_q_dist_aligned batch Hc Hlen). simpl bind.
  rewrite bins_of_t_z, !map_map, !map2_map_map.
  rewrite (offset_rows Hwf), <- Hlen.
  set (n := Z.to_nat (num_atoms self)).
  set (idx1 := map (fun tr => map lower (atom_bins self gamma_ tr)) batch).
  set (idx2 := map (fun tr => map (upper self) (atom_bins self gamma_ tr))
                 batch).
  set (src1 := map (fun tr =>
                      map2 Qmult (selected_dist self tr)
                        (map (fun b => inject_Z (upper self b) - b)
                           (atom_bins self gamma_ tr))) batch).
  set (src2 := map (fun tr =>
                      map2 Qmult (selected_dist self tr)
                        (map (fun b => b - inject_Z (lower b))
                           (atom_bins self gamma_ tr))) batch).
  assert (H1 : Forall2 (block_ok n) idx1 src1).
  { apply Forall2_map_same. intros tr _.
    apply lower_block_ok; [exact Hwf | apply (selected_dist_ok tr Hc)]. }
  assert (H2 : Forall2 (block_ok n) idx2 src2).
  { apply Forall2_map_same. intros tr _.
    apply upper_block_ok; [exact Hwf | apply (selected_dist_ok tr Hc)]. }
  assert (Hl1 : length idx1 = length batch) by apply length_map.
  assert (Hl2 : length idx2 = length batch) by apply length_map.
  destruct (two_scatters H1 H2 Hl1 Hl2)
    as (flat1 & flat2 & Hf1 & Hf2 & Hlen2 & Hnth).
  assert (Hsel : forall r, In r (map (selected_dist self) batch) ->
                 length r = n).
  { intros r Hr. apply in_map_iff in Hr. destruct Hr as (tr & <- & _).
    apply (selected_dist_ok tr Hc). }
  assert (Hzero : length (concat (map (selected_dist self) batch))
                  = (length batch * n)%nat).
  { clear - Hsel. induction batch as [| tr l IH]; [reflexivity |].
    simpl. rewrite length_app, IH.
    - rewrite (Hsel (selected_dist self tr)) by now left. reflexivity.
    - intros r Hr. apply Hsel. now right. }
  assert (Hab1 : add_broadcast idx1
                   (map (fun i => repeat (Z.of_nat i * Z.of_nat n)%Z n)
                      (seq 0 (length batch)))
                 = Ok (shifted_rows n idx1 0)).
  { unfold add_broadcast, shifted_rows.
    now rewrite length_map, length_seq, Hl1, Nat.eqb_refl. }
  assert (Hab2 : add_broadcast idx2
                   (map (fun i => repeat (Z.of_nat i * Z.of_nat n)%Z n)
                      (seq 0 (length batch)))
                 = Ok (shifted_rows n idx2 0)).
  { unfold add_broadcast, shifted_rows.
    now rewrite length_map, length_seq, Hl2, Nat.eqb_refl. }
  rewrite Hab1. simpl bind. rewrite Hzero, Hf1. simpl bind.
  rewrite Hab2. simpl bind. rewrite Hf2. simpl bind.
  eexists. split; [reflexivity |].
  rewrite (@view_like_rows _ n (map (selected_dist self) batch) flat2 Hsel),
    length_map.
  apply Forall2_map_seq. intros i tr Hi. simpl Nat.add.
  unfold spec_proj_row. fold n.
  assert (Hib : (i < length batch)%nat).
  { apply nth_error_Some. congruence. }
  apply block_Forall2.
  - rewrite Hlen2. nia.
  - intros m Hm. rewrite (Hnth i m Hm).
    unfold idx1, idx2, src1, src2. rewrite !nth_error_map, Hi. simpl.
    reflexivity.
Qed.


(** The two shares of a source mass add up to it. *)
Lemma split_mass (f g : Q -> Q) (dist bs : list Q) :
  length dist = length bs ->
  (forall b, In b bs -> f b + g b == 1) ->
  Qsum (map2 Qmult dist (map f bs)) + Qsum (map2 Qmult dist (map g bs))
  == Qsum dist.
Proof.
  unfold map2. revert bs. induction dist as [| p dist IH];
    intros [| b bs] Hlen H; simpl in Hlen; try discriminate; simpl.
  - ring.
  - specialize (IH bs (eq_add_S _ _ Hlen)
                  (fun b' Hb' => H b' (or_intror Hb'))).
    pose proof (H b (or_introl eq_refl)) as Hb.
    setoid_replace (p * f b + Qsum (map (fun q => fst q * snd q)
                                      (combine dist (map f bs)))
                    + (p * g b + Qsum (map (fun q => fst q * snd q)
                                         (combine dist (map g bs)))))
      with (p * (f b + g b)
            + (Qsum (map (fun q => fst q * snd q) (combine dist (map f bs)))
               + Qsum (map (fun q => fst q * snd q)
                         (combine dist (map g bs))))) by ring.
    rewrite IH, Hb. ring.
Qed.

(** The projection of the specification conserves mass. *)
Lemma spec_proj_row_mass (self : RainbowDQN) (dist bs : list Q) :
  well_formed self ->
  length dist = Z.to_nat (num_atoms self) ->
  length bs = Z.to_nat (num_atoms self) ->
  (forall b, In b bs -> 0 <= b /\ b <= inject_Z (num_atoms self - 1)) ->
  Qsum (spec_proj_row self dist bs) == Qsum dist.
Proof.
  intros Hwf Hd Hb Hr. pose proof Hwf as (_ & HN & _).
  unfold spec_proj_row.
  rewrite (Qsum_map_plus
             (fun m => sum_where (map lower bs)
                         (map2 Qmult dist
                            (map (fun b => inject_Z (upper self b) - b) bs))
                         (Z.of_nat m))
             (fun m => sum_where (map (upper self) bs)
                         (map2 Qmult dist
                            (map (fun b => b - inject_Z (lower b)) bs))
                         (Z.of_nat m))).
  rewrite !sum_placestotal.
  - apply split_mass; [congruence |].
    intros b Hin. destruct (Hr b Hin) as (H0 & H1).
    destruct (lower_upper_spec self HN H0 H1) as (_ & _ & ->).
    rewrite inject_Z_plus. ring.
  - rewrite map2_length, !length_map, Hd, Hb. now rewrite Nat.min_id.
  - apply Forall_map, Forall_forall. intros b Hin.
    destruct (Hr b Hin) as (H0 & H1).
    destruct (lower_upper_spec self HN H0 H1) as (A & B & C). lia.
  - rewrite map2_length, !length_map, Hd, Hb. now rewrite Nat.min_id.
  - apply Forall_map, Forall_forall. intros b Hin.
    destruct (Hr b Hin) as (H0 & H1).
    destruct (lower_upper_spec self HN H0 H1) as (A & B & C). lia.
Qed.

Lemma Forall2_nth_error_both (A B : Type) (R : A -> B -> Prop)
    (a : list A) (b : list B) (i : nat) (x : A) (y : B) :
  Forall2 R a b -> nth_error a i = Some x -> nth_error b i = Some y ->
  R x y.
Proof.
  intros H. revert i. induction H as [| x' y' a b Hxy _ IH];
    intros [| i] Ha Hb; simpl in Ha, Hb; try discriminate.
  - congruence.
  - eapply IH; eassumption.
Qed.

(** C1 (mass conservation of the categorical projection).  For an agent
    with a support of positive width, networks that honour the
    approximator contract and a batch of [batch_size] transitions -
    whatever their rewards, done flags and the effective discount - the
    projected distribution is computed without error and each of its
    rows has the total mass of the target distribution it projects,
    which is 1.  Bins that land exactly on an atom are included: nothing
    is assumed about [b]. *)
Theorem projection_conserves_mass (self : RainbowDQN) (n_act : nat)
    (batch : list (Transition State)) (gamma_ : Q) :
  well_formed self -> approximator_contract self n_act ->
  length batch = Z.to_nat (batch_size self) ->
  exists p,
    proj_dist forward_q forward_dist preprocess_observation self batch gamma_
    = Ok p
    /\ length p = length batch
    /\ forall i row tr,
         nth_error p i = Some row -> nth_error batch i = Some tr ->
         Qsum row == Qsum (selected_dist self tr) /\ Qsum row == 1.
Proof.
  intros Hwf Hc Hlen.
  destruct (@proj_dist_aligned self n_act batch gamma_ Hwf Hc Hlen)
    as (p & Hp & HF).
  exists p. split; [exact Hp |]. split; [exact (Forall2_length HF) |].
  intros i row tr Hi Ht.
  pose proof (Forall2_nth_error_both _ HF Hi Ht) as Hrow.
  destruct (selected_dist_ok tr Hc) as (Hd & H1).
  assert (Hm : Qsum row == Qsum (selected_dist self tr)).
  { rewrite (Qsum_Forall2 Hrow).
    apply spec_proj_row_mass; [exact Hwf | exact Hd | |].
    - now apply atom_bins_length.
    - intros b Hb. now apply (atom_bins_range gamma_ tr). }
  split; [exact Hm | now rewrite Hm].
Qed.

(** C6 (double-Q selection).  For a batch of [batch_size] transitions the
    next actions are the arg-max of the online network's expected values
    at the next states, and row [i] of the distribution taken from the
    target network is the one of that action - also where the target
    network's own arg-max is another action. *)
Theorem double_q_selection (self : RainbowDQN) (n_act : nat)
    (batch : list (Transition State)) :
  approximator_contract self n_act ->
  length batch = Z.to_nat (batch_size self) ->
  next_actions forward_q preprocess_observation self batch
  = map (fun tr =>
           argmax (forward_q (actor self)
                     (preprocess_observation (next_state tr)))) batch
  /\ exists dists,
       target_q_dist forward_q forward_dist preprocess_observation self batch
       = Ok dists
       /\ forall i tr,
            nth_error batch i = Some tr ->
            nth_error dists i
            = Some (nth (online_choice self tr)
                      (forward_dist (actor_target self)
                         (preprocess_observation (next_state tr))) [])
            /\ (target_choice self tr <> online_choice self tr ->
                nth_error dists i = Some (selected_dist self tr)).
Proof.
  intros Hc Hlen. split; [reflexivity |].
  exists (map (selected_dist self) batch).
  split; [exact (target_q_dist_aligned batch Hc Hlen) |].
  intros i tr Hi.
  assert (Hsel : nth_error (map (selected_dist self) batch) i
                 = Some (selected_dist self tr)).
  { now rewrite nth_error_map, Hi. }
  split; [exact Hsel | intros _; exact Hsel].
Qed.

(** *** The loss and the number of rows of the batch *)

Lemma Qsum_map2_Qeq (a a' g : list Q) :
  Forall2 Qeq a a' ->
  Qsum (map2 Qmult a g) == Qsum (map2 Qmult a' g).
Proof.
  unfold map2. intros H. revert g.
  induction H as [| x y a a' Hxy _ IH]; intros [| z g]; simpl;
    try reflexivity.
  now rewrite Hxy, IH.
Qed.

Lemma Qsum_map2_zero (a g : list Q) :
  Forall (Qeq 0) a -> Qsum (map2 Qmult a g) == 0.
Proof.
  unfold map2. intros H. revert g.
  induction H as [| x a Hx _ IH]; intros [| z g]; simpl; try reflexivity.
  rewrite <- Hx, IH. ring.
Qed.

Lemma selected_log_p_bound (self : RainbowDQN) (n_act : nat)
    (s : State) (a : nat) :
  approximator_contract self n_act -> (a < n_act)%nat ->
  (a < length (forward_log_dist (actor self) s))%nat.
Proof.
  intros (_ & Hc) Ha. destruct (Hc s) as (_ & _ & _ & Hl & _). lia.
Qed.

(** With as many rows as [batch_size], [_dqn_loss] returns the
    cross-entropy of the specification for every row. *)
Lemma dqn_loss_aligned (self : RainbowDQN) (n_act : nat)
    (batch : list (Transition State)) (gamma_ : Q) :
  well_formed self -> approximator_contract self n_act ->
  Forall (fun tr => (action tr < n_act)%nat) batch ->
  length batch = Z.to_nat (batch_size self) ->
  exists out,
    _dqn_loss forward_q forward_dist forward_log_dist
      preprocess_observation self batch gamma_ = Ok out
    /\ Forall2 (fun l tr => l == spec_loss_row self gamma_ tr) out batch.
Proof.
  intros Hwf Hc Hact Hlen. unfold _dqn_loss.
  destruct (@proj_dist_aligned self n_act batch gamma_ Hwf Hc Hlen)
    as (p & Hp & HF).
  rewrite Hp. simpl bind. rewrite <- Hlen.
  rewrite (adv_index_aligned
             (fun tr => forward_log_dist (actor self)
                          (preprocess_observation (state tr)))
             (@action State) []).
  2:{ intros tr Hin. rewrite Forall_forall in Hact.
      apply (selected_log_p_bound _ Hc). now apply Hact. }
  simpl bind. eexists. split; [reflexivity |].
  fold (selected_log_p self) in *.
  change (fun x : Transition State =>
            nth (action x)
              (forward_log_dist (actor self)
                 (preprocess_observation (state x))) [])
    with (selected_log_p self).
  clear Hp Hlen Hact. unfold spec_loss_row.
  induction HF as [| row tr p batch Hrow _ IH]; simpl.
  - constructor.
  - constructor; [| exact IH].
    unfold map2 at 1. simpl.
    apply Qopp_comp.
    exact (Qsum_map2_Qeq (selected_log_p self tr) Hrow).
Qed.

(** With two or more rows expected and another number supplied, the
    indexing by [range(self.batch_size)] raises. *)
Lemma dqn_loss_mismatch (self : RainbowDQN)
    (batch : list (Transition State)) (gamma_ : Q) :
  (2 <= batch_size self)%Z ->
  length batch <> Z.to_nat (batch_size self) ->
  _dqn_loss forward_q forward_dist forward_log_dist
    preprocess_observation self batch gamma_ = Raise IndexError.
Proof.
  intros Hn Hlen. unfold _dqn_loss, proj_dist, target_q_dist, next_actions.
  rewrite (adv_index_mismatch
             (fun tr => forward_dist (actor_target self)
                          (preprocess_observation (next_state tr)))
             (fun tr => argmax (forward_q (actor self)
                                  (preprocess_observation (next_state tr)))));
    [reflexivity | lia | exact Hlen].
Qed.

(** *** A batch size of one *)

Lemma add_broadcast_row (a : list (list Z)) (r : list Z) :
  add_broadcast a [r] = Ok (map (fun x => map2 Z.add x r) a).
Proof. destruct a as [| x [| y a]]; reflexivity. Qed.

Lemma unshifted_rows (n : nat) (idx : list (list Z)) (src : list (list Q)) :
  Forall2 (block_ok n) idx src ->
  length (concat (map (fun x => map2 Z.add x (repeat 0%Z n)) idx))
  = length (concat src)
  /\ Forall (fun j => 0 <= j < Z.of_nat n)%Z
       (concat (map (fun x => map2 Z.add x (repeat 0%Z n)) idx)).
Proof.
  induction 1 as [| a b idx src (Ha & Hb & Hr) _ (IHl & IHr)]; simpl.
  - split; [reflexivity | constructor].
  - rewrite map2_add_repeat by exact Ha. split.
    + rewrite !length_app, length_map, IHl. lia.
    + apply Forall_app. split; [| exact IHr].
      apply Forall_map. eapply Forall_impl; [| exact Hr].
      intros j Hj. cbv beta in Hj |- *. lia.
Qed.

(** Without an offset every row is scattered into the first block of the
    flat tensor; the other blocks are left as they were. *)
Lemma scatter_into_row0 (n : nat) (idx : list (list Z))
    (src : list (list Q)) (flat : list Q) :
  Forall2 (block_ok n) idx src ->
  (length idx * n <= length flat)%nat ->
  exists out,
    index_add_ flat
      (concat (map (fun x => map2 Z.add x (repeat 0%Z n)) idx))
      (concat src) = Ok out
    /\ length out = length flat
    /\ forall j, (n <= j)%nat -> nth j out 0 == nth j flat 0.
Proof.
  intros H Hlen. destruct (unshifted_rows H) as (Hl & Hr).
  destruct (@index_add_spec
              (concat (map (fun x => map2 Z.add x (repeat 0%Z n)) idx))
              (concat src) flat Hl) as (out & Ho & Hlo & Hn).
  { destruct idx as [| a idx]; [constructor |].
    eapply Forall_impl; [| exact Hr]. intros j Hj. cbv beta in Hj |- *.
    simpl in Hlen. lia. }
  exists out. split; [exact Ho |]. split; [exact Hlo |].
  intros j Hj. rewrite Hn, sum_placesmiss; [ring |].
  intros i Hi. rewrite Forall_forall in Hr. specialize (Hr i Hi). lia.
Qed.

Lemma offset_single (self : RainbowDQN) :
  well_formed self -> batch_size self = 1%Z ->
  offset self = [repeat 0%Z (Z.to_nat (num_atoms self))].
Proof.
  intros Hwf H1. rewrite (offset_rows Hwf), H1. reflexivity.
Qed.

(** With [batch_size = 1] a batch of any number of rows goes through
    without an error, but every row reads the networks' output for the
    first row and is scattered into the first row of the projection: the
    rows after the first stay zero. *)
Lemma proj_dist_single (self : RainbowDQN) (n_act : nat)
    (batch : list (Transition State)) (gamma_ : Q) :
  well_formed self -> approximator_contract self n_act ->
  batch_size self = 1%Z ->
  exists p,
    proj_dist forward_q forward_dist preprocess_observation self batch gamma_
    = Ok p
    /\ length p = length batch
    /\ forall i row,
         (1 <= i)%nat -> nth_error p i = Some row -> Forall (Qeq 0) row.
Proof.
  intros Hwf Hc H1. unfold proj_dist, target_q_dist, next_actions.
  rewrite (offset_single Hwf H1), H1.
  change (seq 0 (Z.to_nat 1)) with [0%nat].
  destruct batch as [| tr0 rest].
  { exists []. split; [reflexivity |]. split; [reflexivity |].
    intros [| i] row _ Hrow; discriminate Hrow. }
  rewrite (adv_index_row0
             (fun tr => forward_dist (actor_target self)
                          (preprocess_observation (next_state tr)))
             (fun tr => argmax (forward_q (actor self)
                                  (preprocess_observation (next_state tr))))
             []).
  2:{ intros tr _. destruct Hc as (Hn & Hc).
      destruct (Hc (preprocess_observation (next_state tr))) as (Hq & _).
      destruct (Hc (preprocess_observation (next_state tr0)))
        as (_ & Hd & _).
      rewrite Hd, <- Hq. apply argmax_bound.
      intros E. rewrite E in Hq. simpl in Hq. lia. }
  assert (Hne : (1 <= length (tr0 :: rest))%nat) by (simpl; lia).
  remember (tr0 :: rest) as batch eqn:Hbatch. clear Hbatch.
  set (fd0 := forward_dist (actor_target self)
                (preprocess_observation (next_state tr0))).
  rewrite bind_ok. cbv beta.
  set (sel0 := fun tr : Transition State =>
                 nth (argmax (forward_q (actor self)
                                (preprocess_observation (next_state tr))))
                   fd0 []).
  set (n := Z.to_nat (num_atoms self)).
  assert (Hsel0 : forall tr, length (sel0 tr) = n).
  { intros tr. unfold sel0. destruct Hc as (Hn & Hc).
    destruct (Hc (preprocess_observation (next_state tr))) as (Hq & _).
    destruct (Hc (preprocess_observation (next_state tr0)))
      as (_ & Hd & Hall & _).
    fold fd0 in Hd, Hall. rewrite Forall_forall in Hall.
    apply Hall. apply nth_In. rewrite Hd, <- Hq. apply argmax_bound.
    intros E. rewrite E in Hq. simpl in Hq. lia. }
  rewrite bins_of_t_z, !map_map, !map2_map_map, !add_broadcast_row.
  rewrite bind_ok. cbv beta.
  set (idx1 := map (fun tr => map lower (atom_bins self gamma_ tr)) batch).
  set (idx2 := map (fun tr => map (upper self) (atom_bins self gamma_ tr))
                 batch).
  set (src1 := map (fun tr =>
                      map2 Qmult (sel0 tr)
                        (map (fun b => inject_Z (upper self b) - b)
                           (atom_bins self gamma_ tr))) batch).
  set (src2 := map (fun tr =>
                      map2 Qmult (sel0 tr)
                        (map (fun b => b - inject_Z (lower b))
                           (atom_bins self gamma_ tr))) batch).
  assert (Hb1 : Forall2 (block_ok n) idx1 src1).
  { apply Forall2_map_same. intros tr _.
    apply lower_block_ok; [exact Hwf | apply Hsel0]. }
  assert (Hb2 : Forall2 (block_ok n) idx2 src2).
  { apply Forall2_map_same. intros tr _.
    apply upper_block_ok; [exact Hwf | apply Hsel0]. }
  assert (Hshape : forall r, In r (map sel0 batch) -> length r = n).
  { intros r Hr. apply in_map_iff in Hr. destruct Hr as (tr & <- & _).
    apply Hsel0. }
  assert (Hzero : length (concat (map sel0 batch)) = (length batch * n)%nat).
  { clear - Hshape. induction batch as [| tr l IH]; [reflexivity |].
    simpl. rewrite length_app, IH.
    - rewrite (Hshape (sel0 tr)) by now left. reflexivity.
    - intros r Hr. apply Hshape. now right. }
  rewrite Hzero.
  destruct (@scatter_into_row0 n idx1 src1 (repeat 0 (length batch * n)) Hb1)
    as (flat1 & Hf1 & Hl1 & Hn1).
  { unfold idx1. rewrite length_map, repeat_length. lia. }
  rewrite Hf1, !bind_ok. cbv beta.
  destruct (@scatter_into_row0 n idx2 src2 flat1 Hb2)
    as (flat2 & Hf2 & Hl2 & Hn2).
  { unfold idx2. rewrite length_map, Hl1, repeat_length. lia. }
  rewrite Hf2, bind_ok. cbv beta.
  eexists. split; [reflexivity |].
  rewrite (@view_like_rows _ n (map sel0 batch) flat2 Hshape).
  rewrite !length_map, length_seq. split; [reflexivity |].
  intros i row Hi Hrow. rewrite nth_error_map, nth_error_seq in Hrow.
  destruct (Nat.ltb_spec i (length batch)) as [Hib | Hib];
    [| discriminate Hrow].
  simpl in Hrow. injection Hrow as <-.
  apply Forall_forall. intros x Hx.
  apply (In_nth _ _ 0) in Hx. destruct Hx as (m & Hm & <-).
  rewrite length_firstn, length_skipn in Hm.
  rewrite nth_firstn, nth_skipn.
  destruct (Nat.ltb_spec m n) as [Hmn | Hmn]; [| lia].
  assert (Hj : (n <= i * n + m)%nat) by nia.
  rewrite (Hn2 _ Hj), (Hn1 _ Hj), nth_repeat. reflexivity.
Qed.

Lemma map2_nth_error_inv (A B C : Type) (f : A -> B -> C) (a : list A)
    (b : list B) (i : nat) (z : C) :
  nth_error (map2 f a b) i = Some z ->
  exists x y, nth_error a i = Some x /\ nth_error b i = Some y /\ z = f x y.
Proof.
  unfold map2. revert b i. induction a as [| x a IH]; intros [| y b] [| i] H;
    simpl in H; try discriminate.
  - injection H as <-. exists x, y. repeat split.
  - exact (IH b i H).
Qed.

Lemma dqn_loss_single (self : RainbowDQN) (n_act : nat)
    (batch : list (Transition State)) (gamma_ : Q) :
  well_formed self -> approximator_contract self n_act ->
  Forall (fun tr => (action tr < n_act)%nat) batch ->
  batch_size self = 1%Z ->
  exists out,
    _dqn_loss forward_q forward_dist forward_log_dist
      preprocess_observation self batch gamma_ = Ok out
    /\ length out = length batch
    /\ forall i l, (1 <= i)%nat -> nth_error out i = Some l -> l == 0.
Proof.
  intros Hwf Hc Hact H1. unfold _dqn_loss.
  destruct (@proj_dist_single self n_act batch gamma_ Hwf Hc H1)
    as (p & Hp & Hlen & Hrows).
  rewrite Hp, H1, bind_ok. cbv beta.
  change (seq 0 (Z.to_nat 1)) with [0%nat].
  destruct batch as [| tr0 rest].
  { destruct p; [| discriminate Hlen].
    exists []. split; [reflexivity |]. split; [reflexivity |].
    intros [| i] l _ Hl; discriminate Hl. }
  rewrite (adv_index_row0
             (fun tr => forward_log_dist (actor self)
                          (preprocess_observation (state tr)))
             (@action State) []).
  2:{ intros tr Hin. rewrite Forall_forall in Hact.
      apply (selected_log_p_bound _ Hc). now apply Hact. }
  remember (tr0 :: rest) as batch eqn:Hbatch. clear Hbatch.
  rewrite bind_ok. cbv beta. eexists. split; [reflexivity |]. split.
  { rewrite length_map, map2_length, length_map, Hlen. apply Nat.min_id. }
  intros i l Hi Hl. rewrite nth_error_map in Hl.
  destruct (nth_error (map2 (map2 Qmult) p _) i) as [prod |] eqn:E;
    [| discriminate Hl].
  simpl in Hl. injection Hl as <-.
  apply map2_nth_error_inv in E. destruct E as (row & lp & Hrow & _ & ->).
  rewrite (Qsum_map2_zero lp (Hrows i row Hi Hrow)). reflexivity.
Qed.

(** C9 (the batch must have [batch_size] rows).  [_dqn_loss] indexes the
    networks' outputs with [range(self.batch_size)] and builds its offset
    grid from [self.batch_size].  With exactly [batch_size] rows it
    returns the loss of the specification for every row.  With another
    number of rows it raises [IndexError] when [batch_size >= 2]; when
    [batch_size = 1] it raises nothing and returns a loss of zero for
    every row after the first, all the mass having been scattered into
    the first row. *)
Theorem batch_size_precondition (self : RainbowDQN) (n_act : nat)
    (batch : list (Transition State)) (gamma_ : Q) :
  well_formed self -> approximator_contract self n_act ->
  Forall (fun tr => (action tr < n_act)%nat) batch ->
  (length batch = Z.to_nat (batch_size self) ->
   exists out,
     _dqn_loss forward_q forward_dist forward_log_dist
       preprocess_observation self batch gamma_ = Ok out
     /\ Forall2 (fun l tr => l == spec_loss_row self gamma_ tr) out batch)
  /\ (length batch <> Z.to_nat (batch_size self) ->
      (batch_size self <> 1%Z ->
       _dqn_loss forward_q forward_dist forward_log_dist
         preprocess_observation self batch gamma_ = Raise IndexError)
      /\ (batch_size self = 1%Z ->
          exists out,
            _dqn_loss forward_q forward_dist forward_log_dist
              preprocess_observation self batch gamma_ = Ok out
            /\ length out = length batch
            /\ forall i l,
                 (1 <= i)%nat -> nth_error out i = Some l -> l == 0)).
Proof.
  intros Hwf Hc Hact. split; [| split].
  - intros Hlen. exact (dqn_loss_aligned gamma_ Hwf Hc Hact Hlen).
  - intros Hne. apply dqn_loss_mismatch; [| assumption].
    destruct Hwf as (Hb & _). lia.
  - intros H1. exact (dqn_loss_single gamma_ Hwf Hc Hact H1).
Qed.

(** *** Blending of the one-step and the n-step loss *)

Lemma iadd_same_length (a b : list Q) :
  length a = length b -> iadd a b = Ok (map2 Qplus a b).
Proof. intros H. unfold iadd. now rewrite H, Nat.eqb_refl. Qed.

(** C8 (loss blending).  When an n-step batch is supplied (both batches
    of [batch_size] rows): with [combined_reward] the loss of transition
    [i] is the one-step loss of row [i], computed with [gamma], plus the
    n-step loss of row [i], computed with [gamma ^ n_step], and the
    batch mean (weighted or not) is taken over these sums; without
    [combined_reward] it is the n-step loss alone. *)
Theorem loss_blending (self : RainbowDQN) (n_act : nat)
    (one_step n_batch : list (Transition State)) (idxs : list Z)
    (weights : list Q) :
  well_formed self -> approximator_contract self n_act ->
  Forall (fun tr => (action tr < n_act)%nat) one_step ->
  Forall (fun tr => (action tr < n_act)%nat) n_batch ->
  length one_step = Z.to_nat (batch_size self) ->
  length n_batch = Z.to_nat (batch_size self) ->
  exists l1 ln,
    _dqn_loss forward_q forward_dist forward_log_dist
      preprocess_observation self one_step (gamma self) = Ok l1
    /\ _dqn_loss forward_q forward_dist forward_log_dist
         preprocess_observation self n_batch (gamma self ^ n_step self)
       = Ok ln
    /\ Forall2 (fun l tr => l == spec_loss_row self (gamma self) tr)
         l1 one_step
    /\ Forall2
         (fun l tr => l == spec_loss_row self (gamma self ^ n_step self) tr)
         ln n_batch
    /\ (combined_reward self = true ->
        elementwise_loss forward_q forward_dist forward_log_dist
          preprocess_observation self one_step (Some n_batch)
        = Ok (map2 Qplus l1 ln)
        /\ (forall i a b,
              nth_error l1 i = Some a -> nth_error ln i = Some b ->
              nth_error (map2 Qplus l1 ln) i = Some (a + b))
        /\ learn forward_q forward_dist forward_log_dist
             preprocess_observation self (Exp11 one_step idxs n_batch)
             true false
           = Ok (mean (map2 Qplus l1 ln), Some idxs, None)
        /\ learn forward_q forward_dist forward_log_dist
             preprocess_observation self
             (Exp12 one_step weights idxs n_batch) true true
           = Ok (mean (map2 Qmult (map2 Qplus l1 ln) weights), Some idxs,
                 Some (map (fun x => x + prior_eps self)
                         (map2 Qplus l1 ln))))
    /\ (combined_reward self = false ->
        elementwise_loss forward_q forward_dist forward_log_dist
          preprocess_observation self one_step (Some n_batch)
        = Ok ln
        /\ learn forward_q forward_dist forward_log_dist
             preprocess_observation self (Exp11 one_step idxs n_batch)
             true false
           = Ok (mean ln, Some idxs, None)
        /\ learn forward_q forward_dist forward_log_dist
             preprocess_observation self
             (Exp12 one_step weights idxs n_batch) true true
           = Ok (mean (map2 Qmult ln weights), Some idxs,
                 Some (map (fun x => x + prior_eps self) ln))).
Proof.
  intros Hwf Hc Ha1 Han Hl1 Hln.
  destruct (dqn_loss_aligned (gamma self) Hwf Hc Ha1 Hl1) as (l1 & E1 & F1).
  destruct (dqn_loss_aligned (gamma self ^ n_step self) Hwf Hc Han Hln)
    as (ln & En & Fn).
  exists l1, ln. split; [exact E1 |]. split; [exact En |].
  split; [exact F1 |]. split; [exact Fn |].
  assert (Hlen : length l1 = length ln).
  { rewrite (Forall2_length F1), (Forall2_length Fn). congruence. }
  split; intros Hcomb.
  - assert (Hel : elementwise_loss forward_q forward_dist forward_log_dist
                    preprocess_observation self one_step (Some n_batch)
                  = Ok (map2 Qplus l1 ln)).
    { unfold elementwise_loss. rewrite Hcomb, E1, En, !bind_ok.
      now apply iadd_same_length. }
    split; [exact Hel |]. split.
    + intros i a b Hi Hb. now apply (map2_nth_error Qplus).
    + unfold learn. rewrite Hel. split; reflexivity.
  - assert (Hel : elementwise_loss forward_q forward_dist forward_log_dist
                    preprocess_observation self one_step (Some n_batch)
                  = Ok ln).
    { unfold elementwise_loss. now rewrite Hcomb, En. }
    split; [exact Hel |].
    unfold learn. rewrite Hel. split; reflexivity.
Qed.

End Loss.

(** *** The projection scenario of the specification *)

Lemma Qeq_list_bool_sound (a b : list Q) :
  Qeq_list_bool a b = true -> Forall2 Qeq a b.
Proof.
  revert b. induction a as [| x a IH]; intros [| y b] H; simpl in H;
    try discriminate; constructor.
  - apply Qeq_bool_iff. now destruct (Qeq_bool x y).
  - apply IH. now destruct (Qeq_bool x y).
Qed.

Lemma check_single_row (r : res (list (list Q))) (expected : list Q) :
  match r with
  | Ok [p] => Qeq_list_bool p expected
  | _ => false
  end = true ->
  exists p, r = Ok [p] /\ Forall2 Qeq p expected.
Proof.
  destruct r as [[| p [| q rest]] | e]; try discriminate.
  intros H. exists p. split; [reflexivity |].
  now apply Qeq_list_bool_sound.
Qed.

(** C5 (the concrete projection scenario).  [v_min = -10], [v_max = 10],
    51 atoms: [delta_z = 0.4] and the atom of index 25 is 0.  For reward
    1, effective discount 1, done 0 and a target distribution one-hot at
    index 25: [t_z = 1], [b = 27.5], [L = 27], [u = 28], and the
    projected row is 0.5 at 27 and 28 and zero elsewhere. *)
Theorem projection_scenario :
  exists self,
    scenario_agent = Ok self
    /\ delta_z self == 4 # 10
    /\ (exists z, nth_error (support self) 25 = Some z /\ z == 0)
    /\ (exists row t,
          t_z self scenario_batch 1 = [row]
          /\ nth_error row 25 = Some t
          /\ t == 1
          /\ bin self t == 275 # 10
          /\ lower (bin self t) = 27%Z
          /\ upper self (bin self t) = 28%Z)
    /\ exists p,
         proj_dist scenario_q scenario_dist (fun s => s) self
           scenario_batch 1 = Ok [p]
         /\ Forall2 Qeq p (repeat 0 27 ++ [1 # 2; 1 # 2] ++ repeat 0 22).
Proof.
  eexists. split; [reflexivity |].
  split; [reflexivity |].
  split.
  { eexists. split; [reflexivity |]. reflexivity. }
  split.
  { eexists. eexists. split; [reflexivity |].
    split; [reflexivity |].
    split; [reflexivity |].
    split; [reflexivity |].
    split; reflexivity. }
  apply check_single_row. vm_compute. reflexivity.
Qed.

(** *** A small agent: three atoms on [-1, 1], two actions *)

(** The hyperparameters of [toy_agent] are those the constructor
    computes. *)
Lemma toy_agent_constructed :
  exists self,
    __init__ 2 (1 # 10000) (99 # 100) (1 # 1000) (1 # 1000000) 3 (- (1)) 1 3
      false toy_online = Ok self
    /\ set_actor_target self toy_target = toy_agent 2 (1 # 1000) false.
Proof. eexists. split; reflexivity. Qed.

Lemma toy_well_formed (batch_size : Z) (tau : Q) (combined_reward : bool) :
  (1 <= batch_size)%Z ->
  well_formed (toy_agent batch_size tau combined_reward).
Proof.
  intros H. unfold well_formed. simpl.
  split; [exact H |]. split; [lia |]. split; [reflexivity |].
  split; reflexivity.
Qed.

Lemma toy_contract (batch_size : Z) (tau : Q) (combined_reward : bool) :
  approximator_contract toy_q toy_dist toy_log_dist
    (toy_agent batch_size tau combined_reward) 2.
Proof.
  split; [lia |]. intros s. simpl.
  split; [reflexivity |].
  destruct s as [| s]; simpl.
  - split; [reflexivity |]. split.
    + repeat constructor.
    + split; [reflexivity | repeat constructor].
  - split; [reflexivity |]. split.
    + repeat constructor.
    + split; [reflexivity | repeat constructor].
Qed.

Lemma bins_on_atoms :
  let self := toy_agent 4 (1 # 1000) false in
  Qeq_list_bool (atom_bins self (99 # 100) tr_interior) [1; 1; 1] = true
  /\ Qeq_list_bool (atom_bins self (99 # 100) tr_first) [0; 0; 0] = true
  /\ Qeq_list_bool (atom_bins self (99 # 100) tr_last) [2; 2; 2] = true
  /\ map lower (atom_bins self (99 # 100) tr_interior) = [0; 0; 0]%Z
  /\ map (upper self) (atom_bins self (99 # 100) tr_interior) = [1; 1; 1]%Z
  /\ map lower (atom_bins self (99 # 100) tr_first) = [0; 0; 0]%Z
  /\ map (upper self) (atom_bins self (99 # 100) tr_first) = [1; 1; 1]%Z
  /\ map lower (atom_bins self (99 # 100) tr_last) = [1; 1; 1]%Z
  /\ map (upper self) (atom_bins self (99 # 100) tr_last) = [2; 2; 2]%Z.
Proof. vm_compute. repeat split. Qed.

Lemma projection_conserves_mass_on_atoms :
  exists p,
    proj_dist toy_q toy_dist (fun s => s) (toy_agent 4 (1 # 1000) false)
      [tr_fraction; tr_interior; tr_first; tr_last] (99 # 100) = Ok p
    /\ length p = 4%nat
    /\ forall i row tr,
         nth_error p i = Some row ->
         nth_error [tr_fraction; tr_interior; tr_first; tr_last] i
         = Some tr ->
         Qsum row
         == Qsum (selected_dist toy_q toy_dist (fun s => s)
                    (toy_agent 4 (1 # 1000) false) tr)
         /\ Qsum row == 1.
Proof.
  apply (@projection_conserves_mass nat toy_q toy_dist toy_log_dist
           (fun s => s) (toy_agent 4 (1 # 1000) false) 2
           [tr_fraction; tr_interior; tr_first; tr_last] (99 # 100)).
  - apply toy_well_formed. lia.
  - apply toy_contract.
  - reflexivity.
Defined.

Lemma double_q_selection_when_choices_differ :
  exists dists,
    target_q_dist toy_q toy_dist (fun s => s)
      (toy_agent 2 (1 # 1000) false) [tr_fraction; tr_interior] = Ok dists
    /\ target_choice toy_q (fun s => s) (toy_agent 2 (1 # 1000) false)
         tr_fraction = 0%nat
    /\ online_choice toy_q (fun s => s) (toy_agent 2 (1 # 1000) false)
         tr_fraction = 1%nat
    /\ nth_error dists 0 = Some [0; 1 # 3; 2 # 3].
Proof.
  destruct (@double_q_selection nat toy_q toy_dist toy_log_dist
              (fun s => s) (toy_agent 2 (1 # 1000) false) 2
              [tr_fraction; tr_interior]
              (toy_contract 2 (1 # 1000) false) eq_refl)
    as (_ & dists & Hd & Hall).
  exists dists. split; [exact Hd |].
  split; [reflexivity |]. split; [reflexivity |].
  destruct (Hall 0%nat tr_fraction eq_refl) as (_ & Hsel).
  rewrite Hsel; [reflexivity |]. vm_compute. discriminate.
Defined.

Lemma soft_update_law_witness :
  Forall2 (Forall2 Qeq)
    (parameters (actor_target (soft_update (toy_agent 2 1 false))))
    (parameters (actor (toy_agent 2 1 false)))
  /\ Forall2 (Forall2 Qeq)
       (parameters (actor_target (soft_update (toy_agent 2 0 false))))
       (parameters (actor_target (toy_agent 2 0 false))).
Proof.
  split.
  - apply (proj2 (proj2 (proj2 (soft_update_law (toy_agent 2 1 false))))).
    + repeat constructor.
    + reflexivity.
  - apply (proj2 (proj2 (proj2 (soft_update_law (toy_agent 2 0 false))))).
    + repeat constructor.
    + reflexivity.
Defined.

Lemma loss_blending_witness :
  exists l1 ln,
    _dqn_loss toy_q toy_dist toy_log_dist (fun s => s)
      (toy_agent 2 (1 # 1000) true) [tr_fraction; tr_interior] (99 # 100)
    = Ok l1
    /\ _dqn_loss toy_q toy_dist toy_log_dist (fun s => s)
         (toy_agent 2 (1 # 1000) true) [tr_first; tr_last]
         ((99 # 100) ^ 3) = Ok ln
    /\ elementwise_loss toy_q toy_dist toy_log_dist (fun s => s)
         (toy_agent 2 (1 # 1000) true) [tr_fraction; tr_interior]
         (Some [tr_first; tr_last])
       = Ok (map2 Qplus l1 ln).
Proof.
  destruct (@loss_blending nat toy_q toy_dist toy_log_dist (fun s => s)
              (toy_agent 2 (1 # 1000) true) 2
              [tr_fraction; tr_interior] [tr_first; tr_last] [0; 1]%Z
              [1; 1])
    as (l1 & ln & E1 & En & _ & _ & Hc & _).
  - apply toy_well_formed. lia.
  - apply toy_contract.
  - repeat constructor.
  - repeat constructor.
  - reflexivity.
  - reflexivity.
  - exists l1, ln. split; [exact E1 |]. split; [exact En |].
    apply Hc. reflexivity.
Defined.

(** With [batch_size = 1] and two rows nothing is raised; the second row
    gets the loss 0, although its loss by the specification is not 0. *)
Lemma batch_size_precondition_witness :
  exists out,
    _dqn_loss toy_q toy_dist toy_log_dist (fun s => s)
      (toy_agent 1 (1 # 1000) false) [tr_fraction; tr_interior] (99 # 100)
    = Ok out
    /\ length out = 2%nat
    /\ (forall i l, (1 <= i)%nat -> nth_error out i = Some l -> l == 0)
    /\ ~ spec_loss_row toy_q toy_dist toy_log_dist (fun s => s)
           (toy_agent 1 (1 # 1000) false) (99 # 100) tr_interior == 0.
Proof.
  destruct (@batch_size_precondition nat toy_q toy_dist toy_log_dist
              (fun s => s) (toy_agent 1 (1 # 1000) false) 2
              [tr_fraction; tr_interior] (99 # 100))
    as (_ & Hother).
  - apply toy_well_formed. lia.
  - apply toy_contract.
  - repeat constructor.
  - destruct Hother as (_ & Hone); [simpl; lia |].
    destruct (Hone eq_refl) as (out & Ho & Hl & Hz).
    exists out. split; [exact Ho |]. split; [exact Hl |].
    split; [exact Hz |].
    vm_compute. discriminate.
Defined.

(** The same call, evaluated: the first row of the projection carries the
    mass of both transitions, the second none. *)
Lemma batch_size_one_scatters_into_first_row :
  match
    proj_dist toy_q toy_dist (fun s => s) (toy_agent 1 (1 # 1000) false)
      [tr_fraction; tr_interior] (99 # 100)
  with
  | Ok [row0; row1] => Qeq_bool (Qsum row0) 2 && Qeq_bool (Qsum row1) 0
  | _ => false
  end = true.
Proof. vm_compute. reflexivity. Qed.

(** An evaluation call on an actor in eval mode leaves it in train
    mode. *)
Lemma get_action_eval_call_example :
  let before :=
    set_actor (toy_agent 2 (1 # 1000) false) (train toy_online false) in
  training (actor before) = false
  /\ get_action toy_q (fun s => s) before [0%nat; 1%nat] None false
     = (Ok [1%nat; 1%nat],
        set_actor before (train toy_online true)).
Proof. split; reflexivity. Qed.

(** The same call with a mask of the shape of the action values. *)
Lemma get_action_leaves_train_mode_witness :
  fst (get_action toy_q (fun s => s)
         (set_actor (toy_agent 2 (1 # 1000) false) (train toy_online false))
         [0%nat; 1%nat] (Some [[1; 0]; [1; 1]]%Z) false)
  = Ok [0%nat; 1%nat]
  /\ training
       (actor
          (snd (get_action toy_q (fun s => s)
                  (set_actor (toy_agent 2 (1 # 1000) false)
                     (train toy_online false))
                  [0%nat; 1%nat] (Some [[1; 0]; [1; 1]]%Z) false))) = true.
Proof.
  split; [reflexivity |].
  apply (proj1 (proj2 (proj2
           (get_action_leaves_train_mode toy_q (fun s => s)
              (set_actor (toy_agent 2 (1 # 1000) false)
                 (train toy_online false))
              [0%nat; 1%nat] (Some [[1; 0]; [1; 1]]%Z) false)))
           [0%nat; 1%nat]).
  reflexivity.
Defined.

(** C10 as stated fails on a call that raises: an evaluation call
    ([training=False]) with two observations and a mask of one row (two
    entries for four action values) raises [MaskError] after the actor
    has been put in eval mode, and the actor, in train mode before the
    call, is in eval mode after it. *)
Lemma get_action_refused_mask_leaves_eval_mode :
  training (actor (toy_agent 2 (1 # 1000) false)) = true
  /\ fst (get_action toy_q (fun s => s) (toy_agent 2 (1 # 1000) false)
            [0%nat; 1%nat] (Some [[1; 0]]%Z) false) = Raise MaskError
  /\ training
       (actor
          (snd (get_action toy_q (fun s => s) (toy_agent 2 (1 # 1000) false)
                  [0%nat; 1%nat] (Some [[1; 0]]%Z) false))) = false.
Proof. split; [| split]; reflexivity. Qed.

End dqn_rainbow_facts.

(** ** The replay memory in use *)

Module replay_buffer_usage.

Import replay_buffer replay_buffer_facts.

Section Usage.

Variables State Action : Type.

Local Abbreviation Experience := (Experience State Action).
Local Abbreviation ReplayBuffer := (ReplayBuffer State Action).
Local Abbreviation push := (@replay_buffer.push State Action).

Lemma lastn_length_min (A : Type) (m : nat) (l : list A) :
  length (lastn m l) = Nat.min m (length l).
Proof. unfold lastn. rewrite length_skipn. lia. Qed.

Lemma push_all_n_actions (es : list Experience) (self : ReplayBuffer) :
  n_actions (fold_left push es self) = n_actions self.
Proof.
  revert self. induction es as [| e es IH]; intros self; simpl.
  - reflexivity.
  - rewrite IH. reflexivity.
Qed.

Lemma push_all_counter (es : list Experience) (self : ReplayBuffer) :
  counter (fold_left push es self) = (counter self + length es)%nat.
Proof.
  revert self. induction es as [| e es IH]; intros self; simpl.
  - lia.
  - rewrite IH. simpl. lia.
Qed.

Lemma init_inv (action_dim memory_size : Z) (rb : ReplayBuffer) :
  __init__ action_dim memory_size = Ok rb ->
  (0 <= memory_size)%Z
  /\ rb = {| n_actions := action_dim; maxlen := Z.to_nat memory_size;
             memory := []; counter := 0 |}.
Proof.
  unfold __init__. destruct (Z.ltb_spec memory_size 0) as [Hneg | Hpos].
  - discriminate.
  - intros H. injection H as <-. split; [exact Hpos | reflexivity].
Qed.

(** X1.  The update counter of a buffer counts the experiences saved
    since its construction, evicted ones included, whereas its length
    stops at the capacity: [len = min(memory_size, counter)]. *)
Theorem counter_counts_every_insertion (action_dim memory_size : Z)
    (rb : ReplayBuffer) (cs : list (call State Action)) :
  __init__ action_dim memory_size = Ok rb ->
  counter (run rb cs) = length (inserted cs)
  /\ __len__ (run rb cs)
     = Nat.min (Z.to_nat memory_size) (counter (run rb cs))
  /\ n_actions (run rb cs) = action_dim.
Proof.
  intros Hinit. destruct (@init_inv _ _ _ Hinit) as [Hpos ->].
  rewrite run_push.
  set (rb0 := {| n_actions := action_dim; maxlen := Z.to_nat memory_size;
                 memory := []; counter := 0 |}).
  assert (Hfit : (length (memory rb0) <= maxlen rb0)%nat) by (simpl; lia).
  destruct (push_all_memory (inserted cs) rb0 Hfit) as (_ & Hmem & Hcnt).
  split; [| split].
  - rewrite Hcnt. reflexivity.
  - unfold __len__. rewrite Hmem, Hcnt. simpl.
    apply lastn_length_min.
  - rewrite push_all_n_actions. reflexivity.
Qed.

Lemma zip5_firstn (ss : list State) :
  forall (acts : list Action) (rs : list Q) (ss' : list State)
         (ds : list bool),
    let n :=
      Nat.min (length ss)
        (Nat.min (length acts)
           (Nat.min (length rs) (Nat.min (length ss') (length ds)))) in
    length (zip5 ss acts rs ss' ds) = n
    /\ zip5 (firstn n ss) (firstn n acts) (firstn n rs) (firstn n ss')
         (firstn n ds)
       = zip5 ss acts rs ss' ds.
Proof.
  induction ss as [| s ss IH]; intros acts rs ss' ds.
  - simpl. split; reflexivity.
  - destruct acts as [| a acts]; [simpl; split; reflexivity |].
    destruct rs as [| r rs]; [simpl; split; reflexivity |].
    destruct ss' as [| s' ss']; [simpl; split; reflexivity |].
    destruct ds as [| d ds]; [simpl; split; reflexivity |].
    destruct (IH acts rs ss' ds) as [Hlen Heq].
    cbn zeta in *. simpl. split.
    + f_equal. exact Hlen.
    + f_equal. exact Heq.
Qed.

Lemma zip5_rows (ss : list State) :
  forall (acts : list Action) (rs : list Q) (ss' : list State)
         (ds : list bool) (i : nat) (e : Experience),
    nth_error (zip5 ss acts rs ss' ds) i = Some e ->
    nth_error ss i = Some (state e)
    /\ nth_error acts i = Some (action e)
    /\ nth_error rs i = Some (reward e)
    /\ nth_error ss' i = Some (next_state e)
    /\ nth_error ds i = Some (done e).
Proof.
  induction ss as [| s ss IH]; intros acts rs ss' ds i e.
  - simpl. destruct i; discriminate.
  - destruct acts as [| a acts]; [destruct i; discriminate |].
    destruct rs as [| r rs]; [destruct i; discriminate |].
    destruct ss' as [| s' ss']; [destruct i; discriminate |].
    destruct ds as [| d ds]; [destruct i; discriminate |].
    destruct i as [| i]; simpl.
    + intros H. injection H as <-. simpl. repeat split.
    + apply IH.
Qed.

(** X2.  [save2memoryVectEnvs] walks the zip of its five arguments: when
    they have different lengths it stores as many experiences as the
    shortest has entries, row [i] made of the entries [i] of the five
    arguments, advances the counter by that number and drops the rest
    without an error. *)
Theorem save2memoryVectEnvs_stops_at_shortest (self : ReplayBuffer)
    (ss : list State) (acts : list Action) (rs : list Q) (ss' : list State)
    (ds : list bool) :
  let n :=
    Nat.min (length ss)
      (Nat.min (length acts)
         (Nat.min (length rs) (Nat.min (length ss') (length ds)))) in
  counter (save2memoryVectEnvs self ss acts rs ss' ds)
  = (counter self + n)%nat
  /\ save2memoryVectEnvs self ss acts rs ss' ds
     = save2memoryVectEnvs self (firstn n ss) (firstn n acts) (firstn n rs)
         (firstn n ss') (firstn n ds).
Proof.
  intros n.
  destruct (zip5_firstn ss acts rs ss' ds) as [Hlen Heq].
  fold n in Hlen, Heq.
  unfold save2memoryVectEnvs. rewrite Heq. split; [| reflexivity].
  change (counter (fold_left push (zip5 ss acts rs ss' ds) self)
          = (counter self + n)%nat).
  rewrite push_all_counter, Hlen. reflexivity.
Qed.

Lemma pop_nth_incl (X : Type) (l : list X) :
  forall (j : nat) (x : X) (r : list X),
    pop_nth j l = Some (x, r) -> In x l /\ incl r l.
Proof.
  induction l as [| y l IH]; intros j x r; simpl.
  - discriminate.
  - destruct j as [| j].
    + intros H. injection H as <- <-. split.
      * left. reflexivity.
      * intros z Hz. right. exact Hz.
    + destruct (pop_nth j l) as [[x' r'] |] eqn:Hpop; [| discriminate].
      intros H. injection H as <- <-.
      destruct (IH j x' r' Hpop) as [Hin Hincl]. split.
      * right. exact Hin.
      * intros z [<- | Hz]; [left; reflexivity | right; apply Hincl, Hz].
Qed.

Lemma draw_incl (X : Type) (rnd : nat -> nat) (k : nat) :
  forall (i : nat) (pool : list X), incl (draw rnd i pool k) pool.
Proof.
  induction k as [| k IH]; intros i pool; simpl.
  - intros z [].
  - destruct (pop_nth (rnd i mod length pool) pool) as [[x r] |] eqn:Hpop.
    + destruct (pop_nth_incl _ _ Hpop) as [Hin Hincl].
      intros z [<- | Hz]; [exact Hin |].
      apply Hincl. exact (IH (S i) r z Hz).
    + intros z [].
Qed.

(** X3.  Sampling from a buffer in use: after any run of calls on a
    freshly built buffer, [sample(batch_size)] returns a batch exactly
    when [1 <= batch_size <= min(memory_size, number of insertions)], and
    then every row of the batch is one of the last [memory_size] inserted
    experiences, never an evicted one; for every other [batch_size]
    (zero and negative ones included) it raises [ValueError], so a buffer
    of capacity 0 never yields a batch. *)
Theorem sample_after_run (action_dim memory_size : Z) (rb : ReplayBuffer)
    (cs : list (call State Action)) (rnd : nat -> nat) (batch_size : Z) :
  __init__ action_dim memory_size = Ok rb ->
  let stored := Nat.min (Z.to_nat memory_size) (length (inserted cs)) in
  ((1 <= batch_size <= Z.of_nat stored)%Z ->
   exists es : list Experience,
     sample rnd (run rb cs) batch_size = Ok (columns es)
     /\ Z.of_nat (length es) = batch_size
     /\ incl es (lastn (Z.to_nat memory_size) (inserted cs)))
  /\ (~ (1 <= batch_size <= Z.of_nat stored)%Z ->
      sample rnd (run rb cs) batch_size = Raise ValueError)
  /\ (memory_size = 0%Z ->
      sample rnd (run rb cs) batch_size = Raise ValueError).
Proof.
  intros Hinit stored. destruct (@init_inv _ _ _ Hinit) as [Hpos ->].
  set (rb0 := {| n_actions := action_dim; maxlen := Z.to_nat memory_size;
                 memory := []; counter := 0 |}).
  assert (Hfit : (length (memory rb0) <= maxlen rb0)%nat) by (simpl; lia).
  destruct (run_memory cs rb0 Hfit) as [_ Hmem]. simpl in Hmem.
  assert (Hlen : length (memory (run rb0 cs)) = stored).
  { rewrite Hmem. apply lastn_length_min. }
  assert (Hout : ~ (1 <= batch_size <= Z.of_nat stored)%Z ->
                 sample rnd (run rb0 cs) batch_size = Raise ValueError).
  { intros Hk. rewrite sample_unfold. unfold random_sample. rewrite Hlen.
    destruct (Z.leb_spec 0 batch_size) as [H0 | H0]; [| reflexivity].
    destruct (Z.leb_spec batch_size (Z.of_nat stored)) as [H1 | H1];
      [| reflexivity].
    assert (batch_size = 0%Z) as -> by lia. reflexivity. }
  split; [| split].
  - intros Hk. exists (draw rnd 0 (memory (run rb0 cs)) (Z.to_nat batch_size)).
    assert (Hdl : length (draw rnd 0 (memory (run rb0 cs))
                            (Z.to_nat batch_size)) = Z.to_nat batch_size).
    { apply draw_length. rewrite Hlen. lia. }
    split; [| split].
    + rewrite sample_unfold. unfold random_sample. rewrite Hlen.
      destruct (Z.leb_spec 0 batch_size) as [H0 | H0]; [| lia].
      destruct (Z.leb_spec batch_size (Z.of_nat stored)) as [H1 | H1];
        [| lia].
      cbn [andb]. rewrite bind_ok.
      destruct (draw rnd 0 (memory (run rb0 cs)) (Z.to_nat batch_size))
        as [| e es] eqn:Hd.
      * simpl in Hdl. lia.
      * reflexivity.
    + rewrite Hdl. lia.
    + rewrite <- Hmem. apply draw_incl.
  - exact Hout.
  - intros Hzero. apply Hout. subst stored. rewrite Hzero. simpl. lia.
Qed.

End Usage.

(** The scenario of capacity 3 with the insertions A, B, C, D. *)
Lemma counter_counts_every_insertion_ABCD :
  exists rb : ReplayBuffer tag nat,
    __init__ 1 3 = Ok rb
    /\ counter
         (run rb
            (map insert_tagged
               [tag_A; tag_B;
                tag_C; tag_D])) = 4%nat
    /\ __len__
         (run rb
            (map insert_tagged
               [tag_A; tag_B;
                tag_C; tag_D])) = 3%nat.
Proof.
  eexists. split; [reflexivity |].
  destruct (@counter_counts_every_insertion
              tag nat 1 3 _
              (map insert_tagged
                 [tag_A; tag_B;
                  tag_C; tag_D]) eq_refl)
    as (H1 & H2 & _).
  split; [exact H1 | rewrite H2, H1; reflexivity].
Defined.

Lemma sample_after_run_ABCD :
  exists rb : ReplayBuffer tag nat,
    __init__ 1 3 = Ok rb
    /\ (exists es,
          sample (fun i => i)
            (run rb (map insert_tagged [tag_A; tag_B; tag_C; tag_D])) 2
          = Ok (columns es)
          /\ Z.of_nat (length es) = 2%Z
          /\ incl es (map tagged [tag_B; tag_C; tag_D]))
    /\ sample (fun i => i)
         (run rb (map insert_tagged [tag_A; tag_B; tag_C; tag_D])) 4
       = Raise ValueError.
Proof.
  eexists. split; [reflexivity |]. split.
  - destruct (@sample_after_run tag nat 1 3 _
                (map insert_tagged [tag_A; tag_B; tag_C; tag_D])
                (fun i => i) 2 eq_refl) as (H & _).
    apply H. simpl. lia.
  - destruct (@sample_after_run tag nat 1 3 _
                (map insert_tagged [tag_A; tag_B; tag_C; tag_D])
                (fun i => i) 4 eq_refl) as (_ & H & _).
    apply H. simpl. lia.
Defined.

End replay_buffer_usage.


(** ** The agent in use *)

Module dqn_rainbow_usage.

Import torch torch_facts dqn_rainbow dqn_rainbow_facts.

(** *** Comparisons of rationals *)

Lemma Qle_bool_false (x y : Q) : Qle_bool x y = false <-> y < x.
Proof.
  split.
  - intros H. apply Qnot_le_lt. intros Hle.
    apply Qle_bool_iff in Hle. congruence.
  - intros H. destruct (Qle_bool x y) eqn:E; [| reflexivity].
    apply Qle_bool_iff in E. exfalso. exact (Qlt_not_le _ _ H E).
Qed.

Lemma Qlt_bool_false (x y : Q) : Qlt_bool x y = false <-> y <= x.
Proof.
  unfold Qlt_bool. rewrite negb_false_iff. apply Qle_bool_iff.
Qed.

(** *** Repeated soft updates *)

Lemma soft_update_iter_fields (n : nat) (self : RainbowDQN) :
  actor (Nat.iter n soft_update self) = actor self
  /\ dqn_rainbow.tau (Nat.iter n soft_update self) = dqn_rainbow.tau self
  /\ length (parameters (actor_target (Nat.iter n soft_update self)))
     = length (parameters (actor_target self))
  /\ training (actor_target (Nat.iter n soft_update self))
     = training (actor_target self).
Proof.
  induction n as [| n (Ha & Ht & Hl & Hm)]; simpl.
  - repeat split.
  - rewrite soft_update_params_length.
    repeat split; assumption.
Qed.

Lemma Qpower_succ (c : Q) (n : nat) :
  c ^ Z.of_nat (S n) == c * c ^ Z.of_nat n.
Proof.
  rewrite Nat2Z.inj_succ, <- Z.add_1_l.
  rewrite Qpower_plus' by lia. reflexivity.
Qed.

(** X5.  [n] soft updates in a row (the actor being left alone) bring
    every zipped entry of the target to
    [online + (1 - tau)^n * (target - online)]: the distance to the online
    parameter shrinks by the factor [1 - tau] at every update. *)
Theorem soft_update_repeated (self : RainbowDQN) (n i j : nat)
    (online_p target_p : tensor) (e t : Q) :
  nth_error (parameters (actor self)) i = Some online_p ->
  nth_error (parameters (actor_target self)) i = Some target_p ->
  nth_error online_p j = Some e ->
  nth_error target_p j = Some t ->
  actor (Nat.iter n soft_update self) = actor self
  /\ exists new_p v,
       nth_error (parameters (actor_target (Nat.iter n soft_update self))) i
       = Some new_p
       /\ nth_error new_p j = Some v
       /\ v == e + (1 - dqn_rainbow.tau self) ^ Z.of_nat n * (t - e).
Proof.
  intros Ho Ht He Htj.
  split; [apply soft_update_iter_fields |].
  induction n as [| n (new_p & v & Hp & Hv & Heq)].
  - exists target_p, t. split; [exact Ht |]. split; [exact Htj |].
    simpl. ring.
  - destruct (soft_update_iter_fields n self) as (Ha & Htau & _).
    change (Nat.iter (S n) soft_update self)
      with (soft_update (Nat.iter n soft_update self)).
    cbn [soft_update set_actor_target actor_target parameters].
    rewrite Ha, Htau.
    exists (map2 (fun x y => dqn_rainbow.tau self * x
                             + (1 - dqn_rainbow.tau self) * y)
              online_p new_p),
      (dqn_rainbow.tau self * e + (1 - dqn_rainbow.tau self) * v).
    split; [| split].
    + apply soft_update_params_nth; assumption.
    + apply (map2_nth_error
               (fun x y => dqn_rainbow.tau self * x
                           + (1 - dqn_rainbow.tau self) * y));
        assumption.
    + rewrite Heq, Qpower_succ. ring.
Qed.

Lemma soft_update_repeated_witness :
  exists new_p v,
    nth_error
      (parameters
         (actor_target (Nat.iter 2 soft_update (toy_agent 2 (1 # 2) false))))
      0 = Some new_p
    /\ nth_error new_p 1 = Some v
    /\ v == 1 + (1 - (1 # 2)) ^ 2 * (0 - 1).
Proof.
  exact (proj2 (@soft_update_repeated (toy_agent 2 (1 # 2) false) 2 0 1
                  [0; 1] [1; 0] 1 0 eq_refl eq_refl eq_refl eq_refl)).
Defined.

Lemma soft_update_params_synchronised (tau_ : Q) (es ts : list tensor) :
  Forall2 (Forall2 Qeq) ts es ->
  Forall2 (Forall2 Qeq) (soft_update_params tau_ es ts) es.
Proof.
  intros H. induction H as [| t e ts es Hte _ IH]; simpl.
  - constructor.
  - constructor; [| exact IH].
    clear IH. unfold map2. induction Hte as [| y x t e Hyx _ IH]; simpl.
    + constructor.
    + constructor; [| exact IH]. rewrite Hyx. ring.
Qed.

(** X6.  A target network that agrees with the actor stays in agreement
    under any number of soft updates, whatever [tau] is; this is the case
    of the agent the constructor returns, whose target is a copy of its
    actor: until the actor is changed, [soft_update] has no effect. *)
Theorem soft_update_of_fresh_agent (batch_size : Z)
    (lr gamma tau prior_eps : Q) (num_atoms : Z) (v_min v_max : Q)
    (n_step : Z) (combined_reward : bool) (actor_network : Net)
    (self : RainbowDQN) (n : nat) :
  __init__ batch_size lr gamma tau prior_eps num_atoms v_min v_max n_step
    combined_reward actor_network = Ok self ->
  actor (Nat.iter n soft_update self) = actor self
  /\ Forall2 (Forall2 Qeq)
       (parameters (actor_target (Nat.iter n soft_update self)))
       (parameters actor_network).
Proof.
  intros Hinit.
  assert (Hcopy : parameters (actor_target self) = parameters actor_network
                  /\ parameters (actor self) = parameters actor_network).
  { unfold __init__ in Hinit.
    repeat match type of Hinit with
           | bind ?m _ = _ =>
               destruct m as [? | ?]; [rewrite bind_ok in Hinit
                                      | discriminate Hinit]
           end.
    injection Hinit as <-. split; reflexivity. }
  destruct Hcopy as [Ht Ha].
  split; [apply soft_update_iter_fields |].
  induction n as [| n IH].
  - simpl. rewrite Ht.
    clear. induction (parameters actor_network) as [| p ps IH];
      constructor; [| exact IH].
    clear. induction p; constructor; [reflexivity | assumption].
  - destruct (soft_update_iter_fields n self) as (Hact & _).
    change (Nat.iter (S n) soft_update self)
      with (soft_update (Nat.iter n soft_update self)).
    cbn [soft_update set_actor_target actor_target parameters].
    rewrite Hact, Ha.
    apply soft_update_params_synchronised. exact IH.
Qed.

Lemma soft_update_of_fresh_agent_witness :
  exists self,
    default_agent 51 (-10) 10 = Ok self
    /\ Forall2 (Forall2 Qeq)
         (parameters (actor_target (Nat.iter 3 soft_update self)))
         [[1; 2]; [3]].
Proof.
  eexists. split; [reflexivity |].
  exact (proj2 (@soft_update_of_fresh_agent 64 (1 # 10000) (99 # 100)
                  (1 # 1000) (1 # 1000000) 51 (-10) 10 3 false example_net
                  _ 3 eq_refl)).
Defined.

(** X7.  With [0 <= tau <= 1] a soft update is a convex combination:
    every zipped entry of the new target lies between the entry of the
    old target and the entry of the actor.  (The constructor asserts
    [tau > 0] only, so [tau <= 1] is a condition on the caller.) *)
Theorem soft_update_stays_between (self : RainbowDQN) (i j : nat)
    (online_p target_p : tensor) (e t : Q) :
  0 <= dqn_rainbow.tau self -> dqn_rainbow.tau self <= 1 ->
  nth_error (parameters (actor self)) i = Some online_p ->
  nth_error (parameters (actor_target self)) i = Some target_p ->
  nth_error online_p j = Some e ->
  nth_error target_p j = Some t ->
  exists new_p v,
    nth_error (parameters (actor_target (soft_update self))) i = Some new_p
    /\ nth_error new_p j = Some v
    /\ Qmin e t <= v /\ v <= Qmax e t.
Proof.
  intros H0 H1 Ho Ht He Htj.
  exists (map2 (fun x y => dqn_rainbow.tau self * x
                           + (1 - dqn_rainbow.tau self) * y)
            online_p target_p),
    (dqn_rainbow.tau self * e + (1 - dqn_rainbow.tau self) * t).
  split; [| split].
  - cbn [soft_update set_actor_target actor_target parameters].
    apply soft_update_params_nth; assumption.
  - apply (map2_nth_error
             (fun x y => dqn_rainbow.tau self * x
                         + (1 - dqn_rainbow.tau self) * y));
      assumption.
  - set (c := dqn_rainbow.tau self) in *.
    assert (Hlo : forall m, m <= e -> m <= t -> m <= c * e + (1 - c) * t).
    { intros m Hme Hmt.
      assert (A : 0 <= c * (e - m)) by (apply Qmult_le_0_compat; lra).
      assert (B : 0 <= (1 - c) * (t - m)) by (apply Qmult_le_0_compat; lra).
      lra. }
    assert (Hhi : forall m, e <= m -> t <= m -> c * e + (1 - c) * t <= m).
    { intros m Hme Hmt.
      assert (A : 0 <= c * (m - e)) by (apply Qmult_le_0_compat; lra).
      assert (B : 0 <= (1 - c) * (m - t)) by (apply Qmult_le_0_compat; lra).
      lra. }
    split.
    + apply Hlo; [apply Q.le_min_l | apply Q.le_min_r].
    + apply Hhi; [apply Q.le_max_l | apply Q.le_max_r].
Qed.

Lemma soft_update_stays_between_witness :
  exists new_p v,
    nth_error
      (parameters (actor_target (soft_update (toy_agent 2 (1 # 4) false))))
      0 = Some new_p
    /\ nth_error new_p 0 = Some v
    /\ Qmin 0 1 <= v /\ v <= Qmax 0 1.
Proof.
  apply (@soft_update_stays_between (toy_agent 2 (1 # 4) false) 0 0
           [0; 1] [1; 0] 0 1); try reflexivity; discriminate.
Defined.

(** *** The action chosen by [get_action] *)

Section ArgmaxBy.

Variable X : Type.
Variable ltb : X -> X -> bool.
Hypothesis ltb_irrefl : forall x, ltb x x = false.
Hypothesis ltb_trans :
  forall x y z, ltb x y = true -> ltb y z = true -> ltb x z = true.
Hypothesis ltb_below :
  forall x y z, ltb x y = false -> ltb x z = true -> ltb y z = true.

Lemma ltb_asym (x y : X) : ltb x y = true -> ltb y x = false.
Proof.
  intros H. destruct (ltb y x) eqn:E; [| reflexivity].
  rewrite <- (ltb_irrefl x). symmetry. exact (@ltb_trans _ _ _ H E).
Qed.

Lemma argmax_from_spec (t : list X) :
  forall (best_i : nat) (best : X) (i : nat),
    (argmax_from ltb best_i best i t = best_i
     /\ Forall (fun y => ltb best y = false) t)
    \/ exists k y,
         argmax_from ltb best_i best i t = (i + k)%nat
         /\ nth_error t k = Some y
         /\ ltb best y = true
         /\ Forall (fun z => ltb y z = false) t
         /\ forall k' z,
              (k' < k)%nat -> nth_error t k' = Some z -> ltb z y = true.
Proof.
  induction t as [| x t IH]; intros best_i best i; simpl.
  - left. split; [reflexivity | constructor].
  - destruct (ltb best x) eqn:Hbx.
    + right.
      destruct (IH i x (S i))
        as [[Hr Hall] | (k & y & Hr & Hk & Hxy & Hall & Hbefore)].
      * exists 0%nat, x. rewrite Hr, Nat.add_0_r.
        split; [reflexivity |]. split; [reflexivity |].
        split; [exact Hbx |]. split.
        -- constructor; [apply ltb_irrefl | exact Hall].
        -- intros k' z Hlt. lia.
      * exists (S k), y. rewrite Hr.
        split; [lia |]. split; [exact Hk |].
        split; [exact (@ltb_trans _ _ _ Hbx Hxy) |]. split.
        -- constructor; [apply ltb_asym; exact Hxy | exact Hall].
        -- intros [| k'] z Hlt Hz; simpl in Hz.
           ++ injection Hz as <-. exact Hxy.
           ++ apply (Hbefore k'); [lia | exact Hz].
    + destruct (IH best_i best (S i))
        as [[Hr Hall] | (k & y & Hr & Hk & Hby & Hall & Hbefore)].
      * left. split; [exact Hr |]. constructor; assumption.
      * right. exists (S k), y. rewrite Hr.
        assert (Hxy : ltb x y = true) by exact (@ltb_below _ _ _ Hbx Hby).
        split; [lia |]. split; [exact Hk |].
        split; [exact Hby |]. split.
        -- constructor; [apply ltb_asym; exact Hxy | exact Hall].
        -- intros [| k'] z Hlt Hz; simpl in Hz.
           ++ injection Hz as <-. exact Hxy.
           ++ apply (Hbefore k'); [lia | exact Hz].
Qed.

(** [argmax_by] answers the first position that holds a maximal entry. *)
Lemma argmax_by_spec (l : list X) :
  l <> [] ->
  exists y,
    nth_error l (argmax_by ltb l) = Some y
    /\ Forall (fun z => ltb y z = false) l
    /\ forall k z,
         (k < argmax_by ltb l)%nat -> nth_error l k = Some z ->
         ltb z y = true.
Proof.
  destruct l as [| x t]; [congruence | intros _]. simpl argmax_by.
  destruct (argmax_from_spec t 0 x 1)
    as [[Hr Hall] | (k & y & Hr & Hk & Hxy & Hall & Hbefore)].
  - exists x. rewrite Hr. split; [reflexivity |]. split.
    + constructor; [apply ltb_irrefl | exact Hall].
    + intros k z Hlt. lia.
  - exists y. rewrite Hr. split; [exact Hk |]. split.
    + constructor; [apply ltb_asym; exact Hxy | exact Hall].
    + intros [| k'] z Hlt Hz; simpl in Hz.
      * injection Hz as <-. exact Hxy.
      * apply (Hbefore k'); [lia | exact Hz].
Qed.

End ArgmaxBy.

Lemma Qlt_bool_irrefl (x : Q) : Qlt_bool x x = false.
Proof. apply Qlt_bool_false. apply Qle_refl. Qed.

Lemma Qlt_bool_trans (x y z : Q) :
  Qlt_bool x y = true -> Qlt_bool y z = true -> Qlt_bool x z = true.
Proof.
  rewrite !Qlt_bool_iff. apply Qlt_trans.
Qed.

Lemma Qlt_bool_below (x y z : Q) :
  Qlt_bool x y = false -> Qlt_bool x z = true -> Qlt_bool y z = true.
Proof.
  rewrite Qlt_bool_false, !Qlt_bool_iff. apply Qle_lt_trans.
Qed.

Lemma filled_ltb_irrefl (x : option Q) : filled_ltb x x = false.
Proof. destruct x; simpl; [apply Qlt_bool_irrefl | reflexivity]. Qed.

Lemma filled_ltb_trans (x y z : option Q) :
  filled_ltb x y = true -> filled_ltb y z = true -> filled_ltb x z = true.
Proof.
  destruct x, y, z; simpl; try congruence. apply Qlt_bool_trans.
Qed.

Lemma filled_ltb_below (x y z : option Q) :
  filled_ltb x y = false -> filled_ltb x z = true -> filled_ltb y z = true.
Proof.
  destruct x, y, z; simpl; try congruence. apply Qlt_bool_below.
Qed.

Lemma argmax_first_maximum (values : list Q) :
  values <> [] ->
  exists best,
    nth_error values (argmax values) = Some best
    /\ (forall j v, nth_error values j = Some v -> v <= best)
    /\ (forall j v,
          nth_error values j = Some v -> (j < argmax values)%nat ->
          v < best).
Proof.
  intros Hne.
  destruct (@argmax_by_spec _ _ Qlt_bool_irrefl Qlt_bool_trans
              Qlt_bool_below _ Hne)
    as (best & Hbest & Hall & Hbefore).
  exists best. split; [exact Hbest |]. split.
  - intros j v Hv. apply Qlt_bool_false.
    rewrite Forall_forall in Hall. apply Hall.
    exact (nth_error_In _ _ Hv).
  - intros j v Hv Hlt. apply Qlt_bool_iff. exact (Hbefore j v Hlt Hv).
Qed.

Section Acting.

Variable State : Type.
Variable forward_q : Net -> State -> list Q.
Variable preprocess_observation : State -> State.

(** X8.  Without a mask [get_action] is greedy: it returns one action
    per observation, the first position at which the expected values the
    actor (in the requested mode) gives for the preprocessed observation
    are maximal. *)
Theorem get_action_is_greedy (self : RainbowDQN) (state : list State)
    (training_flag : bool) (i : nat) (s : State) :
  let values :=
    forward_q (train (actor self) training_flag)
      (preprocess_observation s) in
  nth_error state i = Some s ->
  values <> [] ->
  exists action,
    fst (get_action forward_q preprocess_observation self state None
           training_flag) = Ok action
    /\ length action = length state
    /\ exists a best,
         nth_error action i = Some a
         /\ nth_error values a = Some best
         /\ (forall j v, nth_error values j = Some v -> v <= best)
         /\ (forall j v,
               nth_error values j = Some v -> (j < a)%nat -> v < best).
Proof.
  intros values Hs Hne. unfold get_action.
  cbn [fst set_actor actor]. eexists. split; [reflexivity |]. split.
  - rewrite !length_map. reflexivity.
  - destruct (argmax_first_maximum Hne) as (best & Hbest & Hmax & Hfirst).
    exists (argmax values), best.
    split; [| split; [exact Hbest | split; [exact Hmax | exact Hfirst]]].
    rewrite !nth_error_map, Hs. reflexivity.
Qed.

Lemma same_shape_length (X Y : Type) (a : list (list X)) :
  forall b : list (list Y), same_shape a b = true -> length a = length b.
Proof.
  induction a as [| r a IH]; intros [| q b] H; simpl in *;
    try reflexivity; try discriminate.
  apply andb_true_iff in H. destruct H as [_ H].
  rewrite (IH b H). reflexivity.
Qed.

Lemma same_shape_row (X Y : Type) (a : list (list X)) :
  forall (b : list (list Y)) (i : nat) (r : list X) (q : list Y),
    same_shape a b = true ->
    nth_error a i = Some r -> nth_error b i = Some q ->
    length r = length q.
Proof.
  induction a as [| r0 a IH]; intros [| q0 b] i r q H Hr Hq; simpl in *;
    try discriminate; try (destruct i; discriminate).
  apply andb_true_iff in H. destruct H as [H0 H].
  destruct i as [| i]; simpl in *.
  - injection Hr as <-. injection Hq as <-.
    apply Nat.eqb_eq. exact H0.
  - exact (IH b i r q H Hr Hq).
Qed.

Lemma filled_nth (values : list Q) (m : list Z) (j : nat) (v : Q) (x : Z) :
  nth_error values j = Some v -> nth_error m j = Some x ->
  nth_error
    (map2 (fun v m => if (m =? 0)%Z then Some v else None) values
       (map (fun m => 1 - m)%Z m)) j
  = Some (if (x =? 1)%Z then Some v else None).
Proof.
  intros Hv Hx.
  rewrite (map2_nth_error
             (fun v m => if (m =? 0)%Z then Some v else None) values
             (map (fun m => 1 - m)%Z m) j Hv
             (y := (1 - x)%Z)).
  - f_equal. destruct (Z.eqb_spec (1 - x) 0), (Z.eqb_spec x 1);
      try reflexivity; lia.
  - rewrite nth_error_map, Hx. reflexivity.
Qed.

(** With a mask of the shape of the action values the call returns,
    and the action of every observation is the masked arg-max of its
    row. *)
Lemma masked_action_nth (self : RainbowDQN) (state : list State)
    (action_mask : list (list Z)) (training_flag : bool) :
  same_shape
    (map (fun s =>
            forward_q (train (actor self) training_flag)
              (preprocess_observation s)) state)
    action_mask = true ->
  exists action,
    fst (get_action forward_q preprocess_observation self state
           (Some action_mask) training_flag) = Ok action
    /\ length action = length state
    /\ forall i s m,
         nth_error state i = Some s -> nth_error action_mask i = Some m ->
         nth_error action i
         = Some (masked_argmax
                   (forward_q (train (actor self) training_flag)
                      (preprocess_observation s))
                   (map (fun m => 1 - m)%Z m)).
Proof.
  intros Hshape. unfold get_action. cbn [set_actor actor].
  rewrite map_map. unfold ma_mask. rewrite same_shape_map, Hshape, bind_ok.
  cbn [fst]. eexists. split; [reflexivity |]. split.
  - rewrite map2_length, !length_map.
    rewrite <- (same_shape_length _ _ Hshape), length_map. lia.
  - intros i s m Hs Hm. apply (map2_nth_error masked_argmax).
    + rewrite nth_error_map, Hs. reflexivity.
    + rewrite nth_error_map, Hm. reflexivity.
Qed.

(** X9.  With a mask of the shape of the action values, [get_action]
    returns for every observation that has a legal action (mask entry 1)
    a legal action whose expected value is maximal among the legal ones,
    the first such position. *)
Theorem get_action_respects_mask (self : RainbowDQN) (state : list State)
    (action_mask : list (list Z)) (training_flag : bool) (i : nat)
    (s : State) (m : list Z) :
  let values_of :=
    fun s =>
      forward_q (train (actor self) training_flag)
        (preprocess_observation s) in
  let values := values_of s in
  same_shape (map values_of state) action_mask = true ->
  nth_error state i = Some s ->
  nth_error action_mask i = Some m ->
  (exists j, nth_error m j = Some 1%Z) ->
  exists action,
    fst (get_action forward_q preprocess_observation self state
           (Some action_mask) training_flag) = Ok action
    /\ length action = length state
    /\ exists a best,
         nth_error action i = Some a
         /\ nth_error m a = Some 1%Z
         /\ nth_error values a = Some best
         /\ (forall j v,
               nth_error values j = Some v -> nth_error m j = Some 1%Z ->
               v <= best)
         /\ (forall j v,
               nth_error values j = Some v -> nth_error m j = Some 1%Z ->
               (j < a)%nat -> v < best).
Proof.
  intros values_of values Hshape Hs Hm (j0 & Hj0).
  assert (Hlen : length m = length values).
  { symmetry. apply (same_shape_row _ _ i Hshape); [| exact Hm].
    rewrite nth_error_map, Hs. reflexivity. }
  destruct (masked_action_nth self state action_mask training_flag Hshape)
    as (action & Haction & Hcount & Hnth).
  exists action. split; [exact Haction |]. split; [exact Hcount |].
  - rewrite (Hnth i s m Hs Hm).
    change (forward_q (train (actor self) training_flag)
              (preprocess_observation s)) with values.
    unfold masked_argmax.
    set (fl := map2 (fun v m => if (m =? 0)%Z then Some v else None) values
                 (map (fun m => 1 - m)%Z m)).
    assert (Hlegal : forall j v,
               nth_error values j = Some v -> nth_error m j = Some 1%Z ->
               nth_error fl j = Some (Some v)).
    { intros j v Hv Hj. unfold fl. rewrite (filled_nth _ _ _ Hv Hj).
      reflexivity. }
    assert (Hv0 : exists v0, nth_error values j0 = Some v0).
    { destruct (nth_error values j0) as [v0 |] eqn:E; [eauto |].
      apply nth_error_None in E.
      assert (j0 < length m)%nat
        by (apply nth_error_Some; congruence).
      lia. }
    destruct Hv0 as (v0 & Hv0).
    assert (Hne : fl <> []).
    { intros E. specialize (Hlegal _ _ Hv0 Hj0). rewrite E in Hlegal.
      destruct j0; discriminate. }
    destruct (@argmax_by_spec _ _ filled_ltb_irrefl filled_ltb_trans
                filled_ltb_below _ Hne) as (y & Hy & Hall & Hbefore).
    rewrite Forall_forall in Hall.
    assert (Hsome : exists best, y = Some best).
    { pose proof (Hall _ (nth_error_In _ _ (Hlegal _ _ Hv0 Hj0))) as H.
      destruct y as [best |]; [eauto | discriminate]. }
    destruct Hsome as (best & ->).
    exists (argmax_by filled_ltb fl), best.
    split; [reflexivity |].
    destruct (map2_nth_error_inv _ _ _ _ Hy) as (b & x & Hb & Hx & Hbx).
    rewrite nth_error_map in Hx.
    destruct (nth_error m (argmax_by filled_ltb fl)) as [x0 |] eqn:Hx0;
      [| discriminate].
    assert (Hxx : x = (1 - x0)%Z) by (cbn [option_map] in Hx; congruence).
    rewrite Hxx in Hbx. cbv beta in Hbx.
    destruct (Z.eqb_spec (1 - x0) 0) as [Hz | Hz]; [| discriminate].
    injection Hbx as ->.
    split; [f_equal; lia |]. split; [exact Hb |]. split.
    + intros j v Hv Hj. apply Qlt_bool_false.
      exact (Hall _ (nth_error_In _ _ (Hlegal _ _ Hv Hj))).
    + intros j v Hv Hj Hlt. apply Qlt_bool_iff.
      exact (Hbefore j (Some v) Hlt (Hlegal _ _ Hv Hj)).
Qed.

(** X10.  When the mask of an observation declares no action legal,
    [get_action] raises no error and answers action 0, an illegal
    one. *)
Theorem get_action_without_legal_action (self : RainbowDQN)
    (state : list State) (action_mask : list (list Z))
    (training_flag : bool) (i : nat) (s : State) (m : list Z) :
  let values_of :=
    fun s =>
      forward_q (train (actor self) training_flag)
        (preprocess_observation s) in
  let values := values_of s in
  same_shape (map values_of state) action_mask = true ->
  nth_error state i = Some s ->
  nth_error action_mask i = Some m ->
  (forall j, nth_error m j <> Some 1%Z) ->
  exists action,
    fst (get_action forward_q preprocess_observation self state
           (Some action_mask) training_flag) = Ok action
    /\ nth_error action i = Some 0%nat.
Proof.
  intros values_of values Hshape Hs Hm Hnone.
  destruct (masked_action_nth self state action_mask training_flag Hshape)
    as (action & Haction & _ & Hnth).
  exists action. split; [exact Haction |].
  rewrite (Hnth i s m Hs Hm).
  change (forward_q (train (actor self) training_flag)
            (preprocess_observation s)) with values.
  unfold masked_argmax. f_equal.
  set (fl := map2 (fun v m => if (m =? 0)%Z then Some v else None) values
               (map (fun m => 1 - m)%Z m)).
  assert (Hmasked : forall k z, nth_error fl k = Some z -> z = None).
  { intros k z Hz.
    destruct (map2_nth_error_inv _ _ _ _ Hz) as (b & x & Hb & Hx & ->).
    rewrite nth_error_map in Hx.
    destruct (nth_error m k) as [x0 |] eqn:Hx0; [| discriminate].
    assert (Hxx : x = (1 - x0)%Z) by (cbn [option_map] in Hx; congruence).
    rewrite Hxx. cbv beta.
    destruct (Z.eqb_spec (1 - x0) 0) as [Hz0 | Hz0]; [| reflexivity].
    exfalso. apply (Hnone k). rewrite Hx0. f_equal. lia. }
  destruct fl as [| x t] eqn:Hfl; [reflexivity |].
  assert (Hne : x :: t <> []) by discriminate.
  destruct (@argmax_by_spec _ _ filled_ltb_irrefl filled_ltb_trans
              filled_ltb_below _ Hne) as (y & Hy & _ & Hbefore).
  destruct (argmax_by filled_ltb (x :: t)) as [| r] eqn:Hr;
    [reflexivity |].
  exfalso.
  assert (Hx : x = None) by exact (Hmasked 0%nat x eq_refl).
  assert (Hy' : y = None) by exact (Hmasked (S r) y Hy).
  pose proof (Hbefore 0%nat x (Nat.lt_0_succ r) eq_refl) as H.
  rewrite Hx, Hy' in H. discriminate.
Qed.

End Acting.

(** The small agent: its online network values action 1 above
    action 0. *)
Lemma get_action_is_greedy_witness :
  exists action,
    fst (get_action toy_q (fun s => s) (toy_agent 2 (1 # 1000) false)
           [0%nat; 1%nat] None false) = Ok action
    /\ length action = 2%nat
    /\ exists a best,
         nth_error action 0 = Some a
         /\ nth_error [0; 1] a = Some best
         /\ (forall j v, nth_error [0; 1] j = Some v -> v <= best)
         /\ (forall j v,
               nth_error [0; 1] j = Some v -> (j < a)%nat -> v < best).
Proof.
  apply (@get_action_is_greedy nat toy_q (fun s => s)
           (toy_agent 2 (1 # 1000) false) [0%nat; 1%nat] false 0%nat 0%nat);
    [reflexivity | discriminate].
Defined.

(** Action 1 is masked for the first observation: action 0 is chosen. *)
Lemma get_action_respects_mask_witness :
  exists action,
    fst (get_action toy_q (fun s => s) (toy_agent 2 (1 # 1000) false)
           [0%nat; 1%nat] (Some [[1; 0]; [1; 1]]%Z) false) = Ok action
    /\ length action = 2%nat
    /\ exists a best,
         nth_error action 0 = Some a
         /\ nth_error [1; 0]%Z a = Some 1%Z
         /\ nth_error [0; 1] a = Some best
         /\ (forall j v,
               nth_error [0; 1] j = Some v ->
               nth_error [1; 0]%Z j = Some 1%Z -> v <= best)
         /\ (forall j v,
               nth_error [0; 1] j = Some v ->
               nth_error [1; 0]%Z j = Some 1%Z -> (j < a)%nat -> v < best).
Proof.
  apply (@get_action_respects_mask nat toy_q (fun s => s)
           (toy_agent 2 (1 # 1000) false) [0%nat; 1%nat]
           [[1; 0]; [1; 1]]%Z false 0%nat 0%nat [1; 0]%Z);
    try reflexivity.
  exists 0%nat. reflexivity.
Defined.

Lemma get_action_without_legal_action_witness :
  exists action,
    fst (get_action toy_q (fun s => s) (toy_agent 2 (1 # 1000) false)
           [0%nat] (Some [[0; 0]]%Z) false) = Ok action
    /\ nth_error action 0 = Some 0%nat.
Proof.
  apply (@get_action_without_legal_action nat toy_q (fun s => s)
           (toy_agent 2 (1 # 1000) false) [0%nat] [[0; 0]]%Z false 0%nat
           0%nat [0; 0]%Z); try reflexivity.
  intros [| [| j]]; simpl; try discriminate. destruct j; discriminate.
Defined.

(** *** The projected distribution and the loss as numbers *)

Lemma lower_le (b : Q) : inject_Z (lower b) <= b.
Proof.
  unfold lower.
  destruct ((0 <? Qceiling b) && (Qfloor b =? Qceiling b))%Z.
  - apply Qle_trans with (inject_Z (Qfloor b)); [| apply Qfloor_le].
    rewrite <- Zle_Qle. lia.
  - apply Qfloor_le.
Qed.

Lemma upper_ge (self : RainbowDQN) (b : Q) : b <= inject_Z (upper self b).
Proof.
  unfold upper.
  destruct ((lower b <? num_atoms self - 1) && (lower b =? Qceiling b))%Z.
  - apply Qle_trans with (inject_Z (Qceiling b)); [apply Qle_ceiling |].
    rewrite <- Zle_Qle. lia.
  - apply Qle_ceiling.
Qed.

Lemma Qsum_nonneg (l : list Q) :
  Forall (fun x => 0 <= x) l -> 0 <= Qsum l.
Proof.
  induction 1 as [| x l Hx _ IH]; simpl; [apply Qle_refl | lra].
Qed.

Lemma Qsum_ge_entry (l : list Q) (x : Q) :
  Forall (fun x => 0 <= x) l -> In x l -> x <= Qsum l.
Proof.
  induction 1 as [| y l Hy Hl IH]; simpl; intros Hin; [contradiction |].
  pose proof (Qsum_nonneg Hl) as Hs.
  destruct Hin as [-> | Hin]; [lra | specialize (IH Hin); lra].
Qed.

Lemma map2_Qmult_nonneg (a w : list Q) :
  Forall (fun x => 0 <= x) a -> Forall (fun x => 0 <= x) w ->
  Forall (fun x => 0 <= x) (map2 Qmult a w).
Proof.
  intros Ha Hw. rewrite Forall_forall in *. unfold map2.
  intros x Hx. apply in_map_iff in Hx. destruct Hx as ([p q] & <- & Hin).
  simpl. apply Qmult_le_0_compat.
  - apply Ha. exact (in_combine_l _ _ _ _ Hin).
  - apply Hw. exact (in_combine_r _ _ _ _ Hin).
Qed.

Lemma sum_placesnonneg (index : list Z) (source : list Q) (j : Z) :
  Forall (fun x => 0 <= x) source -> 0 <= sum_where index source j.
Proof.
  intros Hs. unfold sum_where. apply Qsum_nonneg.
  rewrite Forall_forall in *. intros x Hx.
  apply in_map_iff in Hx. destruct Hx as ([i q] & <- & Hin). simpl.
  destruct (i =? j)%Z; [| apply Qle_refl].
  apply Hs. exact (in_combine_r _ _ _ _ Hin).
Qed.

Lemma spec_proj_row_nonneg (self : RainbowDQN) (dist bs : list Q) :
  Forall (fun x => 0 <= x) dist ->
  Forall (fun x => 0 <= x) (spec_proj_row self dist bs).
Proof.
  intros Hd. unfold spec_proj_row. rewrite Forall_forall. intros x Hx.
  apply in_map_iff in Hx. destruct Hx as (m & <- & _).
  assert (H1 : 0 <= sum_where (map lower bs)
                      (map2 Qmult dist
                         (map (fun b => inject_Z (upper self b) - b) bs))
                      (Z.of_nat m)).
  { apply sum_placesnonneg, map2_Qmult_nonneg; [exact Hd |].
    rewrite Forall_forall. intros w Hw. apply in_map_iff in Hw.
    destruct Hw as (b & <- & _). pose proof (upper_ge self b). lra. }
  assert (H2 : 0 <= sum_where (map (upper self) bs)
                      (map2 Qmult dist
                         (map (fun b => b - inject_Z (lower b)) bs))
                      (Z.of_nat m)).
  { apply sum_placesnonneg, map2_Qmult_nonneg; [exact Hd |].
    rewrite Forall_forall. intros w Hw. apply in_map_iff in Hw.
    destruct Hw as (b & <- & _). pose proof (lower_le b). lra. }
  lra.
Qed.

Lemma Forall2_Qeq_nonneg (a b : list Q) :
  Forall2 Qeq a b -> Forall (fun x => 0 <= x) b ->
  Forall (fun x => 0 <= x) a.
Proof.
  induction 1 as [| x y a b Hxy _ IH]; intros Hb; constructor.
  - inversion Hb; subst. rewrite Hxy. assumption.
  - apply IH. inversion Hb; assumption.
Qed.

Lemma Forall2_nth_error_l (A B : Type) (R : A -> B -> Prop) (a : list A)
    (b : list B) (i : nat) (x : A) :
  Forall2 R a b -> nth_error a i = Some x ->
  exists y, nth_error b i = Some y /\ R x y.
Proof.
  intros H. revert i. induction H as [| x' y' a b Hxy _ IH]; intros i Hi.
  - destruct i; discriminate.
  - destruct i as [| i]; simpl in *.
    + injection Hi as <-. eauto.
    + exact (IH i Hi).
Qed.

Section Numbers.

Variable State : Type.
Variable forward_q : Net -> State -> list Q.
Variables forward_dist forward_log_dist : Net -> State -> list (list Q).
Variable preprocess_observation : State -> State.

Local Abbreviation approximator_contract :=
  (dqn_rainbow.approximator_contract forward_q forward_dist forward_log_dist).
Local Abbreviation selected_dist :=
  (dqn_rainbow.selected_dist forward_q forward_dist preprocess_observation).
Local Abbreviation selected_log_p :=
  (dqn_rainbow.selected_log_p forward_log_dist preprocess_observation).
Local Abbreviation spec_loss_row :=
  (dqn_rainbow.spec_loss_row forward_q forward_dist forward_log_dist
     preprocess_observation).

Lemma selected_dist_nonneg (self : RainbowDQN) (tr : Transition State) :
  (forall s,
     Forall (Forall (fun x => 0 <= x)) (forward_dist (actor_target self) s)) ->
  Forall (fun x => 0 <= x) (selected_dist self tr).
Proof.
  intros Hd. unfold dqn_rainbow.selected_dist.
  set (rows := forward_dist (actor_target self)
                 (preprocess_observation (next_state tr))).
  set (a := online_choice forward_q preprocess_observation self tr).
  destruct (Nat.lt_ge_cases a (length rows)) as [Hlt | Hge].
  - specialize (Hd (preprocess_observation (next_state tr))).
    rewrite Forall_forall in Hd. apply Hd. apply nth_In. exact Hlt.
  - rewrite nth_overflow by exact Hge. constructor.
Qed.

(** X11.  For a target network that answers with probabilities (entries
    that are not negative, each row of mass 1) the projected distribution
    is a distribution again: [num_atoms] entries per transition, each
    between 0 and 1. *)
Theorem projection_is_a_distribution (self : RainbowDQN) (n_act : nat)
    (batch : list (Transition State)) (gamma_ : Q) :
  well_formed self -> approximator_contract self n_act ->
  (forall s,
     Forall (Forall (fun x => 0 <= x)) (forward_dist (actor_target self) s)) ->
  length batch = Z.to_nat (batch_size self) ->
  exists p,
    proj_dist forward_q forward_dist preprocess_observation self batch gamma_
    = Ok p
    /\ length p = length batch
    /\ forall row,
         In row p ->
         length row = Z.to_nat (num_atoms self)
         /\ Forall (fun x => 0 <= x /\ x <= 1) row.
Proof.
  intros Hwf Hc Hd Hlen.
  destruct (@proj_dist_aligned State forward_q forward_dist forward_log_dist
              preprocess_observation self n_act batch gamma_ Hwf Hc Hlen)
    as (p & Hp & Hrows).
  exists p. split; [exact Hp |].
  split; [exact (Forall2_length Hrows) |].
  intros row Hin. apply In_nth_error in Hin. destruct Hin as (i & Hi).
  destruct (Forall2_nth_error_l _ Hrows Hi) as (tr & Htr & Hrow).
  destruct (@selected_dist_ok State forward_q forward_dist forward_log_dist
              preprocess_observation self n_act tr Hc) as [Hdl Hmass].
  assert (Hnn : Forall (fun x => 0 <= x) row).
  { apply (Forall2_Qeq_nonneg Hrow).
    apply spec_proj_row_nonneg, selected_dist_nonneg, Hd. }
  assert (Hsum : Qsum row == 1).
  { rewrite (Qsum_Forall2 Hrow).
    rewrite spec_proj_row_mass; try assumption.
    - apply atom_bins_length. exact Hwf.
    - intros b Hb. eapply atom_bins_range; eassumption. }
  split.
  - rewrite (Forall2_length Hrow). unfold spec_proj_row.
    rewrite length_map, length_seq. reflexivity.
  - rewrite Forall_forall. intros x Hx. split.
    + rewrite Forall_forall in Hnn. exact (Hnn x Hx).
    + rewrite <- Hsum. exact (@Qsum_ge_entry _ _ Hnn Hx).
Qed.

End Numbers.

Lemma projection_is_a_distribution_witness :
  exists p,
    proj_dist toy_q toy_dist (fun s => s) (toy_agent 2 (1 # 1000) false)
      [tr_fraction; tr_interior] (99 # 100) = Ok p
    /\ length p = 2%nat
    /\ forall row,
         In row p ->
         length row = 3%nat /\ Forall (fun x => 0 <= x /\ x <= 1) row.
Proof.
  apply (@projection_is_a_distribution nat toy_q toy_dist toy_log_dist
           (fun s => s) (toy_agent 2 (1 # 1000) false) 2
           [tr_fraction; tr_interior] (99 # 100)).
  - apply toy_well_formed. lia.
  - apply toy_contract.
  - intros [| s]; repeat constructor; discriminate.
  - reflexivity.
Defined.

Lemma Qsum_map2_nonpos (a g : list Q) :
  Forall (fun x => 0 <= x) a -> Forall (fun x => x <= 0) g ->
  Qsum (map2 Qmult a g) <= 0.
Proof.
  intros Ha. revert g. unfold map2.
  induction Ha as [| x a Hx _ IH]; intros g Hg; simpl.
  - apply Qle_refl.
  - destruct Hg as [| y g Hy Hg]; simpl; [apply Qle_refl |].
    specialize (IH g Hg).
    assert (H : 0 <= x * - y) by (apply Qmult_le_0_compat; lra).
    lra.
Qed.

Section Cross_entropy.

Variable State : Type.
Variable forward_q : Net -> State -> list Q.
Variables forward_dist forward_log_dist : Net -> State -> list (list Q).
Variable preprocess_observation : State -> State.

Local Abbreviation approximator_contract :=
  (dqn_rainbow.approximator_contract forward_q forward_dist forward_log_dist).
Local Abbreviation selected_dist :=
  (dqn_rainbow.selected_dist forward_q forward_dist preprocess_observation).
Local Abbreviation selected_log_p :=
  (dqn_rainbow.selected_log_p forward_log_dist preprocess_observation).
Local Abbreviation spec_loss_row :=
  (dqn_rainbow.spec_loss_row forward_q forward_dist forward_log_dist
     preprocess_observation).
Local Abbreviation _dqn_loss :=
  (dqn_rainbow._dqn_loss forward_q forward_dist forward_log_dist
     preprocess_observation).
Local Abbreviation elementwise_loss :=
  (dqn_rainbow.elementwise_loss forward_q forward_dist forward_log_dist
     preprocess_observation).
Local Abbreviation learn :=
  (dqn_rainbow.learn forward_q forward_dist forward_log_dist
     preprocess_observation).

(** The networks answer with probabilities and their logarithms. *)
Variable self : RainbowDQN.
Variable n_act : nat.
Hypothesis Hwf : well_formed self.
Hypothesis Hcontract : approximator_contract self n_act.
Hypothesis Hdist :
  forall s,
    Forall (Forall (fun x => 0 <= x)) (forward_dist (actor_target self) s).
Hypothesis Hlog :
  forall s,
    Forall (Forall (fun x => x <= 0)) (forward_log_dist (actor self) s).

Lemma selected_log_p_nonpos (tr : Transition State) :
  Forall (fun x => x <= 0) (selected_log_p self tr).
Proof.
  unfold dqn_rainbow.selected_log_p.
  set (rows := forward_log_dist (actor self)
                 (preprocess_observation (state tr))).
  destruct (Nat.lt_ge_cases (action tr) (length rows)) as [Hlt | Hge].
  - specialize (Hlog (preprocess_observation (state tr))).
    rewrite Forall_forall in Hlog. apply Hlog. apply nth_In. exact Hlt.
  - rewrite nth_overflow by exact Hge. constructor.
Qed.

Lemma spec_loss_row_nonneg (gamma_ : Q) (tr : Transition State) :
  0 <= spec_loss_row self gamma_ tr.
Proof.
  unfold dqn_rainbow.spec_loss_row.
  assert (H : Qsum (map2 Qmult
                      (spec_proj_row self (selected_dist self tr)
                         (atom_bins self gamma_ tr))
                      (selected_log_p self tr)) <= 0).
  { apply Qsum_map2_nonpos.
    - apply spec_proj_row_nonneg.
      apply (@selected_dist_nonneg State forward_q forward_dist
               preprocess_observation self tr Hdist).
    - apply selected_log_p_nonpos. }
  lra.
Qed.

Lemma dqn_loss_nonneg (batch : list (Transition State)) (gamma_ : Q) :
  Forall (fun tr => (action tr < n_act)%nat) batch ->
  length batch = Z.to_nat (batch_size self) ->
  exists out,
    _dqn_loss self batch gamma_ = Ok out
    /\ length out = length batch
    /\ Forall (fun l => 0 <= l) out.
Proof.
  intros Ha Hlen.
  destruct (@dqn_loss_aligned State forward_q forward_dist forward_log_dist
              preprocess_observation self n_act batch gamma_ Hwf Hcontract
              Ha Hlen) as (out & Hout & Hrows).
  exists out. split; [exact Hout |].
  split; [exact (Forall2_length Hrows) |].
  clear Hout Ha Hlen.
  induction Hrows as [| l tr out batch' Hl _ IH]; constructor.
  - rewrite Hl. apply spec_loss_row_nonneg.
  - exact IH.
Qed.

Lemma map2_Qplus_nonneg (a b : list Q) :
  Forall (fun x => 0 <= x) a -> Forall (fun x => 0 <= x) b ->
  Forall (fun x => 0 <= x) (map2 Qplus a b).
Proof.
  intros Ha Hb. rewrite Forall_forall in *. unfold map2.
  intros x Hx. apply in_map_iff in Hx. destruct Hx as ([p q] & <- & Hin).
  simpl.
  pose proof (Ha _ (in_combine_l _ _ _ _ Hin)).
  pose proof (Hb _ (in_combine_r _ _ _ _ Hin)).
  lra.
Qed.

Lemma elementwise_loss_nonneg (one_step : list (Transition State))
    (n_step_batch : option (list (Transition State))) :
  Forall (fun tr => (action tr < n_act)%nat) one_step ->
  length one_step = Z.to_nat (batch_size self) ->
  (forall n_batch,
     n_step_batch = Some n_batch ->
     Forall (fun tr => (action tr < n_act)%nat) n_batch
     /\ length n_batch = Z.to_nat (batch_size self)) ->
  exists l,
    elementwise_loss self one_step n_step_batch = Ok l
    /\ length l = length one_step
    /\ Forall (fun x => 0 <= x) l.
Proof.
  intros Ha Hlen Hn.
  destruct (dqn_loss_nonneg (gamma self) Ha Hlen) as (l1 & E1 & L1 & N1).
  destruct n_step_batch as [n_batch |]; cbn [dqn_rainbow.elementwise_loss].
  - destruct (Hn n_batch eq_refl) as [Han Hlenn].
    destruct (dqn_loss_nonneg (gamma self ^ n_step self) Han Hlenn)
      as (ln & En & Ln & Nn).
    destruct (combined_reward self).
    + rewrite E1, En, !bind_ok.
      rewrite iadd_same_length by congruence.
      exists (map2 Qplus l1 ln). split; [reflexivity |]. split.
      * rewrite map2_length. lia.
      * apply map2_Qplus_nonneg; assumption.
    + exists ln. split; [exact En |]. split; [congruence | exact Nn].
  - exists l1. split; [exact E1 |]. split; [exact L1 | exact N1].
Qed.

Lemma mean_nonneg (l : list Q) : Forall (fun x => 0 <= x) l -> 0 <= mean l.
Proof.
  intros H. unfold mean. pose proof (Qsum_nonneg H) as Hs.
  destruct l as [| x l]; [discriminate |].
  apply Qle_shift_div_l.
  - apply inject_Z_pos. simpl length. lia.
  - lra.
Qed.

(** X12.  With probabilities from the target network and logarithms of
    probabilities (numbers that are not positive) from the actor, the
    loss of every transition is a cross-entropy that is not negative,
    and so is the loss [learn] returns, with and without the n-step
    batch. *)
Theorem losses_are_not_negative (one_step n_batch : list (Transition State))
    (idxs : list Z) (gamma_ : Q) :
  Forall (fun tr => (action tr < n_act)%nat) one_step ->
  Forall (fun tr => (action tr < n_act)%nat) n_batch ->
  length one_step = Z.to_nat (batch_size self) ->
  length n_batch = Z.to_nat (batch_size self) ->
  (exists out,
     _dqn_loss self one_step gamma_ = Ok out
     /\ length out = length one_step
     /\ Forall (fun l => 0 <= l) out)
  /\ (exists loss,
        learn self (Exp5 one_step) false false = Ok (loss, None, None)
        /\ 0 <= loss)
  /\ (exists loss,
        learn self (Exp11 one_step idxs n_batch) true false
        = Ok (loss, Some idxs, None)
        /\ 0 <= loss).
Proof.
  intros Ha Han Hlen Hlenn. split; [| split].
  - exact (dqn_loss_nonneg gamma_ Ha Hlen).
  - destruct (@elementwise_loss_nonneg one_step None Ha Hlen)
      as (l & El & _ & Nl); [discriminate |].
    exists (mean l). cbn [dqn_rainbow.learn]. rewrite El, bind_ok.
    split; [reflexivity | exact (mean_nonneg Nl)].
  - destruct (@elementwise_loss_nonneg one_step (Some n_batch) Ha Hlen)
      as (l & El & _ & Nl).
    { intros nb E. injection E as <-. split; assumption. }
    exists (mean l). cbn [dqn_rainbow.learn]. rewrite El, bind_ok.
    split; [reflexivity | exact (mean_nonneg Nl)].
Qed.


End Cross_entropy.

Lemma toy_probabilities (batch_size : Z) (tau : Q) (combined_reward : bool) :
  (forall s,
     Forall (Forall (fun x => 0 <= x))
       (toy_dist (actor_target (toy_agent batch_size tau combined_reward)) s))
  /\ (forall s,
        Forall (Forall (fun x => x <= 0))
          (toy_log_dist (actor (toy_agent batch_size tau combined_reward)) s)).
Proof.
  split; intros [| s]; repeat constructor; discriminate.
Qed.

Lemma losses_are_not_negative_witness :
  (exists out,
     _dqn_loss toy_q toy_dist toy_log_dist (fun s => s)
       (toy_agent 2 (1 # 1000) true) [tr_fraction; tr_interior] (99 # 100)
     = Ok out
     /\ length out = 2%nat
     /\ Forall (fun l => 0 <= l) out)
  /\ (exists loss,
        learn toy_q toy_dist toy_log_dist (fun s => s)
          (toy_agent 2 (1 # 1000) true) (Exp5 [tr_fraction; tr_interior])
          false false = Ok (loss, None, None)
        /\ 0 <= loss)
  /\ (exists loss,
        learn toy_q toy_dist toy_log_dist (fun s => s)
          (toy_agent 2 (1 # 1000) true)
          (Exp11 [tr_fraction; tr_interior] [7; 8]%Z [tr_first; tr_last])
          true false = Ok (loss, Some [7; 8]%Z, None)
        /\ 0 <= loss).
Proof.
  apply (@losses_are_not_negative nat toy_q toy_dist toy_log_dist
           (fun s => s) (toy_agent 2 (1 # 1000) true) 2).
  - apply toy_well_formed. lia.
  - apply toy_contract.
  - apply toy_probabilities.
  - apply toy_probabilities.
  - repeat constructor.
  - repeat constructor.
  - reflexivity.
  - reflexivity.
Defined.


(** *** Where the mass goes: terminal transitions and the identity *)

Lemma lower_comp (b b' : Q) : b == b' -> lower b = lower b'.
Proof.
  intros H. unfold lower.
  rewrite (Qfloor_comp _ _ H), (Qceiling_comp _ _ H). reflexivity.
Qed.

Lemma upper_comp (self : RainbowDQN) (b b' : Q) :
  b == b' -> upper self b = upper self b'.
Proof.
  intros H. unfold upper.
  rewrite (lower_comp H), (Qceiling_comp _ _ H). reflexivity.
Qed.

Lemma clamp_comp (x y lo hi : Q) : x == y -> clamp x lo hi == clamp y lo hi.
Proof. intros H. unfold clamp. rewrite H. reflexivity. Qed.

Lemma bin_comp (self : RainbowDQN) (x y : Q) :
  x == y -> bin self x == bin self y.
Proof. intros H. unfold bin. rewrite H. reflexivity. Qed.

Lemma sum_placesconst (c : Z) (index : list Z) :
  forall (source : list Q) (j : Z),
    Forall (fun i => i = c) index -> length index = length source ->
    sum_where index source j == if (c =? j)%Z then Qsum source else 0.
Proof.
  induction index as [| i index IH]; intros [| x source] j Hc Hlen;
    try discriminate.
  - destruct (c =? j)%Z; reflexivity.
  - rewrite sum_placescons. inversion Hc as [| ? ? Hi Hc']; subst.
    rewrite (IH source j Hc') by (simpl in Hlen; lia).
    simpl Qsum. destruct (c =? j)%Z; ring.
Qed.

Lemma Qsum_map2_const (w : Q) (a : list Q) :
  forall ws : list Q,
    length a = length ws -> Forall (fun x => x == w) ws ->
    Qsum (map2 Qmult a ws) == Qsum a * w.
Proof.
  unfold map2.
  induction a as [| x a IH]; intros [| y ws] Hlen Hw; try discriminate;
    simpl.
  - ring.
  - inversion Hw as [| ? ? Hy Hw']; subst.
    rewrite (IH ws) by (simpl in Hlen; try lia; assumption).
    rewrite Hy. ring.
Qed.

Lemma Forall2_Qeq_nth_both (a b : list Q) (m : nat) :
  Forall2 Qeq a b -> nth m a 0 == nth m b 0.
Proof.
  intros H. revert m. induction H as [| x y a b Hxy _ IH]; intros [| m];
    simpl; try reflexivity; [exact Hxy | apply IH].
Qed.

Lemma nth_map_seq (F : nat -> Q) (n m : nat) :
  (m < n)%nat -> nth m (map F (seq 0 n)) 0 = F m.
Proof.
  intros H. apply nth_error_nth.
  rewrite nth_error_map, nth_error_seq.
  destruct (Nat.ltb_spec m n); [reflexivity | lia].
Qed.

Section Landing.

Variable State : Type.
Variable forward_q : Net -> State -> list Q.
Variables forward_dist forward_log_dist : Net -> State -> list (list Q).
Variable preprocess_observation : State -> State.

Local Abbreviation approximator_contract :=
  (dqn_rainbow.approximator_contract forward_q forward_dist forward_log_dist).
Local Abbreviation selected_dist :=
  (dqn_rainbow.selected_dist forward_q forward_dist preprocess_observation).
Local Abbreviation proj_dist :=
  (dqn_rainbow.proj_dist forward_q forward_dist preprocess_observation).

(** X14.  A terminal transition ([done = 1]) is projected from its
    reward alone: whatever the discount and whatever the target network
    answers, the mass 1 lands on the two neighbouring atoms around the
    bin [b] of the clamped reward, [U - b] of it on [L] and [b - L] on
    [U = L + 1]; a reward beyond the support lands on its last or first
    atom. *)
Theorem terminal_transition_projection (self : RainbowDQN) (n_act : nat)
    (batch : list (Transition State)) (gamma_ : Q) :
  well_formed self -> approximator_contract self n_act ->
  length batch = Z.to_nat (batch_size self) ->
  exists p,
    proj_dist self batch gamma_ = Ok p
    /\ forall i row tr,
         nth_error p i = Some row -> nth_error batch i = Some tr ->
         done tr == 1 ->
         let b := bin self (clamp (reward tr) (v_min self) (v_max self)) in
         (0 <= lower b)%Z
         /\ upper self b = (lower b + 1)%Z
         /\ (upper self b <= num_atoms self - 1)%Z
         /\ forall m,
              (m < Z.to_nat (num_atoms self))%nat ->
              nth m row 0
              == (if (lower b =? Z.of_nat m)%Z
                  then inject_Z (upper self b) - b else 0)
                 + (if (upper self b =? Z.of_nat m)%Z
                    then b - inject_Z (lower b) else 0).
Proof.
  intros Hwf Hc Hlen.
  destruct (@proj_dist_aligned State forward_q forward_dist forward_log_dist
              preprocess_observation self n_act batch gamma_ Hwf Hc Hlen)
    as (p & Hp & Hrows).
  exists p. split; [exact Hp |].
  intros i row tr Hi Htr Hdone b.
  pose proof (Forall2_nth_error_both _ Hrows Hi Htr) as Hrow.
  cbv beta in Hrow.
  destruct (@selected_dist_ok State forward_q forward_dist forward_log_dist
              preprocess_observation self n_act tr Hc) as [Hdl Hmass].
  destruct Hwf as (Hbs & Hna & Hv & Hsup & Hdz).
  assert (Hwf : well_formed self) by (repeat split; assumption).
  assert (Hb : 0 <= b /\ b <= inject_Z (num_atoms self - 1)).
  { apply bin_range; [exact Hwf |]. apply clamp_range. lra. }
  destruct (@lower_upper_spec self b Hna (proj1 Hb) (proj2 Hb))
    as (HL & HU & HLU).
  split; [exact HL |]. split; [exact HLU |]. split; [exact HU |].
  intros m Hm.
  rewrite (Forall2_Qeq_nth_both m Hrow).
  unfold spec_proj_row. rewrite nth_map_seq by exact Hm.
  set (bs := atom_bins self gamma_ tr).
  assert (Hbl : length bs = Z.to_nat (num_atoms self))
    by (apply atom_bins_length; exact Hwf).
  assert (Hbs0 : Forall (fun x => x == b) bs).
  { unfold bs, atom_bins. rewrite Forall_forall. intros x Hx.
    apply in_map_iff in Hx. destruct Hx as (z & <- & _).
    apply bin_comp, clamp_comp. rewrite Hdone. ring. }
  assert (HcL : Forall (fun i => i = lower b) (map lower bs)).
  { rewrite Forall_forall in *. intros x Hx. apply in_map_iff in Hx.
    destruct Hx as (y & <- & Hy). apply lower_comp, Hbs0, Hy. }
  assert (HcU : Forall (fun i => i = upper self b) (map (upper self) bs)).
  { rewrite Forall_forall in *. intros x Hx. apply in_map_iff in Hx.
    destruct Hx as (y & <- & Hy). apply upper_comp, Hbs0, Hy. }
  rewrite (@sum_placesconst _ _ _ _ HcL), (@sum_placesconst _ _ _ _ HcU);
    try (rewrite map2_length, !length_map; lia).
  assert (S1 : Qsum (map2 Qmult (selected_dist self tr)
                       (map (fun x => inject_Z (upper self x) - x) bs))
               == Qsum (selected_dist self tr)
                  * (inject_Z (upper self b) - b)).
  { apply Qsum_map2_const; [rewrite length_map; lia |].
    rewrite Forall_forall in *. intros x Hx. apply in_map_iff in Hx.
    destruct Hx as (y & <- & Hy).
    pose proof (Hbs0 y Hy) as E. cbv beta in E.
    rewrite (upper_comp self E), E. reflexivity. }
  assert (S2 : Qsum (map2 Qmult (selected_dist self tr)
                       (map (fun x => x - inject_Z (lower x)) bs))
               == Qsum (selected_dist self tr)
                  * (b - inject_Z (lower b))).
  { apply Qsum_map2_const; [rewrite length_map; lia |].
    rewrite Forall_forall in *. intros x Hx. apply in_map_iff in Hx.
    destruct Hx as (y & <- & Hy).
    pose proof (Hbs0 y Hy) as E. cbv beta in E.
    rewrite (lower_comp E), E. reflexivity. }
  destruct (lower b =? Z.of_nat m)%Z, (upper self b =? Z.of_nat m)%Z;
    rewrite ?S1, ?S2, ?Hmass; ring.
Qed.

End Landing.

Lemma terminal_transition_projection_witness :
  exists p,
    proj_dist toy_q toy_dist (fun s => s) (toy_agent 2 (1 # 1000) false)
      [tr_interior; tr_last] (99 # 100) = Ok p
    /\ forall i row tr,
         nth_error p i = Some row ->
         nth_error [tr_interior; tr_last] i = Some tr ->
         done tr == 1 ->
         let b :=
           bin (toy_agent 2 (1 # 1000) false)
             (clamp (reward tr) (- (1)) 1) in
         (0 <= lower b)%Z
         /\ upper (toy_agent 2 (1 # 1000) false) b = (lower b + 1)%Z
         /\ (upper (toy_agent 2 (1 # 1000) false) b <= 3 - 1)%Z
         /\ forall m,
              (m < 3)%nat ->
              nth m row 0
              == (if (lower b =? Z.of_nat m)%Z
                  then inject_Z (upper (toy_agent 2 (1 # 1000) false) b) - b
                  else 0)
                 + (if (upper (toy_agent 2 (1 # 1000) false) b
                        =? Z.of_nat m)%Z
                    then b - inject_Z (lower b) else 0).
Proof.
  apply (@terminal_transition_projection nat toy_q toy_dist toy_log_dist
           (fun s => s) (toy_agent 2 (1 # 1000) false) 2
           [tr_interior; tr_last] (99 # 100)).
  - apply toy_well_formed. lia.
  - apply toy_contract.
  - reflexivity.
Defined.

Lemma Forall2_Qeq_trans (a b c : list Q) :
  Forall2 Qeq a b -> Forall2 Qeq b c -> Forall2 Qeq a c.
Proof.
  intros H. revert c. induction H as [| x y a b Hxy _ IH]; intros c Hbc.
  - exact Hbc.
  - inversion Hbc as [| ? z ? c' Hyz Hrest]; subst.
    constructor; [rewrite Hxy; exact Hyz | exact (IH c' Hrest)].
Qed.

Lemma sum_placesmap (I : nat -> Z) (F : nat -> Q) (ks : list nat) (j : Z) :
  sum_where (map I ks) (map F ks) j
  = Qsum (map (fun k => if (I k =? j)%Z then F k else 0) ks).
Proof.
  unfold sum_where. induction ks as [| k ks IH]; simpl.
  - reflexivity.
  - rewrite IH. reflexivity.
Qed.

Lemma list_map_nth (l : list Q) :
  l = map (fun k => nth k l 0) (seq 0 (length l)).
Proof.
  apply nth_error_ext. intros n.
  rewrite nth_error_map, nth_error_seq.
  destruct (Nat.ltb_spec n (length l)) as [Hlt | Hge]; simpl.
  - apply nth_error_nth'. exact Hlt.
  - apply nth_error_None. exact Hge.
Qed.

(** The neighbours of a bin that sits on atom [k]. *)
Lemma lower_upper_on_atom (self : RainbowDQN) (k : nat) (b : Q) :
  (Z.of_nat k < num_atoms self - 1 \/ (0 < k)%nat)%Z ->
  b == inject_Z (Z.of_nat k) ->
  lower b = (if (k =? 0)%nat then 0 else Z.of_nat k - 1)%Z
  /\ upper self b = (if (k =? 0)%nat then 1 else Z.of_nat k)%Z.
Proof.
  intros Hk Hb.
  rewrite (upper_comp self Hb), (lower_comp Hb).
  unfold upper, lower. rewrite Qfloor_Z, Qceiling_Z.
  rewrite Z.eqb_refl.
  destruct k as [| k].
  - change (Z.of_nat 0) with 0%Z. cbn [Z.ltb Z.compare andb Nat.eqb].
    destruct (Z.ltb_spec 0 (num_atoms self - 1)); [| lia].
    split; reflexivity.
  - cbn [Nat.eqb].
    destruct (Z.ltb_spec 0 (Z.of_nat (S k))); [| lia]. cbn [andb].
    destruct (Z.eqb_spec (Z.of_nat (S k) - 1) (Z.of_nat (S k))); [lia |].
    rewrite andb_false_r. split; reflexivity.
Qed.

Lemma atom_bin_identity (self : RainbowDQN) (r d g : Q) (k : nat) :
  well_formed self ->
  (Z.of_nat k <= num_atoms self - 1)%Z ->
  r == 0 -> d == 0 -> g == 1 ->
  bin self
    (clamp
       (r + (1 - d) * g
            * (v_min self
               + inject_Z (Z.of_nat k)
                 * ((v_max self - v_min self)
                    / inject_Z
                        (Z.of_nat (Z.to_nat (num_atoms self)) - 1))))
       (v_min self) (v_max self))
  == inject_Z (Z.of_nat k).
Proof.
  intros Hwf Hk Hr Hd Hg.
  pose proof (delta_z_pos Hwf) as Hpos.
  destruct Hwf as (Hbs & Hna & Hv & Hsup & Hdz).
  rewrite Z2Nat.id by lia.
  set (n1 := inject_Z (num_atoms self - 1)) in *.
  assert (Hn1 : 0 < n1) by (apply inject_Z_pos; lia).
  assert (Hkn : inject_Z (Z.of_nat k) <= n1)
    by (unfold n1; rewrite <- Zle_Qle; exact Hk).
  assert (Hk0 : 0 <= inject_Z (Z.of_nat k))
    by (change 0 with (inject_Z 0); rewrite <- Zle_Qle; lia).
  assert (Hw : v_max self - v_min self == n1 * delta_z self).
  { rewrite Hdz. field. intros E. rewrite E in Hn1.
    exact (Qlt_irrefl _ Hn1). }
  assert (Hz : r + (1 - d) * g
                   * (v_min self
                      + inject_Z (Z.of_nat k)
                        * ((v_max self - v_min self) / n1))
               == v_min self + inject_Z (Z.of_nat k) * delta_z self).
  { rewrite Hr, Hd, Hg, Hdz. ring. }
  rewrite (bin_comp self (clamp_comp (v_min self) (v_max self) Hz)).
  assert (Hlo : v_min self
                <= v_min self + inject_Z (Z.of_nat k) * delta_z self).
  { assert (0 <= inject_Z (Z.of_nat k) * delta_z self)
      by (apply Qmult_le_0_compat; lra).
    lra. }
  assert (Hhi : v_min self + inject_Z (Z.of_nat k) * delta_z self
                <= v_max self).
  { assert (0 <= (n1 - inject_Z (Z.of_nat k)) * delta_z self)
      by (apply Qmult_le_0_compat; lra).
    lra. }
  assert (Hcl : clamp (v_min self + inject_Z (Z.of_nat k) * delta_z self)
                  (v_min self) (v_max self)
                == v_min self + inject_Z (Z.of_nat k) * delta_z self).
  { unfold clamp. rewrite (Q.max_l _ _ Hlo). apply Q.min_l. exact Hhi. }
  rewrite (bin_comp self Hcl). unfold bin. field.
  intros E. rewrite E in Hpos. exact (Qlt_irrefl _ Hpos).
Qed.

Section Identity.

Variable State : Type.
Variable forward_q : Net -> State -> list Q.
Variables forward_dist forward_log_dist : Net -> State -> list (list Q).
Variable preprocess_observation : State -> State.

Local Abbreviation approximator_contract :=
  (dqn_rainbow.approximator_contract forward_q forward_dist forward_log_dist).
Local Abbreviation selected_dist :=
  (dqn_rainbow.selected_dist forward_q forward_dist preprocess_observation).
Local Abbreviation proj_dist :=
  (dqn_rainbow.proj_dist forward_q forward_dist preprocess_observation).

Lemma spec_proj_row_identity (self : RainbowDQN) (dist : list Q)
    (tr : Transition State) (gamma_ : Q) :
  well_formed self ->
  length dist = Z.to_nat (num_atoms self) ->
  reward tr == 0 -> done tr == 0 -> gamma_ == 1 ->
  Forall2 Qeq (spec_proj_row self dist (atom_bins self gamma_ tr)) dist.
Proof.
  intros Hwf Hdl Hr Hd Hg.
  pose proof Hwf as (Hbs & Hna & Hv & Hsup & Hdz).
  set (n := Z.to_nat (num_atoms self)) in *.
  assert (Hn : (2 <= n)%nat) by (unfold n; lia).
  set (zk := fun k : nat =>
               v_min self
               + inject_Z (Z.of_nat k)
                 * ((v_max self - v_min self) / inject_Z (Z.of_nat n - 1))).
  set (B := fun k : nat =>
              bin self
                (clamp (reward tr + (1 - done tr) * gamma_ * zk k)
                   (v_min self) (v_max self))).
  assert (Hbins : atom_bins self gamma_ tr = map B (seq 0 n)).
  { unfold atom_bins. rewrite Hsup. fold n. unfold linspace.
    destruct n as [| [| n']]; try lia.
    rewrite map_map. reflexivity. }
  assert (HB : forall k, (k < n)%nat -> B k == inject_Z (Z.of_nat k)).
  { intros k Hk. unfold B, zk, n.
    apply atom_bin_identity; try assumption. unfold n in Hk. lia. }
  apply Forall2_Qeq_nth.
  { unfold spec_proj_row. rewrite length_map, length_seq. fold n. lia. }
  unfold spec_proj_row at 1. rewrite length_map, length_seq. fold n.
  intros m Hm. unfold spec_proj_row. fold n.
  rewrite nth_map_seq by exact Hm.
  rewrite Hbins.
  rewrite (list_map_nth dist) at 1 2. rewrite Hdl.
  rewrite !map_map, !map2_map_map, !sum_placesmap.
  rewrite <- Qsum_map_plus.
  rewrite (@Qsum_map_single _ (seq 0 n) m).
  - destruct (@lower_upper_on_atom self m (B m)) as [HL HU];
      [unfold n in Hm; lia | apply HB, Hm |].
    cbv beta. rewrite HL, HU. pose proof (HB m Hm) as E.
    destruct m as [| m]; cbn [Nat.eqb].
    + change (Z.of_nat 0) with 0%Z in *. cbn [Z.eqb]. rewrite E. ring.
    + rewrite Z.eqb_refl.
      destruct (Z.eqb_spec (Z.of_nat (S m) - 1) (Z.of_nat (S m))); [lia |].
      rewrite E. unfold Z.sub. rewrite inject_Z_plus, inject_Z_opp.
      change (inject_Z 1) with 1. ring.
  - apply seq_NoDup.
  - apply in_seq. lia.
  - intros k Hk Hne. apply in_seq in Hk.
    destruct (@lower_upper_on_atom self k (B k)) as [HL HU];
      [unfold n in Hk; lia | apply HB; lia |].
    cbv beta. rewrite HL, HU.
    assert (E : B k == inject_Z (Z.of_nat k)) by (apply HB; lia).
    destruct k as [| k]; cbn [Nat.eqb].
    + change (Z.of_nat 0) with 0%Z in *.
      destruct (Z.eqb_spec 0 (Z.of_nat m)); [lia |].
      destruct (Z.eqb_spec 1 (Z.of_nat m)); rewrite ?E; ring.
    + destruct (Z.eqb_spec (Z.of_nat (S k)) (Z.of_nat m)); [lia |].
      destruct (Z.eqb_spec (Z.of_nat (S k) - 1) (Z.of_nat m));
        rewrite ?E; unfold Z.sub; rewrite ?inject_Z_plus, ?inject_Z_opp;
        change (inject_Z 1) with 1; ring.
Qed.

(** X15.  The projection of an unshifted target is the target itself:
    for a transition that is not terminal, with reward 0 and discount 1,
    every atom is mapped onto itself ([t_z] is the support), and the
    projected row is the target network's distribution for the chosen
    action, entry by entry, the bins being exactly on the atoms. *)
Theorem projection_of_unshifted_target (self : RainbowDQN) (n_act : nat)
    (batch : list (Transition State)) (gamma_ : Q) :
  well_formed self -> approximator_contract self n_act ->
  length batch = Z.to_nat (batch_size self) ->
  gamma_ == 1 ->
  exists p,
    proj_dist self batch gamma_ = Ok p
    /\ forall i row tr,
         nth_error p i = Some row -> nth_error batch i = Some tr ->
         reward tr == 0 -> done tr == 0 ->
         Forall2 Qeq row (selected_dist self tr).
Proof.
  intros Hwf Hc Hlen Hg.
  destruct (@proj_dist_aligned State forward_q forward_dist forward_log_dist
              preprocess_observation self n_act batch gamma_ Hwf Hc Hlen)
    as (p & Hp & Hrows).
  exists p. split; [exact Hp |].
  intros i row tr Hi Htr Hr Hd.
  pose proof (Forall2_nth_error_both _ Hrows Hi Htr) as Hrow.
  cbv beta in Hrow.
  destruct (@selected_dist_ok State forward_q forward_dist forward_log_dist
              preprocess_observation self n_act tr Hc) as [Hdl _].
  pose proof (@spec_proj_row_identity self (selected_dist self tr) tr gamma_
                Hwf Hdl Hr Hd Hg) as Hid.
  exact (Forall2_Qeq_trans Hrow Hid).
Qed.

End Identity.

Lemma projection_of_unshifted_target_witness :
  exists p,
    proj_dist toy_q toy_dist (fun s => s) (toy_agent 2 (1 # 1000) false)
      [tr_fraction;
       {| state := 0%nat; action := 0%nat; reward := 0; next_state := 1%nat;
          done := 0 |}] 1 = Ok p
    /\ forall i row tr,
         nth_error p i = Some row ->
         nth_error
           [tr_fraction;
            {| state := 0%nat; action := 0%nat; reward := 0;
               next_state := 1%nat; done := 0 |}] i = Some tr ->
         reward tr == 0 -> done tr == 0 ->
         Forall2 Qeq row
           (selected_dist toy_q toy_dist (fun s => s)
              (toy_agent 2 (1 # 1000) false) tr).
Proof.
  apply (@projection_of_unshifted_target nat toy_q toy_dist toy_log_dist
           (fun s => s) (toy_agent 2 (1 # 1000) false) 2).
  - apply toy_well_formed. lia.
  - apply toy_contract.
  - reflexivity.
  - reflexivity.
Defined.

End dqn_rainbow_usage.
